(** * PlotResearch: the document analyzer ([analyzer.py]) in Rocq

    A shallow embedding of [DocumentAnalyzer], of the parts of the
    Python runtime it calls ([str] methods, the [re] module, [float]) and
    of the string processing of the web application ([app.py]: the upload
    filter, the chat widget, the slides of the PowerPoint export),
    followed by the properties of the analysis pipeline.

    Conventions of the embedding:
    - a Python [str] is a list of characters; a character is its code
      point, restricted to U+0000..U+00FF (the type [ascii]), so that
      [len], slicing and indexing count characters as Python does;
    - a call that can raise returns a [result]; the exceptions are the
      instances of [Exception], and [except Exception] becomes a match on
      the result;
    - a Python [float] is an IEEE 754 binary64 value, and [float(s)]
      rounds the decimal numeral to the nearest one;
    - the external services (file system, PDF and DOCX readers, the two
      generation back ends, [json.loads]) are oracles: functions from the
      request to its outcome, carried by the records [World], [GroqClient]
      and [GeminiModel];
    - [print] writes a line to the console of the [World], which may
      refuse it (an encoding error, a closed stream): it can raise like
      any other call. *)

From Stdlib Require Import Ascii String List Arith Lia Bool ZArith QArith.
From Stdlib Require Import DecimalString Floats.SpecFloat.
Import ListNotations.
Close Scope Q_scope.

Set Implicit Arguments.

(* ================================================================== *)
(** ** The Python runtime the analyzer relies on *)
(* ================================================================== *)

Module Py.

(** [str]: a sequence of characters. *)
Definition str := list ascii.

(** A literal, written as a Rocq string. *)
Definition lit (s : string) : str := list_ascii_of_string s.
Arguments lit s%_string.

Definition LF : ascii := ascii_of_nat 10.
Definition TAB : ascii := ascii_of_nat 9.

Definition code (c : ascii) : nat := nat_of_ascii c.

Definition between (lo hi n : nat) : bool := (lo <=? n) && (n <=? hi).

(** [str.isspace] on one character (also the class [\s] of [re]). *)
Definition isspace (c : ascii) : bool :=
  let n := code c in
  between 9 13 n || between 28 32 n || (n =? 133) || (n =? 160).

(** [str.isdecimal] on one character (also the class [\d] of [re]). *)
Definition isdecimal (c : ascii) : bool := between 48 57 (code c).

(** [str.isalnum] on one character. *)
Definition isalnum (c : ascii) : bool :=
  let n := code c in
  between 48 57 n || between 65 90 n || between 97 122 n
  || (n =? 170) || (n =? 178) || (n =? 179) || (n =? 181)
  || (n =? 185) || (n =? 186) || between 188 190 n
  || between 192 214 n || between 216 246 n || between 248 255 n.

(** The class [\w] of [re]: alphanumeric or underscore. *)
Definition isword (c : ascii) : bool := isalnum c || (code c =? 95).

(** [str.lower] on one character. *)
Definition lower_char (c : ascii) : ascii :=
  let n := code c in
  if between 65 90 n || between 192 214 n || between 216 222 n
  then ascii_of_nat (n + 32) else c.

Definition lower (s : str) : str := map lower_char s.

Definition char_eqb (a b : ascii) : bool := Ascii.eqb a b.

Fixpoint str_eqb (a b : str) : bool :=
  match a, b with
  | [], [] => true
  | x :: a', y :: b' => char_eqb x y && str_eqb a' b'
  | _, _ => false
  end.

(** [c in s] for a one-character [c]. *)
Definition contains_char (c : ascii) (s : str) : bool := existsb (char_eqb c) s.

(** [s.startswith(p)]. *)
Fixpoint startswith (p s : str) : bool :=
  match p, s with
  | [], _ => true
  | x :: p', y :: s' => char_eqb x y && startswith p' s'
  | _ :: _, [] => false
  end.

(** [needle in hay] for strings. *)
Fixpoint contains (needle hay : str) : bool :=
  startswith needle hay ||
  match hay with
  | [] => false
  | _ :: hay' => contains needle hay'
  end.

(** [s.lstrip()], [s.rstrip()], [s.strip()]. *)
Fixpoint lstrip (s : str) : str :=
  match s with
  | c :: s' => if isspace c then lstrip s' else s
  | [] => []
  end.

Definition rstrip (s : str) : str := rev (lstrip (rev s)).

Definition strip (s : str) : str := rstrip (lstrip s).

(** [s.split(sep)] for a one-character separator: never empty. *)
Fixpoint split (sep : ascii) (s : str) : list str :=
  match s with
  | [] => [[]]
  | c :: s' =>
      if char_eqb c sep then [] :: split sep s'
      else match split sep s' with
           | w :: ws => (c :: w) :: ws
           | [] => [[c]]
           end
  end.

(** [sep.join(parts)]. *)
Fixpoint join (sep : str) (parts : list str) : str :=
  match parts with
  | [] => []
  | [p] => p
  | p :: ps => p ++ sep ++ join sep ps
  end.

(** [str(n)] for a non-negative integer. *)
Definition str_of_nat (n : nat) : str :=
  list_ascii_of_string (NilEmpty.string_of_uint (Nat.to_uint n)).

(** Exceptions: instances of [Exception], by class and message.
    [BaseException]-only signals (keyboard interrupt, interpreter exit)
    are outside the model. *)
Inductive exn_class :=
| AttributeError | IndexError | ValueError | TypeError | OSError
| ImportError | JSONDecodeError | APIError | UnicodeEncodeError.

Record exn := Exn { exn_cls : exn_class; exn_msg : str }.

Inductive result (A : Type) :=
| Ok (a : A)
| Raise (e : exn).
Arguments Ok {A} a.
Arguments Raise {A} e.

Definition bind {A B} (r : result A) (f : A -> result B) : result B :=
  match r with
  | Ok a => f a
  | Raise e => Raise e
  end.

(** Sequencing of calls that can raise. *)
Notation "x <- e ;; k" := (bind e (fun x => k))
  (at level 61, e at next level, right associativity).

(** [try: body  except Exception as e: handler(e)]. *)
Definition try_except {A} (body : result A) (handler : exn -> result A) : result A :=
  match body with
  | Ok a => Ok a
  | Raise e => handler e
  end.

(** Value of a digit character. *)
Definition digit_val (c : ascii) : nat := code c - 48.

(** Value of a run of decimal digits, most significant first. *)
Definition digits_val (ds : str) : N :=
  fold_left (fun acc c => (10 * acc + N.of_nat (digit_val c))%N) ds 0%N.

(** Split at the first ['.']: the part before, and the part after when
    there is one. *)
Fixpoint cut_at_dot (s : str) : str * option str :=
  match s with
  | [] => ([], None)
  | c :: s' =>
      if char_eqb c "."%char then ([], Some s')
      else let '(a, b) := cut_at_dot s' in (c :: a, b)
  end.

(** A Python [float]: an IEEE 754 binary64 value, finite, infinite or
    not a number. *)
Definition binary64 := spec_float.

Definition integer (z : Z) : binary64 :=
  match z with
  | Z0 => S754_zero false
  | Zpos p => S754_finite false p 0
  | Zneg p => S754_finite true p 0
  end.

(** The binary64 value nearest to a rational, ties going to the even
    significand; a rational beyond the range gives an infinity.  This is
    the correctly rounded quotient of numerator and denominator. *)
Definition nearest (q : Q) : binary64 :=
  let r := Qred q in
  SFdiv 53 1024 (integer (Qnum r)) (integer (Zpos (Qden r))).

(** The exact value of a finite binary64, in lowest terms. *)
Definition value (x : binary64) : option Q :=
  match x with
  | S754_zero _ => Some 0%Q
  | S754_finite s m e =>
      let z := if s then Zneg m else Zpos m in
      Some (Qred (match e with
                  | Zneg k => z # 2 ^ k
                  | _ => (z * 2 ^ e) # 1
                  end))
  | S754_infinity _ => None
  | S754_nan => None
  end.

(** [float(s)] on the decimal numerals [d+], [d+.] and [d+.d*]; any
    other spelling raises [ValueError] here (Python accepts more: signs,
    exponents, surrounding blanks, [inf], [nan]).  The conversion is
    correctly rounded, as Python's is: the result is the binary64 nearest
    to the decimal, and [inf] when the decimal is beyond the range. *)
Definition float (s : str) : result binary64 :=
  let '(ip, fp) := cut_at_dot s in
  let fp := match fp with Some f => f | None => [] end in
  match ip with
  | [] => Raise (Exn ValueError (lit "could not convert string to float"))
  | _ :: _ =>
      if forallb isdecimal ip && forallb isdecimal fp
      then Ok (nearest (Z.of_N (digits_val (ip ++ fp))
                        # Z.to_pos (10 ^ Z.of_nat (length fp)))%Q)
      else Raise (Exn ValueError (lit "could not convert string to float"))
  end.

(** [[f(x) for x in xs]] where [f] can raise: stops at the first
    exception. *)
Fixpoint map_result {A B} (f : A -> result B) (xs : list A) : result (list B) :=
  match xs with
  | [] => Ok []
  | x :: xs' =>
      y <- f x ;;
      ys <- map_result f xs' ;;
      Ok (y :: ys)
  end.

End Py.

(* ================================================================== *)
(** ** The fragment of the [re] module used by the analyzer *)
(* ================================================================== *)

(** A backtracking matcher in continuation-passing style: alternatives
    are tried left to right, a greedy repetition tries the longer match
    first and a lazy one the shorter, and the first overall success
    wins, as in Python's engine.  Every repetition in the source applies
    to a one-character item, so repetition is defined on those. *)

Module Re.
Import Py.

Record flags := { IGNORECASE : bool; DOTALL : bool }.

(** One-character items.  The classes of the source hold no letters, so
    [IGNORECASE] only affects literals. *)
Inductive atom :=
| Chr (c : ascii)
| Class (p : ascii -> bool)
| Dot.

Inductive regex :=
| Eps
| One (a : atom)
| Cat (r1 r2 : regex)
| Alt (r1 r2 : regex)
| Star (greedy : bool) (a : atom)
| Group (n : nat) (r : regex)
| Lookahead (r : regex)
| WordBoundary
| Bos
| Eos
| Dollar.

(** [a+], [a?] and a literal word, in terms of the above. *)
Definition Plus (greedy : bool) (a : atom) : regex := Cat (One a) (Star greedy a).

Definition Opt (greedy : bool) (a : atom) : regex :=
  if greedy then Alt (One a) Eps else Alt Eps (One a).

Fixpoint Lit (w : str) : regex :=
  match w with
  | [] => Eps
  | c :: w' => Cat (One (Chr c)) (Lit w')
  end.

Definition atom_ok (fl : flags) (a : atom) (c : ascii) : bool :=
  match a with
  | Chr x =>
      if IGNORECASE fl then char_eqb (lower_char c) (lower_char x)
      else char_eqb c x
  | Class p => p c
  | Dot => DOTALL fl || negb (char_eqb c LF)
  end.

(** A position in the subject: the characters before it, nearest first,
    and the characters from it on. *)
Record cursor := Cursor { before : str; after : str }.

Definition position (st : cursor) : nat := length (before st).

Definition captures := list (nat * str).

Definition word_at (o : list ascii) : bool :=
  match o with
  | c :: _ => isword c
  | [] => false
  end.

(** [\b]: exactly one of the two neighbours is a word character. *)
Definition at_boundary (st : cursor) : bool :=
  xorb (word_at (before st)) (word_at (after st)).

Fixpoint star_run {R : Type} (fl : flags) (greedy : bool) (a : atom)
         (bef aft : str) (k : cursor -> option R) : option R :=
  match aft with
  | c :: aft' =>
      if atom_ok fl a c then
        if greedy then
          match star_run fl greedy a (c :: bef) aft' k with
          | Some x => Some x
          | None => k (Cursor bef aft)
          end
        else
          match k (Cursor bef aft) with
          | Some x => Some x
          | None => star_run fl greedy a (c :: bef) aft' k
          end
      else k (Cursor bef aft)
  | [] => k (Cursor bef aft)
  end.

Fixpoint m {R : Type} (fl : flags) (r : regex) (st : cursor) (caps : captures)
         (k : cursor -> captures -> option R) {struct r} : option R :=
  match r with
  | Eps => k st caps
  | One a =>
      match after st with
      | c :: s => if atom_ok fl a c then k (Cursor (c :: before st) s) caps else None
      | [] => None
      end
  | Cat r1 r2 => m fl r1 st caps (fun st' caps' => m fl r2 st' caps' k)
  | Alt r1 r2 =>
      match m fl r1 st caps k with
      | Some x => Some x
      | None => m fl r2 st caps k
      end
  | Star greedy a => star_run fl greedy a (before st) (after st) (fun st' => k st' caps)
  | Group n r' =>
      m fl r' st caps
        (fun st' caps' =>
           k st' ((n, firstn (position st' - position st) (after st)) :: caps'))
  | Lookahead r' =>
      match m fl r' st caps (fun _ caps' => Some caps') with
      | Some caps' => k st caps'
      | None => None
      end
  | WordBoundary => if at_boundary st then k st caps else None
  | Bos => match before st with [] => k st caps | _ :: _ => None end
  | Eos => match after st with [] => k st caps | _ :: _ => None end
  | Dollar =>
      match after st with
      | [] => k st caps
      | [c] => if char_eqb c LF then k st caps else None
      | _ :: _ :: _ => None
      end
  end.

(** A match object. *)
Record Match := { m_start : nat; m_end : nat; group0 : str; groups : captures }.

Fixpoint lookup (n : nat) (caps : captures) : option str :=
  match caps with
  | [] => None
  | (i, w) :: caps' => if i =? n then Some w else lookup n caps'
  end.

(** [mt.group(n)] for [n >= 1]: [None] when the group took no part. *)
Definition group (mt : Match) (n : nat) : option str := lookup n (groups mt).

(** One attempt at a given position; with [must_advance] an empty match
    there is refused and the engine backtracks. *)
Definition match_at (must_advance : bool) (fl : flags) (r : regex)
           (st : cursor) : option Match :=
  m fl r st []
    (fun st' caps =>
       if must_advance && (position st' =? position st) then None
       else Some {| m_start := position st; m_end := position st';
                    group0 := firstn (position st' - position st) (after st);
                    groups := caps |}).

(** [re.search]: the leftmost position with a match. *)
Fixpoint search_from (fl : flags) (r : regex) (bef aft : str) : option Match :=
  match match_at false fl r (Cursor bef aft) with
  | Some mt => Some mt
  | None =>
      match aft with
      | c :: aft' => search_from fl r (c :: bef) aft'
      | [] => None
      end
  end.

Definition search (fl : flags) (r : regex) (text : str) : option Match :=
  search_from fl r [] text.

(** [re.finditer]: successive non-overlapping matches.  [skip] counts
    the characters of the last match still to pass.  After an empty
    match the same position is tried once more for a non-empty one. *)
Fixpoint scan (fl : flags) (r : regex) (skip : nat) (bef aft : str) : list Match :=
  match skip with
  | S skip' =>
      match aft with
      | c :: aft' => scan fl r skip' (c :: bef) aft'
      | [] => []
      end
  | O =>
      let pass (n : nat) :=
        match aft with
        | c :: aft' => scan fl r n (c :: bef) aft'
        | [] => []
        end in
      match match_at false fl r (Cursor bef aft) with
      | None => pass 0
      | Some mt =>
          if m_end mt =? m_start mt then
            mt :: match match_at true fl r (Cursor bef aft) with
                  | None => pass 0
                  | Some mt' => mt' :: pass (m_end mt' - m_start mt' - 1)
                  end
          else mt :: pass (m_end mt - m_start mt - 1)
      end
  end.

Definition finditer (fl : flags) (r : regex) (text : str) : list Match :=
  scan fl r 0 [] text.

(** [re.findall] for a pattern without groups: the matched substrings. *)
Definition findall (fl : flags) (r : regex) (text : str) : list str :=
  map group0 (finditer fl r text).

(** [re.sub(r, repl, text)] for a replacement without back-references. *)
Fixpoint splice (repl : str) (pos : nat) (ms : list Match) (aft : str) : str :=
  match ms with
  | [] => aft
  | mt :: ms' =>
      firstn (m_start mt - pos) aft ++ repl
      ++ splice repl (m_end mt) ms' (skipn (m_end mt - pos) aft)
  end.

Definition sub (fl : flags) (r : regex) (repl text : str) : str :=
  splice repl 0 (finditer fl r text) text.

Definition no_flags : flags := {| IGNORECASE := false; DOTALL := false |}.

End Re.

Import Py Re.

(* ================================================================== *)
(** ** Data model: the dashboard and its parts *)
(* ================================================================== *)

(** One entry of ["datasets"]. *)
Record Dataset := { ds_label : str; ds_data : list binary64; ds_color : str }.

(** The ["chart"] of a section. *)
Record Chart := { chart_type : str; chart_labels : list str; chart_datasets : list Dataset }.

(** One entry of ["sections"]. *)
Record DashSection := {
  sec_id : str;
  sec_title : str;
  content_html : str;
  chart : option Chart
}.

Record UiTheme := { primary_color : str; accent_color : str; layout : str }.

(** The dashboard dictionary. *)
Record Dashboard := {
  title : str;
  sections : list DashSection;
  ui_theme : UiTheme;
  export_html : str;
  share_ready : bool
}.

(** The result of [_generate_heatmap_data]. *)
Record Heatmap := {
  hm_type : str;
  hm_z : list (list binary64);
  hm_x : list str;
  hm_y : list str;
  colorscale : str
}.

(** One table of [_extract_tabular_data]. *)
Record Table := { headers : list str; rows : list (list str) }.

(** A JSON value, as [json.loads] returns it. *)
#[warnings="-register-all"] Inductive json :=
| JNull
| JBool (b : bool)
| JNumber (q : Q)
| JString (s : str)
| JArray (items : list json)
| JObject (members : list (str * json)).

(** What [analyze_document] returns: a dashboard dictionary built by this
    module, the custom-HTML dictionary of the Groq path
    ([is_custom_html = True]), or whatever [json.loads] made of the
    Gemini answer. *)
Inductive analysis :=
| DashboardDict (d : Dashboard)
| CustomHtml (html_content text_content : str)
| ParsedJson (j : json).

(* ================================================================== *)
(** ** External services *)
(* ================================================================== *)

(** A prompt is an f-string: a fixed template with holes.  The template
    texts (source lines 120-206, 246-255 and 270-407) are constants that
    no operation of the module inspects, and two of them hold characters
    outside the modelled range; a prompt is therefore its template, one
    constructor each, applied to the interpolated values in order of
    appearance. *)
Inductive prompt :=
| GroqDashboardPrompt (summary_length summary_instruction user_instructions document : str)
| ChatPrompt (document question : str)
| GeminiDashboardPrompt (document : str).

(** The arguments of [client.chat.completions.create], one user message. *)
Record ChatRequest := {
  req_content : prompt;
  req_model : str;
  temperature : Q;
  max_tokens : N
}.

(** A Groq client: the outcome of [create(...)] followed by
    [.choices[0].message.content]. *)
Record GroqClient := { chat_completions_create : ChatRequest -> result str }.

(** A Gemini model: the outcome of [generate_content(prompt).text]. *)
Record GeminiModel := { generate_content : prompt -> result str }.

Record Config := {
  AI_PROVIDER : str;
  GROQ_API_KEY : str;
  GROQ_MODEL : str;
  GEMINI_API_KEY : str
}.

(** The lines the module prints.  Like a prompt, a line is its template
    (two of them start with a character outside the modelled range)
    applied to the interpolated values: the configured model name, or the
    text [str(e)] of the exception caught. *)
Inductive console_line :=
| GroqReady (model_name : str)   (* line 41 *)
| GroqInitFailed (e : str)       (* line 43 *)
| GroqKeyHint                    (* lines 44 and 47 *)
| GroqKeyMissing                 (* line 46 *)
| GeminiReady                    (* line 53 *)
| GeminiInitFailed (e : str)     (* line 55 *)
| GroqApiError (e : str)         (* line 237 *)
| FallingBack                    (* line 238 *)
| GeminiApiError (e : str).      (* line 423 *)

(** Everything outside the module. *)
Record World := {
  config : Config;
  (** [print(line)]: the write to standard output, which raises when the
      stream cannot take the line (a [UnicodeEncodeError] when its
      encoding lacks a character, a [ValueError] when it is closed) *)
  print : console_line -> result unit;
  (** [from groq import Groq; Groq(api_key=key)] *)
  Groq : str -> result GroqClient;
  (** [import google.generativeai as genai; genai.GenerativeModel(name)] *)
  GenerativeModel : str -> result GeminiModel;
  json_loads : str -> result json;
  (** [open(path, 'r', encoding='utf-8', errors='ignore')] and [f.read()] *)
  read_text : str -> result str;
  (** [import PyPDF2], [open(path, 'rb')], [PdfReader(f).pages]; then
      [page.extract_text()] for each page *)
  pdf_pages : str -> result (list (result str));
  (** [import docx] and [docx.Document(path).paragraphs], as their texts *)
  docx_paragraphs : str -> result (list str)
}.

(* ================================================================== *)
(** ** [class DocumentAnalyzer] *)
(* ================================================================== *)

(** An instance attribute that [__init__] may never assign. *)
Inductive attr (A : Type) :=
| Unset
| Bound (a : A).
Arguments Unset {A}.
Arguments Bound {A} a.

(** [self.model]: the string ['groq'] or a Gemini model object. *)
Inductive model_value :=
| ModelGroq
| ModelGemini (g : GeminiModel).

Record DocumentAnalyzer := {
  ai_provider : str;
  model : option model_value;
  client : attr GroqClient
}.

(** Truth value of a [str]: non-empty. *)
Definition truthy (s : str) : bool :=
  match s with
  | [] => false
  | _ :: _ => true
  end.

(** Truth value of an object that defines neither [__bool__] nor
    [__len__]. *)
Definition object_truthy {A} (_ : A) : bool := true.

(** [s[:n]]. *)
Definition slice_to (n : N) (s : str) : str := firstn (N.to_nat n) s.

(** Lines 42-44 and 54-55: the handlers of [__init__]. *)
Definition groq_init_failed {A : Type} (w : World) (e : exn) (k : result A) : result A :=
  _ <- print w (GroqInitFailed (exn_msg e)) ;;
  _ <- print w GroqKeyHint ;;
  k.

Definition gemini_init_failed {A : Type} (w : World) (e : exn) (k : result A) : result A :=
  _ <- print w (GeminiInitFailed (exn_msg e)) ;;
  k.

(** Lines 31-55.  The attributes are assigned before the line that
    reports success is printed, so they stay assigned when that [print]
    raises and the handler takes over. *)
Definition __init__ (w : World) : result DocumentAnalyzer :=
  let cfg := config w in
  let self := {| ai_provider := AI_PROVIDER cfg; model := None; client := Unset |} in
  if str_eqb (ai_provider self) (lit "groq") then
    if truthy (GROQ_API_KEY cfg) then
      match Groq w (GROQ_API_KEY cfg) with
      | Ok c =>
          let self :=
            {| ai_provider := ai_provider self; model := Some ModelGroq; client := Bound c |} in
          match print w (GroqReady (GROQ_MODEL cfg)) with
          | Ok _ => Ok self
          | Raise e => groq_init_failed w e (Ok self)
          end
      | Raise e => groq_init_failed w e (Ok self)
      end
    else
      _ <- print w GroqKeyMissing ;;
      _ <- print w GroqKeyHint ;;
      Ok self
  else if str_eqb (ai_provider self) (lit "gemini") && truthy (GEMINI_API_KEY cfg) then
    match GenerativeModel w (lit "gemini-pro") with
    | Ok g =>
        let self :=
          {| ai_provider := ai_provider self; model := Some (ModelGemini g);
             client := client self |} in
        match print w GeminiReady with
        | Ok _ => Ok self
        | Raise e => gemini_init_failed w e (Ok self)
        end
    | Raise e => gemini_init_failed w e (Ok self)
    end
  else Ok self.

(** Reading [self.client]. *)
Definition get_client (self : DocumentAnalyzer) : result GroqClient :=
  match client self with
  | Bound c => Ok c
  | Unset =>
      Raise (Exn AttributeError
               (lit "'DocumentAnalyzer' object has no attribute 'client'"))
  end.

(** Lines 57-85. *)
Definition extract_text (w : World) (file_path : str) : result str :=
  match rev (split "."%char (lower file_path)) with
  | [] => Raise (Exn IndexError (lit "list index out of range"))
  | ext :: _ =>
      if str_eqb ext (lit "txt") then
        read_text w file_path
      else if str_eqb ext (lit "pdf") then
        try_except
          (pages <- pdf_pages w file_path ;;
           fold_left
             (fun acc page =>
                text <- acc ;;
                page_text <- page ;;
                Ok (text ++ page_text ++ [LF]))
             pages (Ok []))
          (fun e => Ok (lit "Error extracting PDF: " ++ exn_msg e))
      else if str_eqb ext (lit "docx") || str_eqb ext (lit "doc") then
        try_except
          (paras <- docx_paragraphs w file_path ;;
           Ok (join [LF] paras))
          (fun e => Ok (lit "Error extracting DOCX: " ++ exn_msg e))
      else Ok []
  end.

(** Lines 622-639. *)
Definition _generate_error_response (error_msg : str) : Dashboard :=
  {| title := lit "Analysis Error";
     sections :=
       [ {| sec_id := lit "error";
            sec_title := lit "Error";
            content_html := lit "<p>" ++ error_msg ++ lit "</p>";
            chart := None |} ];
     ui_theme :=
       {| primary_color := lit "#ef4444";
          accent_color := lit "#dc2626";
          layout := lit "single-column" |};
     export_html := lit "<section><h2>Error</h2><p>" ++ error_msg ++ lit "</p></section>";
     share_ready := false |}.

(** The class [[:\s]]. *)
Definition colon_or_space (c : ascii) : bool := char_eqb c ":"%char || isspace c.

(** [[:\s]+(.*?)(?=\n\n|\Z)], the common tail of both heading patterns. *)
Definition heading_body : regex :=
  Cat (Plus true (Class colon_or_space))
    (Cat (Group 2 (Star false Dot))
       (Lookahead (Alt (Lit [LF; LF]) Eos))).

(** [(w1|w2|w3)[:\s]+(.*?)(?=\n\n|\Z)], the shape of both heading
    patterns. *)
Definition heading_re (w1 w2 w3 : str) : regex :=
  Cat (Group 1 (Alt (Lit w1) (Alt (Lit w2) (Lit w3)))) heading_body.

(** [r'(abstract|summary|executive summary)[:\s]+(.*?)(?=\n\n|\Z)'] *)
Definition abstract_re : regex :=
  heading_re (lit "abstract") (lit "summary") (lit "executive summary").

(** [r'(conclusion|summary|findings)[:\s]+(.*?)(?=\n\n|\Z)'] *)
Definition conclusion_re : regex :=
  heading_re (lit "conclusion") (lit "summary") (lit "findings").

(** [re.IGNORECASE | re.DOTALL] *)
Definition heading_flags : flags := {| IGNORECASE := true; DOTALL := true |}.

(** [r'\b\d+\.?\d*\b'] *)
Definition number_re : regex :=
  Cat WordBoundary
    (Cat (Plus true (Class isdecimal))
       (Cat (Opt true (Chr "."%char))
          (Cat (Star true (Class isdecimal)) WordBoundary))).

(** [mt.group(2)[:500]]: a group that took no part is [None], which
    cannot be sliced. *)
Definition group2_500 (mt : Match) : result str :=
  match group mt 2 with
  | Some g => Ok (slice_to 500 g)
  | None => Raise (Exn TypeError (lit "'NoneType' object is not subscriptable"))
  end.

(** Lines 479-483: the loop that assembles [export_html]. *)
Definition assemble_export_html (secs : list DashSection) : str :=
  fold_left
    (fun html section =>
       html ++ lit "<h2>" ++ sec_title section ++ lit "</h2>" ++ content_html section)
    secs (lit "<section>")
  ++ lit "</section>".

(** [[f"Metric {i+1}" for i in range(n)]] *)
Definition numbered (prefix : str) (n : nat) : list str :=
  map (fun i => prefix ++ str_of_nat (i + 1)) (seq 0 n).

(** Lines 428-495. *)
Definition _analyze_with_rules (text : str) : result Dashboard :=
  let lines := split LF text in
  let title :=
    match lines with
    | l0 :: _ => slice_to 100 l0
    | [] => lit "Document Analysis"
    end in
  let sections := [] in
  sections <-
    match search heading_flags abstract_re text with
    | Some abstract_match =>
        g <- group2_500 abstract_match ;;
        Ok (sections ++
            [ {| sec_id := lit "abstract";
                 sec_title := lit "Abstract";
                 content_html := lit "<p>" ++ g ++ lit "</p>";
                 chart := None |} ])
    | None => Ok sections
    end ;;
  let numbers := findall no_flags number_re text in
  sections <-
    (if 3 <=? length numbers then
       chart_data <- map_result float (firstn 6 numbers) ;;
       Ok (sections ++
           [ {| sec_id := lit "metrics";
                sec_title := lit "Key Metrics";
                content_html := lit "<p>Numerical data extracted from the document.</p>";
                chart :=
                  Some {| chart_type := lit "bar";
                          chart_labels := numbered (lit "Metric ") (length chart_data);
                          chart_datasets :=
                            [ {| ds_label := lit "Values";
                                 ds_data := chart_data;
                                 ds_color := lit "#0ea5e9" |} ] |} |} ])
     else Ok sections) ;;
  sections <-
    match search heading_flags conclusion_re text with
    | Some conclusion_match =>
        g <- group2_500 conclusion_match ;;
        Ok (sections ++
            [ {| sec_id := lit "conclusion";
                 sec_title := lit "Conclusion";
                 content_html := lit "<p>" ++ g ++ lit "</p>";
                 chart := None |} ])
    | None => Ok sections
    end ;;
  Ok {| title := title;
        sections := sections;
        ui_theme :=
          {| primary_color := lit "#0ea5e9";
             accent_color := lit "#6366f1";
             layout := lit "single-column" |};
        export_html := assemble_export_html sections;
        share_ready := true |}.

(** [re.sub(r'^```<tag>\s*', '', s)], then [r'^```\s*'], then
    [r'\s*```$']: the removal of a Markdown fence (lines 225-227 and
    414-416). *)
Definition fence_open_re (tag : str) : regex :=
  Cat Bos (Cat (Lit (lit "```" ++ tag)) (Star true (Class isspace))).

Definition fence_close_re : regex :=
  Cat (Star true (Class isspace)) (Cat (Lit (lit "```")) Dollar).

Definition strip_fences (tag : str) (s : str) : str :=
  let s := sub no_flags (fence_open_re tag) [] s in
  let s := sub no_flags (fence_open_re []) [] s in
  sub no_flags fence_close_re [] s.

(** The dashboard of the rule-based analyzer, as a return value of the
    dispatching methods. *)
Definition rules_result (text : str) : result analysis :=
  d <- _analyze_with_rules text ;;
  Ok (DashboardDict d).

(** Lines 110-206: the prompt of the Groq path. *)
Definition groq_prompt (text custom_prompt summary_length : str) : prompt :=
  let user_instructions :=
    if truthy custom_prompt then
      [LF] ++ lit "USER CUSTOM INSTRUCTIONS:" ++ [LF] ++ custom_prompt ++ [LF]
      ++ lit "(Prioritize these instructions over default behavior)"
    else [] in
  let summary_instruction :=
    if str_eqb summary_length (lit "Brief") then
      lit "Keep summaries concise and high-level. Focus on bullet points."
    else if str_eqb summary_length (lit "Detailed") then
      lit "Provide in-depth comprehensive summaries and detailed analysis."
    else [] in
  GroqDashboardPrompt summary_length summary_instruction user_instructions
    (slice_to 25000 text).

(** Lines 210-220: the request of the Groq path. *)
Definition groq_request (w : World) (text custom_prompt summary_length : str) : ChatRequest :=
  {| req_content := groq_prompt text custom_prompt summary_length;
     req_model := GROQ_MODEL (config w);
     temperature := (1 # 2)%Q;
     max_tokens := 8000 |}.

(** Lines 106-239. *)
Definition _analyze_with_groq (w : World) (self : DocumentAnalyzer)
           (text custom_prompt summary_length : str) : result analysis :=
  try_except
    (client <- get_client self ;;
     content <- chat_completions_create client
                  (groq_request w text custom_prompt summary_length) ;;
     let html_content := strip content in
     let html_content := strip_fences (lit "html") html_content in
     Ok (CustomHtml html_content text))
    (fun e =>
       _ <- print w (GroqApiError (exn_msg e)) ;;
       _ <- print w FallingBack ;;
       rules_result text).

(** Lines 241-265. *)
Definition chat_with_document (w : World) (self : DocumentAnalyzer)
           (text question : str) : result str :=
  client <- get_client self ;;
  if negb (object_truthy client) then
    Ok (lit "AI Chat not available (Groq API key missing).")
  else
    let prompt := ChatPrompt (slice_to 20000 text) question in
    try_except
      (client <- get_client self ;;
       content <- chat_completions_create client
                    {| req_content := prompt;
                       req_model := GROQ_MODEL (config w);
                       temperature := (3 # 10)%Q;
                       max_tokens := 1000 |} ;;
       Ok (strip content))
      (fun e => Ok (lit "Error generating answer: " ++ exn_msg e)).

(** [self.model.generate_content]: a [str] has no such method. *)
Definition model_generate_content (self : DocumentAnalyzer) (p : prompt) : result str :=
  match model self with
  | Some (ModelGemini g) => generate_content g p
  | Some ModelGroq =>
      Raise (Exn AttributeError (lit "'str' object has no attribute 'generate_content'"))
  | None =>
      Raise (Exn AttributeError (lit "'NoneType' object has no attribute 'generate_content'"))
  end.

(** Lines 270-407: the prompt of the Gemini path. *)
Definition gemini_prompt (text : str) : prompt :=
  GeminiDashboardPrompt (slice_to 15000 text).

(** Lines 267-424. *)
Definition _analyze_with_gemini (w : World) (self : DocumentAnalyzer)
           (text : str) : result analysis :=
  try_except
    (response_text <- model_generate_content self (gemini_prompt text) ;;
     let result_text := strip response_text in
     let result_text := strip_fences (lit "json") result_text in
     dashboard_data <- json_loads w result_text ;;
     Ok (ParsedJson dashboard_data))
    (fun e =>
       _ <- print w (GeminiApiError (exn_msg e)) ;;
       rules_result text).

(** Lines 87-104. *)
Definition analyze_document (w : World) (self : DocumentAnalyzer)
           (file_path custom_prompt summary_length : str) : result analysis :=
  text <- extract_text w file_path ;;
  if negb (truthy text) || (length (strip text) <? 100) then
    Ok (DashboardDict (_generate_error_response (lit "Document too short or empty")))
  else
    match model self with
    | Some mdl =>
        if object_truthy mdl then
          if str_eqb (ai_provider self) (lit "groq") then
            _analyze_with_groq w self text custom_prompt summary_length
          else if str_eqb (ai_provider self) (lit "gemini") then
            _analyze_with_gemini w self text
          else rules_result text
        else rules_result text
    | None => rules_result text
    end.

(** Lines 541-544: the cells of a table row. *)
Definition row_cells (line : str) : list str :=
  if contains_char "|"%char line then
    filter truthy (map strip (split "|"%char line))
  else
    filter truthy (map strip (split TAB line)).

(** Lines 550-555 and 558-562: close the current accumulation. *)
Definition flush_table (tables : list Table) (current_table : list (list str)) : list Table :=
  if 2 <=? length current_table then
    match current_table with
    | h :: body => tables ++ [ {| headers := h; rows := body |} ]
    | [] => tables
    end
  else tables.

(** Lines 538-555: the body of the loop over the lines; the state is
    [(tables, current_table)]. *)
Definition table_step (st : list Table * list (list str)) (line : str)
  : list Table * list (list str) :=
  let '(tables, current_table) := st in
  if contains_char "|"%char line || contains_char TAB line then
    let cells := row_cells line in
    if 2 <=? length cells then (tables, current_table ++ [cells])
    else (tables, current_table)
  else
    match current_table with
    | _ :: _ => (flush_table tables current_table, [])
    | [] => (tables, current_table)
    end.

(** Lines 528-564. *)
Definition _extract_tabular_data (text : str) : list Table :=
  let lines := split LF text in
  let '(tables, current_table) := fold_left table_step lines ([], []) in
  match current_table with
  | _ :: _ => flush_table tables current_table
  | [] => tables
  end.

(** [np.array(xs).reshape(rows, cols).tolist()]: row-major, and a
    [ValueError] when the sizes disagree. *)
Fixpoint chunk (rows cols : nat) (xs : list binary64) : list (list binary64) :=
  match rows with
  | O => []
  | S rows' => firstn cols xs :: chunk rows' cols (skipn cols xs)
  end.

Definition reshape (xs : list binary64) (rows cols : nat)
  : result (list (list binary64)) :=
  if length xs =? rows * cols then Ok (chunk rows cols xs)
  else Raise (Exn ValueError (lit "cannot reshape array")).

(** Lines 566-591.  [int(n ** 0.5)] is the integer square root for every
    list length a machine can hold.  The handler also prints the
    exception (line 590); the guarded block never raises (lemma
    [heatmap_spec]), so that line is never reached. *)
Definition _generate_heatmap_data (text : str) : option Heatmap :=
  let body :=
    let numbers := findall no_flags number_re text in
    if length numbers <? 9 then Ok None
    else
      let size := Nat.min 5 (Nat.sqrt (length numbers)) in
      matrix_data <- map_result float (firstn (size * size) numbers) ;;
      matrix <- reshape matrix_data size size ;;
      Ok (Some {| hm_type := lit "heatmap";
                  hm_z := matrix;
                  hm_x := numbered (lit "Metric ") size;
                  hm_y := numbered (lit "Category ") size;
                  colorscale := lit "Viridis" |}) in
  match body with
  | Ok r => r
  | Raise _ => None
  end.

(* ================================================================== *)
(** ** Specification-level vocabulary *)
(* ================================================================== *)

(** The longest prefix of [s] within a class, and what follows it. *)
Fixpoint take_while (p : ascii -> bool) (s : str) : str :=
  match s with
  | c :: s' => if p c then c :: take_while p s' else []
  | [] => []
  end.

Fixpoint drop_while (p : ascii -> bool) (s : str) : str :=
  match s with
  | c :: s' => if p c then drop_while p s' else s
  | [] => []
  end.

(** [s] is at a paragraph break: at a blank line or at the end. *)
Definition at_break (s : str) : bool :=
  match s with
  | [] => true
  | c1 :: c2 :: _ => char_eqb c1 LF && char_eqb c2 LF
  | [_] => false
  end.

(** The text of [s] up to the next paragraph break. *)
Fixpoint until_break (s : str) : str :=
  match s with
  | [] => []
  | c :: s' => if at_break s then [] else c :: until_break s'
  end.

(** [s] starts with the literal [w], each character compared as the
    matcher compares a literal. *)
Fixpoint lit_prefix (fl : flags) (w s : str) : bool :=
  match w, s with
  | [], _ => true
  | x :: w', c :: s' => atom_ok fl (Chr x) c && lit_prefix fl w' s'
  | _ :: _, [] => false
  end.

(** [w] and [tok] are the same word up to letter case. *)
Definition same_word (w tok : str) : Prop := lower tok = lower w.

(** [s] starts with the word [w] in any letter case. *)
Fixpoint istartswith (w s : str) : bool :=
  match w, s with
  | [], _ => true
  | x :: w', c :: s' => char_eqb (lower_char c) (lower_char x) && istartswith w' s'
  | _ :: _, [] => false
  end.

Definition starts_with_sep (s : str) : bool :=
  match s with
  | c :: _ => colon_or_space c
  | [] => false
  end.

(** [s] starts with the first word of [ws] that is followed by [':'] or
    white space; the result is what follows the word. *)
Fixpoint heading_at (ws : list str) (s : str) : option str :=
  match ws with
  | [] => None
  | w :: ws' =>
      if istartswith w s && starts_with_sep (skipn (length w) s)
      then Some (skipn (length w) s)
      else heading_at ws' s
  end.

(** The leftmost heading of [s]. *)
Fixpoint find_heading (ws : list str) (s : str) : option str :=
  match heading_at ws s with
  | Some tail => Some tail
  | None =>
      match s with
      | _ :: s' => find_heading ws s'
      | [] => None
      end
  end.

(** The paragraph a heading introduces, given what follows the heading
    word: past the separators, up to the next paragraph break. *)
Definition paragraph_after (tail : str) : str :=
  until_break (drop_while colon_or_space tail).

Definition abstract_words : list str :=
  [lit "abstract"; lit "summary"; lit "executive summary"].

Definition conclusion_words : list str :=
  [lit "conclusion"; lit "summary"; lit "findings"].

(** The merged HTML as the specification words it: the concatenation of
    [<h2>title</h2>content_html] over the sections, in one container. *)
Definition render_sections (secs : list DashSection) : str :=
  lit "<section>"
  ++ concat (map (fun s => lit "<h2>" ++ sec_title s ++ lit "</h2>" ++ content_html s) secs)
  ++ lit "</section>".

(** Markup an embeddable fragment must not hold: a script element, a
    reference to an external resource, a styling class. *)
Definition disallowed_markup : list str :=
  [lit "<script"; lit "src="; lit "href="; lit "class="].

Definition free_of_disallowed_markup (s : str) : bool :=
  forallb (fun needle => negb (contains needle s)) disallowed_markup.

(** A line takes part in a table when it holds a ['|'] or a tab. *)
Definition qualifying (line : str) : bool :=
  contains_char "|"%char line || contains_char TAB line.

(** The maximal runs of consecutive qualifying lines; a non-qualifying
    line or the end of the text closes a run. *)
Fixpoint runs (lines : list str) : list (list str) :=
  match lines with
  | [] => [[]]
  | l :: ls =>
      if qualifying l then
        match runs ls with
        | r :: rs => (l :: r) :: rs
        | [] => [[l]]
        end
      else [] :: runs ls
  end.

(** The rows of a run: the cells of its lines with at least two cells. *)
Definition rows_of_run (run : list str) : list (list str) :=
  filter (fun cells => 2 <=? length cells) (map row_cells run).

(** A run yields a table when it has at least two rows: the first row is
    the header, the others the body. *)
Definition table_of_rows (rs : list (list str)) : list Table :=
  match rs with
  | h :: (_ :: _) as body => [ {| headers := h; rows := body |} ]
  | _ => []
  end.

Definition tables_of_runs (text : str) : list Table :=
  flat_map (fun run => table_of_rows (rows_of_run run)) (runs (split LF text)).

(** White space only. *)
Definition blank (s : str) : Prop := Forall (fun c => isspace c = true) s.

(** [cell] is [piece] trimmed: what is cut off at the two ends is white
    space, and what is left neither starts nor ends with white space. *)
Definition trimmed (piece cell : str) : Prop :=
  exists l r,
    piece = l ++ cell ++ r /\ blank l /\ blank r
    /\ (forall c rest, cell = c :: rest -> isspace c = false)
    /\ (forall front c, cell = front ++ [c] -> isspace c = false).

(** The delimiter of a line: ['|'] when the line holds one, else the tab. *)
Definition delimiter (line : str) (sep : ascii) : Prop :=
  (In "|"%char line /\ sep = "|"%char) \/ (~ In "|"%char line /\ sep = TAB).

(** [pieces] are the parts of [line] between the occurrences of [sep]:
    none holds [sep], and [sep] put back between them gives [line]. *)
Definition pieces_of (sep : ascii) (line : str) (pieces : list str) : Prop :=
  pieces <> [] /\ Forall (fun p => ~ In sep p) pieces /\ line = join [sep] pieces.

(** The cells of a line: its pieces between the delimiters, trimmed, the
    empty ones left out. *)
Definition cells_of (line : str) (cells : list str) : Prop :=
  exists sep pieces trims,
    delimiter line sep /\ pieces_of sep line pieces /\ Forall2 trimmed pieces trims
    /\ cells = filter (fun t => negb (length t =? 0)) trims.

(** The number of row-producing lines of a text. *)
Definition row_count (text : str) : nat :=
  length (filter (fun l => qualifying l && (2 <=? length (row_cells l))) (split LF text)).

(** The number a run of decimal digits denotes, by position. *)
Fixpoint whole (ds : str) : Z :=
  match ds with
  | [] => 0
  | d :: ds' => Z.of_nat (digit_val d) * 10 ^ Z.of_nat (length ds') + whole ds'
  end.

(** The number the digits after a decimal point denote: tenths,
    hundredths and so on. *)
Fixpoint fraction (ds : str) : Q :=
  match ds with
  | [] => 0
  | d :: ds' => (inject_Z (Z.of_nat (digit_val d)) + fraction ds') / 10
  end.

(** The number a numeric token denotes, read as a decimal numeral: the
    digits before the point and the digits after it. *)
Definition decimal (tok : str) : Q :=
  inject_Z (whole (take_while isdecimal tok)) + fraction (tl (drop_while isdecimal tok)).

(** [v] is the number stored for the token [tok]: the binary64 value
    nearest to the number the token denotes. *)
Definition float_of (tok : str) (v : binary64) : Prop := v = nearest (decimal tok).

(** The section a heading yields, given what follows the heading word. *)
Definition heading_section (id name tail : str) : DashSection :=
  {| sec_id := id;
     sec_title := name;
     content_html := lit "<p>" ++ firstn 500 (paragraph_after tail) ++ lit "</p>";
     chart := None |}.

(** The labels [Metric 1] .. [Metric n]. *)
Definition metric_labels (n : nat) : list str :=
  map (fun i => lit "Metric " ++ str_of_nat i) (seq 1 n).

(** The metrics section over the values [data]. *)
Definition metrics_section (data : list binary64) : DashSection :=
  {| sec_id := lit "metrics";
     sec_title := lit "Key Metrics";
     content_html := lit "<p>Numerical data extracted from the document.</p>";
     chart :=
       Some {| chart_type := lit "bar";
               chart_labels := metric_labels (length data);
               chart_datasets :=
                 [ {| ds_label := lit "Values";
                      ds_data := data;
                      ds_color := lit "#0ea5e9" |} ] |} |}.

(** The numeric tokens of a text, in order of appearance. *)
Definition numeric_tokens (text : str) : list str := findall no_flags number_re text.

(** The sections of the rule-based analyzer, in detection order. *)
Definition rule_sections (text : str) (data : list binary64) : list DashSection :=
  match find_heading abstract_words text with
  | Some tail => [heading_section (lit "abstract") (lit "Abstract") tail]
  | None => []
  end
  ++ (if 3 <=? length (numeric_tokens text) then [metrics_section data] else [])
  ++ match find_heading conclusion_words text with
     | Some tail => [heading_section (lit "conclusion") (lit "Conclusion") tail]
     | None => []
     end.

(** The dashboard of the rule-based analyzer over given sections. *)
Definition rule_dashboard (text : str) (secs : list DashSection) : Dashboard :=
  {| title := match split LF text with
              | l0 :: _ => slice_to 100 l0
              | [] => lit "Document Analysis"
              end;
     sections := secs;
     ui_theme :=
       {| primary_color := lit "#0ea5e9";
          accent_color := lit "#6366f1";
          layout := lit "single-column" |};
     export_html := assemble_export_html secs;
     share_ready := true |}.


(** No heading of [ws] starts before position [n] of [text]. *)
Definition no_heading_before (ws : list str) (n : nat) (text : str) : Prop :=
  forall i, i < n -> heading_at ws (skipn i text) = None.

(** A needle that starts with any character but ['>'] and goes on
    without ['<'] or ['>']. *)
Definition plain_needle (n : str) : bool :=
  match n with
  | c :: n' =>
      negb (char_eqb c ">"%char)
      && forallb (fun ch => negb (char_eqb ch "<"%char) && negb (char_eqb ch ">"%char)) n'
  | [] => false
  end.

(** The rule-based analyzer emits, on [text], a section [abstract] whose
    content holds [needle]. *)
Definition abstract_section_contains (text needle : str) : Prop :=
  exists d sec,
    _analyze_with_rules text = Ok d
    /\ In sec (sections d) /\ sec_id sec = lit "abstract"
    /\ contains needle (content_html sec) = true.

(** The merged HTML of the rule-based analyzer on [text] is the rendering
    of its sections and holds no disallowed markup. *)
Definition export_html_embeddable (text : str) : Prop :=
  exists d,
    _analyze_with_rules text = Ok d
    /\ export_html d = render_sections (sections d)
    /\ free_of_disallowed_markup (export_html d) = true.

(* ================================================================== *)
(** ** Sample inputs *)
(* ================================================================== *)

(** The configuration [config.py] gives when no environment variable is
    set. *)
Definition default_config : Config :=
  {| AI_PROVIDER := lit "groq";
     GROQ_API_KEY := [];
     GROQ_MODEL := lit "llama-3.3-70b-versatile";
     GEMINI_API_KEY := [] |}.

(** A world in which every external service fails with [e]; the console
    takes every line. *)
Definition failing_world (cfg : Config) (e : exn) : World :=
  {| config := cfg;
     print := fun _ => Ok tt;
     Groq := fun _ => Raise e;
     GenerativeModel := fun _ => Raise e;
     json_loads := fun _ => Raise e;
     read_text := fun _ => Raise e;
     pdf_pages := fun _ => Raise e;
     docx_paragraphs := fun _ => Raise e |}.

(** [w], with the file at every path holding [text]. *)
Definition with_file (w : World) (text : str) : World :=
  {| config := config w;
     print := print w;
     Groq := Groq w;
     GenerativeModel := GenerativeModel w;
     json_loads := json_loads w;
     read_text := fun _ => Ok text;
     pdf_pages := pdf_pages w;
     docx_paragraphs := docx_paragraphs w |}.

(** The strings the ASCII codec encodes. *)
Definition is_ascii (s : str) : bool := forallb (fun c => code c <? 128) s.

(** The lines the ASCII codec encodes.  The templates of lines 41, 46 and
    53 start with a character it lacks (U+2713, U+26A0); the other lines
    are ASCII text, some of them followed by the text of an exception. *)
Definition ascii_encodable (line : console_line) : bool :=
  match line with
  | GroqReady _ | GroqKeyMissing | GeminiReady => false
  | GroqKeyHint | FallingBack => true
  | GroqInitFailed e | GeminiInitFailed e | GroqApiError e | GeminiApiError e => is_ascii e
  end.

(** [w], with a standard output encoded in ASCII, as under
    [PYTHONIOENCODING=ascii]: printing a line the codec cannot encode
    raises a [UnicodeEncodeError], whose text [describe] gives. *)
Definition ascii_console (w : World) (describe : console_line -> str) : World :=
  {| config := config w;
     print := fun line =>
                if ascii_encodable line then Ok tt
                else Raise (Exn UnicodeEncodeError (describe line));
     Groq := Groq w;
     GenerativeModel := GenerativeModel w;
     json_loads := json_loads w;
     read_text := read_text w;
     pdf_pages := pdf_pages w;
     docx_paragraphs := docx_paragraphs w |}.

(** A failure of the back end whose text is not ASCII: it quotes a word
    with the letter U+00E9. *)
Definition bad_request : exn :=
  Exn APIError (lit "Error code: 400 - could not parse 'r" ++ [ascii_of_nat 233]
                ++ lit "sum" ++ [ascii_of_nat 233] ++ lit "'").

(** The analyzer the default configuration gives: no model, no client. *)
Definition bare_analyzer : DocumentAnalyzer :=
  {| ai_provider := lit "groq"; model := None; client := Unset |}.

(** Back ends whose generation call always fails with [e]. *)
Definition failing_client (e : exn) : GroqClient :=
  {| chat_completions_create := fun _ => Raise e |}.

Definition failing_model (e : exn) : GeminiModel :=
  {| generate_content := fun _ => Raise e |}.

(** A back end that answers with the user instructions it was sent. *)
Definition echo_client : GroqClient :=
  {| chat_completions_create :=
       fun req =>
         match req_content req with
         | GroqDashboardPrompt _ _ user_instructions _ => Ok user_instructions
         | _ => Ok []
         end |}.

Definition timeout : exn := Exn APIError (lit "Request timed out.").

(** A document of more than 100 characters with a heading and numbers. *)
Definition sample_report : str :=
  lit "Quarterly Report" ++ [LF]
  ++ lit "Abstract: The quick brown fox jumps. " ++ [LF; LF]
  ++ lit "Revenue grew from 1 to 2 and then 3 4 5 6 7 units across the regions we serve.".

(** An analyzer holding a Groq client, and one holding a Gemini model. *)
Definition groq_analyzer (c : GroqClient) : DocumentAnalyzer :=
  {| ai_provider := lit "groq"; model := Some ModelGroq; client := Bound c |}.

Definition gemini_analyzer (g : GeminiModel) : DocumentAnalyzer :=
  {| ai_provider := lit "gemini"; model := Some (ModelGemini g); client := Unset |}.

(** The sample paragraph of the specification and its sentence. *)
Definition fox_sample : str :=
  lit "Abstract: The quick brown fox jumps. " ++ [LF; LF].

Definition fox_sentence : str := lit "The quick brown fox jumps.".

(** A text that holds the sample after another heading. *)
Definition two_headings_text : str :=
  lit "Summary: see below." ++ [LF; LF] ++ fox_sample.

(** A document whose abstract carries a script element. *)
Definition script_text : str := lit "Abstract: <script>alert(1)</script>".

(* ================================================================== *)
(** ** The flow diagram *)
(* ================================================================== *)

(** The ["node"] and ["link"] parts of a flow diagram, and the diagram. *)
Record SankeyNode := { node_label : list str; node_color : list str }.

Record SankeyLink := { link_source : list Z; link_target : list Z; link_value : list Z }.

Record Sankey := { sk_type : str; sk_node : SankeyNode; sk_link : SankeyLink }.

Definition flow_keywords : list str :=
  [lit "from"; lit "to"; lit "flow"; lit "transfer"; lit "allocation"; lit "budget"].

(** Lines 593-620.  Nothing in the guarded block can raise. *)
Definition _generate_sankey_data (text : str) : option Sankey :=
  let has_flow := existsb (fun keyword => contains keyword (lower text)) flow_keywords in
  if negb has_flow then None
  else
    Some {| sk_type := lit "sankey";
            sk_node :=
              {| node_label := [lit "Source A"; lit "Source B"; lit "Target X"; lit "Target Y"];
                 node_color := [lit "#0ea5e9"; lit "#6366f1"; lit "#10b981"; lit "#f59e0b"] |};
            sk_link :=
              {| link_source := [0; 0; 1; 1]%Z;
                 link_target := [2; 3; 2; 3]%Z;
                 link_value := [8; 4; 2; 8]%Z |} |}.

(* ================================================================== *)
(** ** The web application: [app.py] *)
(* ================================================================== *)

(** [Config.ALLOWED_EXTENSIONS], a set. *)
Definition ALLOWED_EXTENSIONS : list str := [lit "txt"; lit "pdf"; lit "docx"; lit "doc"].

(** [s.rsplit(sep, 1)] for a one-character separator: split at the last
    separator, when there is one. *)
Definition rsplit1 (sep : ascii) (s : str) : list str :=
  if contains_char sep s then
    let not_sep := fun c => negb (char_eqb c sep) in
    [ rev (tl (drop_while not_sep (rev s))); rev (take_while not_sep (rev s)) ]
  else [s].

(** [app.py], lines 20-23. *)
Definition allowed_file (filename : str) : result bool :=
  if contains_char "."%char filename then
    match nth_error (rsplit1 "."%char filename) 1 with
    | Some ext => Ok (existsb (str_eqb (lower ext)) ALLOWED_EXTENSIONS)
    | None => Raise (Exn IndexError (lit "list index out of range"))
    end
  else Ok false.

(** [s.replace(old, new)]: the occurrences of [old] are replaced from the
    left, without overlap; [skip] counts the characters of the last
    occurrence still to pass. *)
Fixpoint replace_from (old new : str) (skip : nat) (s : str) : str :=
  match s with
  | [] => []
  | c :: s' =>
      match skip with
      | S skip' => replace_from old new skip' s'
      | O =>
          if startswith old s then new ++ replace_from old new (length old - 1) s'
          else c :: replace_from old new 0 s'
      end
  end.

Definition str_replace (old new s : str) : str :=
  match old with
  | [] => new ++ flat_map (fun c => c :: new) s
  | _ :: _ => replace_from old new 0 s
  end.

(** [app.py], lines 143-146: the chat widget goes before the closing body
    tag, or at the end.  [chat_widget_code] is the f-string of lines
    70-140. *)
Definition inject_chat_widget (chat_widget_code html_content : str) : str :=
  if contains (lit "</body>") html_content then
    str_replace (lit "</body>") (chat_widget_code ++ lit "</body>") html_content
  else html_content ++ chat_widget_code.

(** [text.split('\n\n')]. *)
Fixpoint split_blank (s : str) : list str :=
  match s with
  | [] => [[]]
  | c :: s' =>
      match s' with
      | c2 :: s'' =>
          if char_eqb c LF && char_eqb c2 LF then [] :: split_blank s''
          else match split_blank s' with
               | p :: ps => (c :: p) :: ps
               | [] => [[c]]
               end
      | [] => [[c]]
      end
  end.

(** [l[i:j]]. *)
Definition slice {A : Type} (i j : nat) (l : list A) : list A := firstn (j - i) (skipn i l).

(** What [export_pptx] puts on a slide: the title, the text of the second
    placeholder, the paragraphs added to it. *)
Record Slide := { slide_title : str; slide_text : str; slide_paragraphs : list str }.

(** [para[:200] + "..." if len(para) > 200 else para] *)
Definition bullet_text (para : str) : str :=
  if 200 <? length para then slice_to 200 para ++ lit "..." else para.

(** [app.py], lines 267-320: the slides made from the document text, in
    the order they are added. *)
Definition export_pptx_slides (text : str) : result (list Slide) :=
  doc_title <-
    (if truthy text then
       match split LF text with
       | l0 :: _ => Ok (slice_to 100 l0)
       | [] => Raise (Exn IndexError (lit "list index out of range"))
       end
     else Ok (lit "Research Dashboard")) ;;
  let paragraphs :=
    firstn 5 (map strip (filter (fun p => truthy (strip p)) (split_blank text))) in
  Ok [ {| slide_title := doc_title;
          slide_text := lit "Generated Dashboard Report";
          slide_paragraphs := [] |};
       {| slide_title := lit "Executive Summary";
          slide_text := lit "Key Highlights:";
          slide_paragraphs := map bullet_text (firstn 3 paragraphs) |};
       {| slide_title := lit "Key Findings";
          slide_text := lit "Main Insights:";
          slide_paragraphs := map bullet_text (slice 3 6 paragraphs) |} ].

(* ================================================================== *)
(** ** Vocabulary of the further properties *)
(* ================================================================== *)

(** [text] holds a heading of [ws]: one of the words, in any letter case,
    followed by [':'] or white space. *)
Definition has_heading (ws : list str) (text : str) : Prop :=
  exists pre tok c post w,
    text = pre ++ tok ++ c :: post
    /\ In w ws /\ same_word w tok /\ colon_or_space c = true.

(** [text] holds the word [w] in any letter case. *)
Definition holds_word (w text : str) : Prop :=
  exists pre tok post, text = pre ++ tok ++ post /\ same_word w tok.

(** A Markdown fence with the tag [tag] around [body]. *)
Definition fenced (tag body : str) : str :=
  lit "```" ++ tag ++ [LF] ++ body ++ [LF] ++ lit "```".

(** The last dot-separated component of a path, in lower case: the
    extension [extract_text] dispatches on. *)
Definition extension (file_path : str) : str :=
  hd [] (rev (split "."%char (lower file_path))).

(* ================================================================== *)
(** ** Strings *)
(* ================================================================== *)

Lemma char_eqb_eq (a b : ascii) : char_eqb a b = true <-> a = b.
Proof. unfold char_eqb. apply Ascii.eqb_eq. Qed.

Lemma char_eqb_refl (a : ascii) : char_eqb a a = true.
Proof. apply char_eqb_eq. reflexivity. Qed.

Lemma str_eqb_eq (a b : str) : str_eqb a b = true <-> a = b.
Proof.
  revert b. induction a as [|x a IH]; intros [|y b]; simpl; split;
    try discriminate; try reflexivity.
  - intros H. apply andb_true_iff in H as [H1 H2].
    apply char_eqb_eq in H1. apply IH in H2. congruence.
  - intros H. inversion H; subst. rewrite char_eqb_refl. simpl. now apply IH.
Qed.

Lemma lstrip_length (s : str) : length (lstrip s) <= length s.
Proof.
  induction s as [|c s IH]; simpl; [lia|].
  destruct (isspace c); simpl; lia.
Qed.

Lemma strip_length (s : str) : length (strip s) <= length s.
Proof.
  unfold strip, rstrip. rewrite length_rev.
  etransitivity; [apply lstrip_length|]. rewrite length_rev. apply lstrip_length.
Qed.

Lemma split_not_nil (sep : ascii) (s : str) : split sep s <> [].
Proof.
  induction s as [|c s IH]; simpl; [discriminate|].
  destruct (char_eqb c sep); [discriminate|].
  destruct (split sep s); discriminate.
Qed.

Lemma take_drop_while (p : ascii -> bool) (s : str) :
  take_while p s ++ drop_while p s = s.
Proof.
  induction s as [|c s IH]; simpl; [reflexivity|].
  destruct (p c); simpl; [now rewrite IH | reflexivity].
Qed.

Lemma take_while_all (p : ascii -> bool) (s : str) : forallb p (take_while p s) = true.
Proof.
  induction s as [|c s IH]; simpl; [reflexivity|].
  destruct (p c) eqn:E; simpl; [now rewrite E | reflexivity].
Qed.

Lemma drop_while_head (p : ascii -> bool) (s : str) :
  match drop_while p s with
  | c :: _ => p c = false
  | [] => True
  end.
Proof.
  induction s as [|c s IH]; simpl; [exact I|].
  destruct (p c) eqn:E; [exact IH | exact E].
Qed.

(** [until_break s] is a prefix of [s] that stops at a break and meets
    none before. *)
Lemma until_break_prefix (s : str) :
  exists rest, s = until_break s ++ rest /\ at_break rest = true.
Proof.
  induction s as [|c s IH].
  - exists []. split; reflexivity.
  - cbn [until_break]. destruct (at_break (c :: s)) eqn:E.
    + exists (c :: s). split; [reflexivity | exact E].
    + destruct IH as [rest [H1 H2]]. exists rest. split; [|exact H2].
      simpl. now rewrite <- H1.
Qed.

Lemma until_break_minimal (s : str) (n : nat) :
  n < length (until_break s) -> at_break (skipn n s) = false.
Proof.
  revert n. induction s as [|c s IH]; intros n.
  - simpl. lia.
  - cbn [until_break]. destruct (at_break (c :: s)) eqn:E.
    + simpl. lia.
    + destruct n as [|n]; [intros _; exact E|].
      cbn [length skipn]. intros H. apply IH. lia.
Qed.

Lemma contains_char_In (c : ascii) (s : str) : contains_char c s = true <-> In c s.
Proof.
  unfold contains_char. rewrite existsb_exists. split.
  - intros [x [Hin E]]. apply char_eqb_eq in E. now subst.
  - intros Hin. exists c. split; [assumption | apply char_eqb_refl].
Qed.

Lemma contains_char_false (c : ascii) (s : str) : contains_char c s = false <-> ~ In c s.
Proof.
  rewrite <- contains_char_In. destruct (contains_char c s); split; easy.
Qed.

(** The pieces around one separator. *)
Lemma split_app_sep (sep : ascii) (a b : str) :
  split sep (a ++ sep :: b) = split sep a ++ split sep b.
Proof.
  induction a as [|c a IH]; cbn [app split].
  - now rewrite char_eqb_refl.
  - destruct (char_eqb c sep); [now rewrite IH|].
    rewrite IH. destruct (split sep a) eqn:E; [now apply split_not_nil in E|].
    reflexivity.
Qed.

Lemma split_no_sep (sep : ascii) (s : str) :
  contains_char sep s = false -> split sep s = [s].
Proof.
  induction s as [|c s IH]; [reflexivity|].
  cbn [contains_char existsb split]. intros H. apply orb_false_iff in H.
  destruct H as [H1 H2]. unfold char_eqb in *. rewrite Ascii.eqb_sym, H1.
  fold (contains_char sep s) in H2. now rewrite (IH H2).
Qed.

Lemma lstrip_suffix (s : str) :
  exists ws, s = ws ++ lstrip s /\ forallb isspace ws = true.
Proof.
  induction s as [|c s [ws [E H]]]; [now exists []|].
  cbn [lstrip]. destruct (isspace c) eqn:Ec.
  - exists (c :: ws). cbn [app forallb]. rewrite Ec, H. now rewrite <- E.
  - now exists [].
Qed.

Lemma lstrip_head (s : str) :
  match lstrip s with
  | c :: _ => isspace c = false
  | [] => True
  end.
Proof.
  induction s as [|c s IH]; [exact I|].
  cbn [lstrip]. destruct (isspace c) eqn:Ec; [exact IH | exact Ec].
Qed.

Lemma rstrip_prefix (s : str) :
  exists ws, s = rstrip s ++ ws /\ forallb isspace ws = true.
Proof.
  destruct (lstrip_suffix (rev s)) as [ws [E H]].
  exists (rev ws). split.
  - unfold rstrip. rewrite <- rev_app_distr, <- E. now rewrite rev_involutive.
  - rewrite forallb_forall in *. intros x Hx. apply H. now apply in_rev.
Qed.

Lemma In_split (sep : ascii) (s piece : str) :
  In piece (split sep s) ->
  ~ In sep piece /\ forall c, In c piece -> In c s.
Proof.
  revert piece. induction s as [|c s IH]; intros piece; cbn [split].
  - intros [<- | []]. split; [easy | easy].
  - destruct (char_eqb c sep) eqn:Ec.
    + intros [<- | Hin]; [split; easy|].
      destruct (IH _ Hin) as [H1 H2]. split; [exact H1|].
      intros x Hx. right. now apply H2.
    + destruct (split sep s) as [|w ws] eqn:Es; [now apply split_not_nil in Es|].
      intros [<- | Hin].
      * destruct (IH w (or_introl eq_refl)) as [H1 H2]. split.
        -- intros [-> | Hs]; [now rewrite char_eqb_refl in Ec | now apply H1].
        -- intros x [<- | Hx]; [now left | right; now apply H2].
      * destruct (IH piece (or_intror Hin)) as [H1 H2]. split; [exact H1|].
        intros x Hx. right. now apply H2.
Qed.

(* ================================================================== *)
(** ** The matcher *)
(* ================================================================== *)

Section Matcher.

Variable fl : flags.

(** The defining equations of the matcher, for rewriting. *)
Lemma m_Cat {R : Type} (r1 r2 : regex) (st : cursor) (caps : captures)
      (k : cursor -> captures -> option R) :
  m fl (Cat r1 r2) st caps k = m fl r1 st caps (fun st' caps' => m fl r2 st' caps' k).
Proof. reflexivity. Qed.

Lemma m_Alt {R : Type} (r1 r2 : regex) (st : cursor) (caps : captures)
      (k : cursor -> captures -> option R) :
  m fl (Alt r1 r2) st caps k
  = match m fl r1 st caps k with
    | Some x => Some x
    | None => m fl r2 st caps k
    end.
Proof. reflexivity. Qed.

Lemma m_One {R : Type} (a : atom) (bef aft : str) (caps : captures)
      (k : cursor -> captures -> option R) :
  m fl (One a) (Cursor bef aft) caps k
  = match aft with
    | c :: s => if atom_ok fl a c then k (Cursor (c :: bef) s) caps else None
    | [] => None
    end.
Proof. reflexivity. Qed.

Lemma m_Star {R : Type} (greedy : bool) (a : atom) (bef aft : str) (caps : captures)
      (k : cursor -> captures -> option R) :
  m fl (Star greedy a) (Cursor bef aft) caps k
  = star_run fl greedy a bef aft (fun st' => k st' caps).
Proof. reflexivity. Qed.

Lemma m_Group {R : Type} (n : nat) (r : regex) (st : cursor) (caps : captures)
      (k : cursor -> captures -> option R) :
  m fl (Group n r) st caps k
  = m fl r st caps
      (fun st' caps' =>
         k st' ((n, firstn (position st' - position st) (after st)) :: caps')).
Proof. reflexivity. Qed.

Lemma m_WordBoundary {R : Type} (st : cursor) (caps : captures)
      (k : cursor -> captures -> option R) :
  m fl WordBoundary st caps k = if at_boundary st then k st caps else None.
Proof. reflexivity. Qed.

(** A repetition hands its continuation a cursor past a run of accepted
    characters. *)
Lemma star_run_inv {R : Type} (greedy : bool) (a : atom) (aft : str) :
  forall (bef : str) (k : cursor -> option R) (x : R),
    star_run fl greedy a bef aft k = Some x ->
    exists pre post,
      aft = pre ++ post /\ forallb (atom_ok fl a) pre = true
      /\ k (Cursor (rev_append pre bef) post) = Some x.
Proof.
  induction aft as [|c aft IH]; intros bef k x H; simpl in H.
  - exists [], []. repeat split; assumption.
  - destruct (atom_ok fl a c) eqn:Ec.
    + assert (Hrec : star_run fl greedy a (c :: bef) aft k = Some x ->
                     exists pre post,
                       c :: aft = pre ++ post /\ forallb (atom_ok fl a) pre = true
                       /\ k (Cursor (rev_append pre bef) post) = Some x).
      { intros Hr. destruct (IH _ _ _ Hr) as [pre [post [E1 [E2 E3]]]].
        exists (c :: pre), post. simpl. rewrite Ec, E2. subst aft.
        repeat split; assumption. }
      assert (Hhere : k (Cursor bef (c :: aft)) = Some x ->
                      exists pre post,
                        c :: aft = pre ++ post /\ forallb (atom_ok fl a) pre = true
                        /\ k (Cursor (rev_append pre bef) post) = Some x).
      { intros Hk. exists [], (c :: aft). repeat split; assumption. }
      destruct greedy.
      * destruct (star_run fl true a (c :: bef) aft k) eqn:Er.
        -- inversion H; subst. now apply Hrec.
        -- now apply Hhere.
      * destruct (k (Cursor bef (c :: aft))) eqn:Ek.
        -- inversion H; subst. now apply Hhere.
        -- now apply Hrec.
    + exists [], (c :: aft). repeat split; assumption.
Qed.

(** A greedy repetition over a class takes the whole run when the
    continuation accepts there. *)
Lemma greedy_run {R : Type} (p : ascii -> bool) (aft : str) :
  forall (bef : str) (k : cursor -> option R),
    k (Cursor (rev_append (take_while p aft) bef) (drop_while p aft)) <> None ->
    star_run fl true (Class p) bef aft k
    = k (Cursor (rev_append (take_while p aft) bef) (drop_while p aft)).
Proof.
  induction aft as [|c aft IH]; intros bef k Hk; simpl in *; [reflexivity|].
  destruct (p c) eqn:Ec; simpl in *; [|reflexivity].
  rewrite (IH _ _ Hk).
  destruct (k (Cursor (rev_append (take_while p aft) (c :: bef)) (drop_while p aft)));
    [reflexivity | contradiction].
Qed.

(** A lazy [.*?] under [DOTALL] stops at the first position the
    continuation accepts; here the continuation accepts exactly at
    paragraph breaks. *)
Lemma lazy_run {R : Type} (aft : str) :
  DOTALL fl = true ->
  forall (bef : str) (k : cursor -> option R),
    (forall b s, at_break s = false -> k (Cursor b s) = None) ->
    (forall b s, at_break s = true -> k (Cursor b s) <> None) ->
    star_run fl false Dot bef aft k
    = k (Cursor (rev_append (until_break aft) bef)
                (skipn (length (until_break aft)) aft)).
Proof.
  intros Hd. induction aft as [|c aft IH]; intros bef k Hno Hyes; [reflexivity|].
  cbn [star_run atom_ok]. rewrite Hd. cbn [orb].
  cbn [until_break]. destruct (at_break (c :: aft)) eqn:E.
  - cbn [length skipn rev_append].
    destruct (k (Cursor bef (c :: aft))) eqn:Ek; [reflexivity|].
    exfalso. now apply (Hyes bef (c :: aft) E).
  - rewrite (Hno _ _ E). cbn [length skipn rev_append]. now apply IH.
Qed.

(** A literal word consumes a prefix equal to it (up to letter case
    under [IGNORECASE]) or fails. *)
Lemma m_Lit {R : Type} (w : str) :
  forall (bef aft : str) (caps : captures) (k : cursor -> captures -> option R),
    m fl (Lit w) (Cursor bef aft) caps k
    = if lit_prefix fl w aft
      then k (Cursor (rev_append (firstn (length w) aft) bef) (skipn (length w) aft)) caps
      else None.
Proof.
  induction w as [|x w IH]; intros bef aft caps k; [reflexivity|].
  cbn [Lit m after before]. destruct aft as [|c aft]; [reflexivity|].
  cbn [lit_prefix]. destruct (atom_ok fl (Chr x) c); [|reflexivity].
  rewrite IH. reflexivity.
Qed.

End Matcher.

Lemma rev_append_length (a bef : str) :
  length (rev_append a bef) = length a + length bef.
Proof. rewrite rev_append_rev, length_app, length_rev. reflexivity. Qed.

Lemma rev_append_app (a b l : str) :
  rev_append (a ++ b) l = rev_append b (rev_append a l).
Proof. revert l. induction a as [|x a IH]; intros l; simpl; [reflexivity | apply IH]. Qed.

Lemma firstn_consumed (a b bef : str) :
  firstn (length (rev_append a bef) - length bef) (a ++ b) = a.
Proof.
  rewrite rev_append_length.
  replace (length a + length bef - length bef) with (length a + 0) by lia.
  rewrite firstn_app_2. simpl. apply app_nil_r.
Qed.

(* ================================================================== *)
(** ** The matcher on concrete inputs *)
(* ================================================================== *)

(** Runs of the model on inputs for which the results of CPython's [re]
    and [str] are known: back-tracking out of an optional dot and out of
    a greedy repetition, the leftmost match of an alternation, empty
    matches of [re.sub], the dollar before a final newline. *)

Example findall_number_tokens :
  findall no_flags number_re (lit "1. 2.5.3 a1 1e5 3.x 4.5x 7_8 12.")
  = [lit "1"; lit "2.5"; lit "3"; lit "3."; lit "4."; lit "12"].
Proof. reflexivity. Qed.

(** [float], as the interpreter rounds: inexact decimals, a tie that
    goes to the even significand, the largest finite value and the first
    numeral that gives [inf], a subnormal, an underflow to zero. *)
Example float_samples :
  float (lit "0.1") = Ok (S754_finite false 7205759403792794 (-56))
  /\ float (lit "0.30000000000000004") = Ok (S754_finite false 5404319552844596 (-54))
  /\ float (lit "12345678901234567890") = Ok (S754_finite false 6028163525993441 11)
  /\ float (lit "9007199254740993") = Ok (S754_finite false 4503599627370496 1)
  /\ float (lit "3.") = Ok (S754_finite false 6755399441055744 (-51))
  /\ float (lit "4.5") = Ok (S754_finite false 5066549580791808 (-50))
  /\ float (lit "007") = Ok (S754_finite false 7881299347898368 (-50))
  /\ float (lit "179769313486231580793728971405303415079934132710037826936173778980444968292764750946649017977587207096330286416692887910946555547851940402630657488671505820681908902000708383676273854845817711531764475730270069855571366959622842914819860834936475292719074168444365510704342711559699508093042880177904174497791")
     = Ok (S754_finite false 9007199254740991 971)
  /\ float (lit "179769313486231580793728971405303415079934132710037826936173778980444968292764750946649017977587207096330286416692887910946555547851940402630657488671505820681908902000708383676273854845817711531764475730270069855571366959622842914819860834936475292719074168444365510704342711559699508093042880177904174497792")
     = Ok (S754_infinity false)
  /\ float ("1"%char :: repeat "0"%char 400) = Ok (S754_infinity false)
  /\ float (lit "0." ++ repeat "0"%char 323 ++ lit "5") = Ok (S754_finite false 1 (-1074))
  /\ float (lit "0." ++ repeat "0"%char 400 ++ lit "1") = Ok (S754_zero false)
  /\ value (S754_finite false 7205759403792794 (-56))
     = Some (3602879701896397 # 36028797018963968)%Q
  /\ value (S754_finite false 6028163525993441 11) = Some (12345678901234567168 # 1)%Q.
Proof. repeat split; vm_compute; reflexivity. Qed.

Example search_executive_summary :
  option_map (fun mt => (m_start mt, m_end mt, group mt 1, group mt 2))
    (search heading_flags abstract_re
       (lit "EXECUTIVE SUMMARY:" ++ [LF; LF] ++ lit "First para" ++ [LF]
        ++ lit "line2" ++ [LF; LF] ++ lit "Second"))
  = Some (0, 36, Some (lit "EXECUTIVE SUMMARY"),
          Some (lit "First para" ++ [LF] ++ lit "line2")).
Proof. reflexivity. Qed.

Example search_inner_summary :
  option_map (fun mt => (m_start mt, m_end mt, group mt 1, group mt 2))
    (search heading_flags abstract_re (lit "In summary: : x" ++ [LF] ++ lit "y"))
  = Some (3, 17, Some (lit "summary"), Some (lit "x" ++ [LF] ++ lit "y")).
Proof. reflexivity. Qed.

Example search_heading_at_end :
  option_map (fun mt => (m_start mt, m_end mt, group mt 1, group mt 2))
    (search heading_flags abstract_re (lit "a summary" ++ [LF; LF]))
  = Some (2, 11, Some (lit "summary"), Some [])
  /\ search heading_flags abstract_re (lit "Summary") = None.
Proof. split; reflexivity. Qed.

Example sub_empty_matches :
  sub no_flags (Star true (Chr "x"%char)) (lit "-") (lit "abxd") = lit "-a-b--d-"
  /\ sub no_flags (Star false (Chr "x"%char)) (lit "-") (lit "abxd") = lit "-a-b---d-".
Proof. split; reflexivity. Qed.

Example strip_fences_html :
  strip_fences (lit "html")
    (strip (lit "```html" ++ [LF] ++ lit "<!DOCTYPE html>" ++ [LF] ++ lit "<p>x</p>"
            ++ [LF] ++ lit "```" ++ [LF]))
  = lit "<!DOCTYPE html>" ++ [LF] ++ lit "<p>x</p>"
  /\ strip_fences (lit "json") (strip (lit "{} ```json ")) = lit "{} ```json".
Proof. split; reflexivity. Qed.

Example strip_and_lower :
  strip ([ascii_of_nat 32; ascii_of_nat 28] ++ lit " a" ++ [ascii_of_nat 160]) = lit "a"
  /\ rev (split "."%char (lower (lit "a.b.PdF"))) = [lit "pdf"; lit "b"; lit "a"]
  /\ row_cells (lit " a |" ++ [TAB] ++ lit "b| |c") = [lit "a"; lit "b"; lit "c"].
Proof. repeat split; reflexivity. Qed.

(* ================================================================== *)
(** ** The heading patterns *)
(* ================================================================== *)

Lemma lower_char_LF (c : ascii) : char_eqb (lower_char c) LF = char_eqb c LF.
Proof.
  destruct c as [b0 b1 b2 b3 b4 b5 b6 b7].
  destruct b0, b1, b2, b3, b4, b5, b6, b7; reflexivity.
Qed.

Lemma lit_prefix_heading (w s : str) : lit_prefix heading_flags w s = istartswith w s.
Proof.
  revert s. induction w as [|x w IH]; intros [|c s]; simpl; try reflexivity.
  now rewrite IH.
Qed.

Lemma lit_prefix_break (s : str) :
  lit_prefix heading_flags [LF; LF] s || match s with [] => true | _ :: _ => false end
  = at_break s.
Proof.
  destruct s as [|c1 [|c2 s]]; cbn [lit_prefix atom_ok heading_flags IGNORECASE at_break].
  - reflexivity.
  - change (lower_char LF) with LF. rewrite lower_char_LF.
    now rewrite andb_false_r.
  - change (lower_char LF) with LF. rewrite !lower_char_LF.
    now rewrite andb_true_r, orb_false_r.
Qed.

(** The look-ahead [(?=\n\n|\Z)] lets the match go on exactly at a
    paragraph break. *)
Lemma lookahead_break {R : Type} (b s : str) (caps : captures)
      (k : cursor -> captures -> option R) :
  m heading_flags (Lookahead (Alt (Lit [LF; LF]) Eos)) (Cursor b s) caps k
  = if at_break s then k (Cursor b s) caps else None.
Proof.
  cbn [m]. rewrite m_Lit. rewrite <- lit_prefix_break.
  destruct (lit_prefix heading_flags [LF; LF] s); cbn [orb after]; [reflexivity|].
  destruct s; reflexivity.
Qed.

(** After the heading word: the separators are passed, group 2 takes the
    paragraph, and the match succeeds; without a separator it fails. *)
Lemma heading_body_run {R : Type} (b s : str) (caps : captures)
      (k : cursor -> captures -> option R) :
  (forall st c, k st c <> None) ->
  (starts_with_sep s = true ->
   exists st', m heading_flags heading_body (Cursor b s) caps k
               = k st' ((2, paragraph_after s) :: caps))
  /\ (starts_with_sep s = false ->
      m heading_flags heading_body (Cursor b s) caps k = None).
Proof.
  intros Hk. unfold heading_body, Plus.
  rewrite !m_Cat, m_One.
  destruct s as [|ch s]; cbn [starts_with_sep].
  - split; [discriminate | reflexivity].
  - cbn [atom_ok]. destruct (colon_or_space ch) eqn:Ech;
      (split; [|try discriminate; reflexivity]); try discriminate.
    intros _. rewrite m_Star.
    set (k2 := fun st' : cursor =>
                 m heading_flags
                   (Cat (Group 2 (Star false Dot)) (Lookahead (Alt (Lit [LF; LF]) Eos)))
                   st' caps k).
    assert (Hk2 : forall b' s',
               k2 (Cursor b' s')
               = k (Cursor (rev_append (until_break s') b')
                           (skipn (length (until_break s')) s'))
                   ((2, until_break s') :: caps)).
    { intros b' s'. unfold k2. rewrite m_Cat, m_Group, m_Star.
      rewrite lazy_run; [| reflexivity | |].
      - rewrite lookahead_break.
        destruct (until_break_prefix s') as [rest [E1 E2]].
        assert (Es : skipn (length (until_break s')) s' = rest).
        { rewrite E1 at 2. rewrite skipn_app, Nat.sub_diag, skipn_all. reflexivity. }
        rewrite Es, E2. unfold position. cbn [before after].
        rewrite E1 at 3. rewrite firstn_consumed. reflexivity.
      - intros b0 s0 E0. rewrite lookahead_break, E0. reflexivity.
      - intros b0 s0 E0. rewrite lookahead_break, E0. apply Hk. }
    rewrite (greedy_run heading_flags colon_or_space s (ch :: b) k2).
    + rewrite Hk2. unfold paragraph_after. cbn [drop_while]. rewrite Ech.
      eexists. reflexivity.
    + rewrite Hk2. apply Hk.
Qed.

(** One attempt of a heading pattern at a position, against
    [heading_at]. *)
Lemma heading_match_at (w1 w2 w3 bef aft : str) :
  match heading_at [w1; w2; w3] aft with
  | Some tail =>
      exists mt,
        match_at false heading_flags (heading_re w1 w2 w3) (Cursor bef aft) = Some mt
        /\ group mt 2 = Some (paragraph_after tail)
  | None =>
      match_at false heading_flags (heading_re w1 w2 w3) (Cursor bef aft) = None
  end.
Proof.
  unfold match_at, heading_re.
  set (kf := fun (st' : cursor) (caps : captures) =>
               if false && (position st' =? position (Cursor bef aft)) then None
               else Some {| m_start := position (Cursor bef aft);
                            m_end := position st';
                            group0 := firstn (position st' - position (Cursor bef aft))
                                        (after (Cursor bef aft));
                            groups := caps |}).
  assert (Hkf : forall st c, kf st c <> None) by (intros st c; unfold kf; discriminate).
  rewrite m_Cat, m_Group, !m_Alt, !m_Lit, !lit_prefix_heading.
  cbn [heading_at].
  assert (Hword : forall (w : str) (caps : captures),
             let r := m heading_flags heading_body
                        (Cursor (rev_append (firstn (length w) aft) bef)
                                (skipn (length w) aft)) caps kf in
             if starts_with_sep (skipn (length w) aft)
             then exists mt, r = Some mt
                             /\ group mt 2 = Some (paragraph_after (skipn (length w) aft))
             else r = None).
  { intros w caps r. subst r.
    destruct (@heading_body_run _ (rev_append (firstn (length w) aft) bef)
                (skipn (length w) aft) caps kf Hkf) as [Hyes Hno].
    destruct (starts_with_sep (skipn (length w) aft)).
    - destruct (Hyes eq_refl) as [st' E]. rewrite E. unfold kf. cbn [andb].
      eexists. split; [reflexivity|]. reflexivity.
    - now apply Hno. }
  match goal with
  | |- context [m heading_flags heading_body
                  (Cursor (rev_append (firstn (length w1) aft) bef) _) ?c kf] =>
      pose proof (Hword w1 c) as H1
  end.
  match goal with
  | |- context [m heading_flags heading_body
                  (Cursor (rev_append (firstn (length w2) aft) bef) _) ?c kf] =>
      pose proof (Hword w2 c) as H2
  end.
  match goal with
  | |- context [m heading_flags heading_body
                  (Cursor (rev_append (firstn (length w3) aft) bef) _) ?c kf] =>
      pose proof (Hword w3 c) as H3
  end.
  clear Hword.
  cbv zeta in H1, H2, H3.
  destruct (istartswith w1 aft); cbn [andb].
  - destruct (starts_with_sep (skipn (length w1) aft)).
    + destruct H1 as [mt [E G]]. rewrite E. now exists mt.
    + rewrite H1. clear H1.
      destruct (istartswith w2 aft); cbn [andb].
      * destruct (starts_with_sep (skipn (length w2) aft)).
        -- destruct H2 as [mt [E G]]. rewrite E. now exists mt.
        -- rewrite H2. clear H2.
           destruct (istartswith w3 aft); cbn [andb]; [|reflexivity].
           destruct (starts_with_sep (skipn (length w3) aft)).
           ++ destruct H3 as [mt [E G]]. rewrite E. now exists mt.
           ++ exact H3.
      * destruct (istartswith w3 aft); cbn [andb]; [|reflexivity].
        destruct (starts_with_sep (skipn (length w3) aft)).
        -- destruct H3 as [mt [E G]]. rewrite E. now exists mt.
        -- exact H3.
  - destruct (istartswith w2 aft); cbn [andb].
    + destruct (starts_with_sep (skipn (length w2) aft)).
      * destruct H2 as [mt [E G]]. rewrite E. now exists mt.
      * rewrite H2. clear H2.
        destruct (istartswith w3 aft); cbn [andb]; [|reflexivity].
        destruct (starts_with_sep (skipn (length w3) aft)).
        -- destruct H3 as [mt [E G]]. rewrite E. now exists mt.
        -- exact H3.
    + destruct (istartswith w3 aft); cbn [andb]; [|reflexivity].
      destruct (starts_with_sep (skipn (length w3) aft)).
      * destruct H3 as [mt [E G]]. rewrite E. now exists mt.
      * exact H3.
Qed.

(** [re.search] with a heading pattern, against [find_heading]. *)
Lemma heading_search (w1 w2 w3 : str) (aft : str) :
  forall bef,
    match find_heading [w1; w2; w3] aft with
    | Some tail =>
        exists mt,
          search_from heading_flags (heading_re w1 w2 w3) bef aft = Some mt
          /\ group mt 2 = Some (paragraph_after tail)
    | None => search_from heading_flags (heading_re w1 w2 w3) bef aft = None
    end.
Proof.
  induction aft as [|c aft IH]; intros bef.
  - cbn [find_heading search_from].
    pose proof (heading_match_at w1 w2 w3 bef []) as H.
    destruct (heading_at [w1; w2; w3] []).
    + destruct H as [mt [E G]]. rewrite E. now exists mt.
    + rewrite H. reflexivity.
  - cbn [find_heading search_from].
    pose proof (heading_match_at w1 w2 w3 bef (c :: aft)) as H.
    destruct (heading_at [w1; w2; w3] (c :: aft)).
    + destruct H as [mt [E G]]. rewrite E. now exists mt.
    + rewrite H. apply IH.
Qed.

(** [istartswith] against an explicit decomposition. *)
Lemma istartswith_app (w tok rest : str) :
  same_word w tok ->
  istartswith w (tok ++ rest) = true /\ skipn (length w) (tok ++ rest) = rest.
Proof.
  unfold same_word, lower. revert tok.
  induction w as [|x w IH]; intros [|c tok] H; simpl in H; try discriminate.
  - split; reflexivity.
  - inversion H as [[H1 H2]]. destruct (IH tok H2) as [E1 E2].
    simpl. rewrite H1, char_eqb_refl, E1. split; [reflexivity | exact E2].
Qed.

Lemma istartswith_split (w s : str) :
  istartswith w s = true ->
  exists tok, s = tok ++ skipn (length w) s /\ same_word w tok.
Proof.
  unfold same_word, lower. revert s.
  induction w as [|x w IH]; intros s H.
  - exists []. split; reflexivity.
  - destruct s as [|c s]; simpl in H; [discriminate|].
    apply andb_true_iff in H as [H1 H2]. apply char_eqb_eq in H1.
    destruct (IH s H2) as [tok [E1 E2]].
    exists (c :: tok). simpl. split; [now rewrite <- E1 | now rewrite H1, E2].
Qed.

Lemma heading_at_some (ws : list str) (s tail : str) :
  heading_at ws s = Some tail ->
  exists w tok, In w ws /\ same_word w tok /\ s = tok ++ tail
                /\ starts_with_sep tail = true.
Proof.
  induction ws as [|w ws IH]; simpl; [discriminate|].
  destruct (istartswith w s) eqn:E1; simpl.
  - destruct (starts_with_sep (skipn (length w) s)) eqn:E2.
    + intros H. inversion H; subst.
      destruct (istartswith_split _ _ E1) as [tok [Es Ew]].
      exists w, tok. repeat split; auto.
    + intros H. destruct (IH H) as [w' [tok [Hin Hrest]]].
      exists w', tok. split; [now right | exact Hrest].
  - intros H. destruct (IH H) as [w' [tok [Hin Hrest]]].
    exists w', tok. split; [now right | exact Hrest].
Qed.

Lemma heading_at_complete (ws : list str) (w tok tail : str) :
  In w ws -> same_word w tok -> starts_with_sep tail = true ->
  heading_at ws (tok ++ tail) <> None.
Proof.
  intros Hin Hw Hs. induction ws as [|w0 ws IH]; [contradiction|].
  simpl. destruct (istartswith w0 (tok ++ tail)
                   && starts_with_sep (skipn (length w0) (tok ++ tail))) eqn:E;
    [discriminate|].
  destruct Hin as [-> | Hin]; [|now apply IH].
  destruct (istartswith_app tail Hw) as [E1 E2]. rewrite E1, E2, Hs in E. discriminate.
Qed.

(** The heading [find_heading] returns is the leftmost one. *)
Lemma find_heading_leftmost (ws : list str) (pre s : str) :
  heading_at ws s <> None ->
  exists tail' pre' s',
    find_heading ws (pre ++ s) = Some tail'
    /\ pre ++ s = pre' ++ s' /\ heading_at ws s' = Some tail'
    /\ length pre' <= length pre.
Proof.
  intros Hs. induction pre as [|c pre IH].
  - destruct (heading_at ws s) as [tail|] eqn:E; [|contradiction].
    exists tail, [], s. simpl. destruct s; simpl; rewrite E; repeat split; auto.
  - cbn [app find_heading].
    destruct (heading_at ws (c :: pre ++ s)) as [tail|] eqn:E.
    + exists tail, [], (c :: pre ++ s). repeat split; auto. simpl. lia.
    + destruct IH as [tail' [pre' [s' [H1 [H2 [H3 H4]]]]]].
      exists tail', (c :: pre'), s'. split; [|split; [|split]].
      * exact H1.
      * simpl. now rewrite H2.
      * exact H3.
      * simpl. lia.
Qed.

(* ================================================================== *)
(** ** The number pattern *)
(* ================================================================== *)

Lemma isdecimal_not_dot (c : ascii) : isdecimal c = true -> char_eqb c "."%char = false.
Proof.
  intros H. destruct (char_eqb c ".") eqn:E; [|reflexivity].
  apply char_eqb_eq in E. subst c. discriminate H.
Qed.

Lemma cut_at_dot_digits (ds rest : str) :
  forallb isdecimal ds = true ->
  cut_at_dot (ds ++ rest) = (ds ++ fst (cut_at_dot rest), snd (cut_at_dot rest)).
Proof.
  induction ds as [|c ds IH]; simpl; intros H.
  - now destruct (cut_at_dot rest).
  - apply andb_true_iff in H as [H1 H2].
    rewrite (isdecimal_not_dot _ H1), (IH H2). reflexivity.
Qed.

(** The value [float] rounds: digits and positions. *)
Lemma digits_fold_whole (ds : str) :
  forall acc : N,
    Z.of_N (fold_left (fun acc c => (10 * acc + N.of_nat (digit_val c))%N) ds acc)
    = (Z.of_N acc * 10 ^ Z.of_nat (length ds) + whole ds)%Z.
Proof.
  induction ds as [|d ds IH]; intros acc; cbn [fold_left length whole].
  - change (10 ^ Z.of_nat 0)%Z with 1%Z. lia.
  - rewrite IH, N2Z.inj_add, N2Z.inj_mul, nat_N_Z, Nat2Z.inj_succ, Z.pow_succ_r by lia.
    change (Z.of_N 10) with 10%Z. ring.
Qed.

Lemma digits_val_whole (ds : str) : Z.of_N (digits_val ds) = whole ds.
Proof. unfold digits_val. rewrite digits_fold_whole. change (Z.of_N 0) with 0%Z. lia. Qed.

Lemma whole_app (a b : str) :
  whole (a ++ b) = (whole a * 10 ^ Z.of_nat (length b) + whole b)%Z.
Proof.
  induction a as [|d a IH]; cbn [app whole length]; [lia|].
  rewrite IH, length_app, Nat2Z.inj_add, Z.pow_add_r by lia. ring.
Qed.

Lemma pow10_pos (n : nat) : (0 < 10 ^ Z.of_nat n)%Z.
Proof. apply Z.pow_pos_nonneg; lia. Qed.

Lemma fraction_whole (fp : str) :
  (inject_Z (whole fp) / inject_Z (10 ^ Z.of_nat (length fp)) == fraction fp)%Q.
Proof.
  induction fp as [|d fp IH]; cbn [whole length fraction].
  - reflexivity.
  - rewrite <- IH, Nat2Z.inj_succ, Z.pow_succ_r by lia.
    rewrite !inject_Z_plus, !inject_Z_mult.
    assert (H : ~ (inject_Z (10 ^ Z.of_nat (length fp)) == 0)%Q).
    { pose proof (pow10_pos (length fp)) as Hp. unfold Qeq. simpl. lia. }
    field. exact H.
Qed.

Lemma nearest_Qeq (q q' : Q) : (q == q')%Q -> nearest q = nearest q'.
Proof. intros H. unfold nearest. now rewrite (Qred_complete _ _ H). Qed.

Lemma digits_decimal (ip fp : str) :
  (Z.of_N (digits_val (ip ++ fp)) # Z.to_pos (10 ^ Z.of_nat (length fp))
   == inject_Z (whole ip) + fraction fp)%Q.
Proof.
  pose proof (pow10_pos (length fp)) as Hp.
  rewrite Qmake_Qdiv, Z2Pos.id by exact Hp.
  rewrite digits_val_whole, whole_app, inject_Z_plus, inject_Z_mult, <- fraction_whole.
  assert (H : ~ (inject_Z (10 ^ Z.of_nat (length fp)) == 0)%Q).
  { unfold Qeq. simpl. lia. }
  field. exact H.
Qed.

Lemma digits_then (ds rest : str) :
  forallb isdecimal ds = true ->
  match rest with c :: _ => isdecimal c = false | [] => True end ->
  take_while isdecimal (ds ++ rest) = ds /\ drop_while isdecimal (ds ++ rest) = rest.
Proof.
  intros Hds Hr. induction ds as [|d ds IH]; cbn [app take_while drop_while].
  - destruct rest as [|c rest]; [now split|]. cbn [take_while drop_while]. now rewrite Hr.
  - cbn [forallb] in Hds. apply andb_true_iff in Hds as [H1 H2]. rewrite H1.
    destruct (IH H2) as [E1 E2]. now rewrite E1, E2.
Qed.

(** [float] accepts [d+] and [d+.d*], and gives the binary64 nearest to
    the number the numeral denotes. *)
Lemma float_numeral (c : ascii) (ds : str) (tail : str) :
  isdecimal c = true -> forallb isdecimal ds = true ->
  (tail = [] \/ exists fs, tail = "."%char :: fs /\ forallb isdecimal fs = true) ->
  float (c :: ds ++ tail) = Ok (nearest (decimal (c :: ds ++ tail))).
Proof.
  intros Hc Hds Htail. unfold float.
  change (c :: ds ++ tail) with ((c :: ds) ++ tail).
  assert (Hcd : forallb isdecimal (c :: ds) = true) by (cbn [forallb]; now rewrite Hc, Hds).
  rewrite cut_at_dot_digits by exact Hcd.
  unfold decimal.
  destruct Htail as [-> | [fs [-> Hfs]]].
  - destruct (digits_then (c :: ds) [] Hcd I) as [E1 E2]. rewrite E1, E2.
    cbn [cut_at_dot fst snd tl]. rewrite app_nil_r. cbn [app].
    rewrite Hcd. cbn [forallb andb]. f_equal. apply nearest_Qeq.
    exact (digits_decimal (c :: ds) []).
  - destruct (digits_then (c :: ds) ("."%char :: fs) Hcd eq_refl) as [E1 E2].
    rewrite E1, E2. cbn [cut_at_dot]. rewrite char_eqb_refl. cbn [fst snd tl].
    rewrite app_nil_r. cbn [app]. rewrite Hcd, Hfs. cbn [andb]. f_equal.
    apply nearest_Qeq. exact (digits_decimal (c :: ds) fs).
Qed.

(** What an attempt of the number pattern matches is a numeral. *)
Lemma number_match_at (ma : bool) (bef aft : str) (mt : Match) :
  match_at ma no_flags number_re (Cursor bef aft) = Some mt ->
  float (group0 mt) = Ok (nearest (decimal (group0 mt))).
Proof.
  unfold match_at, number_re, Plus, Opt.
  set (kf := fun (st' : cursor) (caps : captures) =>
               if ma && (position st' =? position (Cursor bef aft)) then None
               else Some {| m_start := position (Cursor bef aft);
                            m_end := position st';
                            group0 := firstn (position st' - position (Cursor bef aft))
                                        (after (Cursor bef aft));
                            groups := caps |}).
  rewrite m_Cat, m_WordBoundary.
  destruct (at_boundary (Cursor bef aft)); [|discriminate].
  rewrite !m_Cat, m_One.
  destruct aft as [|c aft]; [discriminate|].
  cbn [atom_ok]. destruct (isdecimal c) eqn:Hc; [|discriminate].
  rewrite m_Star. intros H.
  apply star_run_inv in H as [pre1 [post1 [E1 [D1 H]]]].
  change (forallb isdecimal pre1 = true) in D1.
  rewrite m_Cat, m_Alt, m_One in H.
  (* the digits after the optional dot, then the closing boundary *)
  assert (Hfin : forall (dot post : str) (caps : captures),
             post1 = dot ++ post ->
             m no_flags (Cat (Star true (Class isdecimal)) WordBoundary)
               (Cursor (rev_append dot (rev_append pre1 (c :: bef))) post) caps kf
             = Some mt ->
             exists pre2, forallb isdecimal pre2 = true
                          /\ group0 mt = c :: pre1 ++ dot ++ pre2).
  { intros dot post caps Epost Hm. rewrite m_Cat, m_Star in Hm.
    apply star_run_inv in Hm as [pre2 [post2 [E2 [D2 Hm]]]].
    change (forallb isdecimal pre2 = true) in D2. rewrite m_WordBoundary in Hm.
    destruct (at_boundary _); [|discriminate].
    unfold kf in Hm. destruct (ma && _); [discriminate|].
    inversion Hm; subst mt. cbn [group0 after]. exists pre2. split; [exact D2|].
    subst aft post1 post. unfold position. cbn [before].
    replace (rev_append pre2 (rev_append dot (rev_append pre1 (c :: bef))))
      with (rev_append (c :: pre1 ++ dot ++ pre2) bef)
      by (cbn [rev_append]; now rewrite !rev_append_app).
    replace (c :: pre1 ++ dot ++ pre2 ++ post2)
      with ((c :: pre1 ++ dot ++ pre2) ++ post2)
      by (simpl; now rewrite <- !app_assoc).
    apply firstn_consumed. }
  assert (Hplain : forall (caps : captures),
             m no_flags (Cat (Star true (Class isdecimal)) WordBoundary)
               (Cursor (rev_append pre1 (c :: bef)) post1) caps kf = Some mt ->
             float (group0 mt) = Ok (nearest (decimal (group0 mt)))).
  { intros caps Hm. destruct (Hfin [] post1 caps eq_refl Hm) as [pre2 [D2 G]].
    rewrite G. cbn [app].
    replace (pre1 ++ pre2) with ((pre1 ++ pre2) ++ []) by apply app_nil_r.
    apply float_numeral; auto. rewrite forallb_app. now rewrite D1, D2. }
  destruct post1 as [|d post1'].
  - now apply (Hplain []).
  - cbn [atom_ok no_flags IGNORECASE] in H.
    destruct (char_eqb d ".") eqn:Ed; [|now apply (Hplain [])].
    apply char_eqb_eq in Ed. subst d.
    match type of H with
    | match ?X with _ => _ end = _ => destruct X eqn:Hdot
    end; [|now apply (Hplain [])].
    inversion H; subst.
    destruct (Hfin ["."%char] post1' [] eq_refl Hdot) as [pre2 [D2 G]].
    rewrite G. apply float_numeral; auto.
    right. exists pre2. split; [reflexivity | exact D2].
Qed.

Lemma In_firstn {A : Type} (n : nat) (l : list A) (x : A) :
  In x (firstn n l) -> In x l.
Proof.
  revert l. induction n as [|n IH]; intros [|y l]; simpl; try contradiction.
  intros [-> | H]; [now left | right; now apply IH].
Qed.

(** Every match [re.finditer] yields comes from one attempt of the
    pattern. *)
Lemma scan_inv (fl : flags) (r : regex) (aft : str) :
  forall (skip : nat) (bef : str) (mt : Match),
    In mt (scan fl r skip bef aft) ->
    exists ma bef' aft', match_at ma fl r (Cursor bef' aft') = Some mt.
Proof.
  induction aft as [|c aft IH]; intros skip bef mt H.
  - destruct skip as [|skip]; cbn [scan] in H; [|contradiction].
    destruct (match_at false fl r (Cursor bef [])) as [mt0|] eqn:E0; [|contradiction].
    destruct (m_end mt0 =? m_start mt0).
    + destruct H as [<- | H]; [now exists false, bef, []|].
      destruct (match_at true fl r (Cursor bef [])) as [mt1|] eqn:E1; [|contradiction].
      destruct H as [<- | H]; [now exists true, bef, [] | contradiction].
    + destruct H as [<- | H]; [now exists false, bef, [] | contradiction].
  - destruct skip as [|skip]; cbn [scan] in H; [|now apply IH in H].
    destruct (match_at false fl r (Cursor bef (c :: aft))) as [mt0|] eqn:E0;
      [|now apply IH in H].
    destruct (m_end mt0 =? m_start mt0).
    + destruct H as [<- | H]; [now exists false, bef, (c :: aft)|].
      destruct (match_at true fl r (Cursor bef (c :: aft))) as [mt1|] eqn:E1;
        [|now apply IH in H].
      destruct H as [<- | H]; [now exists true, bef, (c :: aft) | now apply IH in H].
    + destruct H as [<- | H]; [now exists false, bef, (c :: aft) | now apply IH in H].
Qed.

(** Every numeric token is a numeral [float] accepts; the result is the
    binary64 nearest to the number the token denotes. *)
Lemma numeric_tokens_float (text tok : str) :
  In tok (numeric_tokens text) -> float tok = Ok (nearest (decimal tok)).
Proof.
  unfold numeric_tokens, findall, finditer. intros H.
  apply in_map_iff in H as [mt [<- H]].
  apply scan_inv in H as [ma [bef [aft H]]].
  now apply number_match_at in H.
Qed.

Lemma map_result_total {A B : Type} (f : A -> result B) (xs : list A) :
  (forall x, In x xs -> exists y, f x = Ok y) ->
  exists ys, map_result f xs = Ok ys /\ Forall2 (fun x y => f x = Ok y) xs ys.
Proof.
  induction xs as [|x xs IH]; intros H.
  - exists []. split; [reflexivity | constructor].
  - destruct (H x (or_introl eq_refl)) as [y Hy].
    destruct IH as [ys [E F]]; [intros z Hz; apply H; now right|].
    exists (y :: ys). simpl. rewrite Hy. simpl. rewrite E. simpl.
    split; [reflexivity | now constructor].
Qed.

Lemma map_result_map {A B : Type} (f : A -> result B) (g : A -> B) (xs : list A) :
  (forall x, In x xs -> f x = Ok (g x)) -> map_result f xs = Ok (map g xs).
Proof.
  induction xs as [|x xs IH]; intros H; [reflexivity|].
  cbn [map_result map]. rewrite (H x (or_introl eq_refl)). cbn [bind].
  rewrite IH by (intros z Hz; apply H; now right). reflexivity.
Qed.

(** The values of the first [n] numeric tokens. *)
Lemma numeric_values (text : str) (n : nat) :
  exists data,
    map_result float (firstn n (numeric_tokens text)) = Ok data
    /\ Forall2 float_of (firstn n (numeric_tokens text)) data.
Proof.
  exists (map (fun tok => nearest (decimal tok)) (firstn n (numeric_tokens text))).
  split.
  - apply map_result_map. intros tok H.
    apply (numeric_tokens_float text). eapply In_firstn. exact H.
  - induction (firstn n (numeric_tokens text)) as [|tok toks IH]; constructor;
      [reflexivity | exact IH].
Qed.

Lemma numbered_metric_labels (n : nat) : numbered (lit "Metric ") n = metric_labels n.
Proof.
  unfold numbered, metric_labels. rewrite <- seq_shift, map_map.
  apply map_ext. intros i. now rewrite Nat.add_1_r.
Qed.

(* ================================================================== *)
(** ** The rule-based analyzer *)
(* ================================================================== *)

(** [_analyze_with_rules] never raises, and its dashboard is the one the
    vocabulary above describes. *)
Lemma rules_spec (text : str) :
  exists data,
    Forall2 float_of (firstn 6 (numeric_tokens text)) data
    /\ _analyze_with_rules text = Ok (rule_dashboard text (rule_sections text data)).
Proof.
  destruct (numeric_values text 6) as [data [Edata Fdata]].
  exists data. split; [exact Fdata|].
  unfold _analyze_with_rules, rule_dashboard, rule_sections, search.
  fold (numeric_tokens text).
  pose proof (heading_search (lit "abstract") (lit "summary") (lit "executive summary")
                text []) as Ha.
  pose proof (heading_search (lit "conclusion") (lit "summary") (lit "findings")
                text []) as Hc.
  fold abstract_words in Ha. fold conclusion_words in Hc.
  fold abstract_re in Ha. fold conclusion_re in Hc.
  assert (Ea :
    match search_from heading_flags abstract_re [] text with
    | Some abstract_match =>
        bind (group2_500 abstract_match) (fun g =>
        Ok ([] ++ [ {| sec_id := lit "abstract"; sec_title := lit "Abstract";
                       content_html := lit "<p>" ++ g ++ lit "</p>"; chart := None |} ]))
    | None => Ok []
    end
    = Ok match find_heading abstract_words text with
         | Some tail => [heading_section (lit "abstract") (lit "Abstract") tail]
         | None => []
         end).
  { destruct (find_heading abstract_words text) as [tail|].
    - destruct Ha as [mt [E G]]. rewrite E. unfold group2_500. rewrite G. reflexivity.
    - rewrite Ha. reflexivity. }
  rewrite Ea. cbn [bind]. clear Ea Ha.
  set (secs1 := match find_heading abstract_words text with
                | Some tail => [heading_section (lit "abstract") (lit "Abstract") tail]
                | None => []
                end).
  assert (Em :
    (if 3 <=? length (numeric_tokens text) then
       bind (map_result float (firstn 6 (numeric_tokens text))) (fun chart_data =>
       Ok (secs1 ++
           [ {| sec_id := lit "metrics";
                sec_title := lit "Key Metrics";
                content_html := lit "<p>Numerical data extracted from the document.</p>";
                chart :=
                  Some {| chart_type := lit "bar";
                          chart_labels := numbered (lit "Metric ") (length chart_data);
                          chart_datasets :=
                            [ {| ds_label := lit "Values";
                                 ds_data := chart_data;
                                 ds_color := lit "#0ea5e9" |} ] |} |} ]))
     else Ok secs1)
    = Ok (secs1 ++ (if 3 <=? length (numeric_tokens text)
                    then [metrics_section data] else []))).
  { destruct (3 <=? length (numeric_tokens text)).
    - rewrite Edata. cbn [bind]. rewrite numbered_metric_labels. reflexivity.
    - now rewrite app_nil_r. }
  rewrite Em. cbn [bind]. clear Em.
  set (secs2 := secs1 ++ (if 3 <=? length (numeric_tokens text)
                          then [metrics_section data] else [])).
  destruct (find_heading conclusion_words text) as [tail|].
  - destruct Hc as [mt [E G]]. rewrite E. unfold group2_500. rewrite G.
    cbn [bind]. unfold secs2. rewrite <- !app_assoc. reflexivity.
  - rewrite Hc. cbn [bind]. unfold secs2. rewrite app_nil_r. reflexivity.
Qed.

(* ================================================================== *)
(** ** The tabular extractor *)
(* ================================================================== *)

Lemma runs_not_nil (lines : list str) : runs lines <> [].
Proof.
  destruct lines as [|l lines]; simpl; [discriminate|].
  destruct (qualifying l); [|discriminate].
  destruct (runs lines); discriminate.
Qed.

Lemma flush_table_rows (tables : list Table) (cur : list (list str)) :
  flush_table tables cur = tables ++ table_of_rows cur.
Proof.
  destruct cur as [|h [|r cur]]; unfold flush_table; simpl;
    try rewrite app_nil_r; reflexivity.
Qed.

(** One turn of the loop. *)
Lemma table_step_spec (tables : list Table) (cur : list (list str)) (l : str) :
  table_step (tables, cur) l
  = if qualifying l
    then (tables, cur ++ rows_of_run [l])
    else (tables ++ table_of_rows cur, []).
Proof.
  unfold table_step, rows_of_run. fold (qualifying l). cbn [map filter].
  destruct (qualifying l).
  - destruct (2 <=? length (row_cells l)); [reflexivity | now rewrite app_nil_r].
  - destruct cur as [|row cur]; [now rewrite app_nil_r|].
    now rewrite flush_table_rows.
Qed.

(** The loop, run from a state with [tables] emitted and the rows [cur]
    accumulated, against the runs of the remaining lines. *)
Lemma table_loop (lines : list str) :
  forall (tables : list Table) (cur : list (list str)),
    (let '(tables', cur') := fold_left table_step lines (tables, cur) in
     match cur' with
     | _ :: _ => flush_table tables' cur'
     | [] => tables'
     end)
    = tables
      ++ match runs lines with
         | r :: rs =>
             table_of_rows (cur ++ rows_of_run r)
             ++ flat_map (fun run => table_of_rows (rows_of_run run)) rs
         | [] => []
         end.
Proof.
  induction lines as [|l lines IH]; intros tables cur.
  - cbn [fold_left runs flat_map]. unfold rows_of_run. cbn [map filter].
    rewrite !app_nil_r. destruct cur; [now rewrite app_nil_r | apply flush_table_rows].
  - cbn [fold_left runs]. rewrite table_step_spec.
    destruct (qualifying l) eqn:Eq.
    + rewrite IH. destruct (runs lines) as [|r rs] eqn:Er;
        [now destruct (runs_not_nil lines)|].
      replace (rows_of_run (l :: r)) with (rows_of_run [l] ++ rows_of_run r)
        by (unfold rows_of_run; cbn [map filter];
            now destruct (2 <=? length (row_cells l))).
      now rewrite <- app_assoc.
    + rewrite IH. destruct (runs lines) as [|r rs] eqn:Er;
        [now destruct (runs_not_nil lines)|].
      cbn [flat_map app]. unfold rows_of_run at 2. cbn [map filter].
      now rewrite app_nil_r, <- app_assoc.
Qed.

Lemma extract_tabular_runs (text : str) :
  _extract_tabular_data text = tables_of_runs text.
Proof.
  unfold _extract_tabular_data, tables_of_runs.
  pose proof (table_loop (split LF text) [] []) as H. cbn [app] in H.
  rewrite H. destruct (runs (split LF text)); reflexivity.
Qed.

Lemma flat_map_nil {A B : Type} (f : A -> list B) (l : list A) :
  (forall x, In x l -> f x = []) -> flat_map f l = [].
Proof.
  induction l as [|x l IH]; intros H; simpl; [reflexivity|].
  rewrite (H x (or_introl eq_refl)), IH; [reflexivity|].
  intros y Hy. apply H. now right.
Qed.

(** A run has no more rows than the text has row-producing lines. *)
Lemma run_rows_bound (lines : list str) (run : list str) :
  In run (runs lines) ->
  length (rows_of_run run)
  <= length (filter (fun l => qualifying l && (2 <=? length (row_cells l))) lines).
Proof.
  revert run. induction lines as [|l lines IH]; intros run H.
  - simpl in H. destruct H as [<- | []]. simpl. lia.
  - cbn [runs] in H. cbn [filter]. destruct (qualifying l) eqn:Eq; cbn [andb].
    + destruct (runs lines) as [|r rs] eqn:Er; [now destruct (runs_not_nil lines)|].
      destruct H as [<- | H].
      * unfold rows_of_run. cbn [map filter].
        specialize (IH r (or_introl eq_refl)). unfold rows_of_run in IH.
        destruct (2 <=? length (row_cells l)); cbn [length]; lia.
      * specialize (IH run (or_intror H)).
        destruct (2 <=? length (row_cells l)); cbn [length]; lia.
    + destruct H as [<- | H]; [simpl; lia | now apply IH].
Qed.

(** ** The cells of a line *)

Lemma join_cons (sep p : str) (ps : list str) :
  ps <> [] -> join sep (p :: ps) = p ++ sep ++ join sep ps.
Proof. destruct ps; [contradiction | reflexivity]. Qed.

Lemma join_split (sep : ascii) (s : str) : join [sep] (split sep s) = s.
Proof.
  induction s as [|c s IH]; [reflexivity|].
  cbn [split]. destruct (char_eqb c sep) eqn:Ec.
  - apply char_eqb_eq in Ec. subst c.
    rewrite join_cons by apply split_not_nil. now rewrite IH.
  - destruct (split sep s) as [|p ps] eqn:E; [now apply split_not_nil in E|].
    destruct ps as [|q ps]; cbn [join app] in *; now rewrite IH.
Qed.

Lemma split_join (sep : ascii) (pieces : list str) :
  pieces <> [] -> Forall (fun p => ~ In sep p) pieces ->
  split sep (join [sep] pieces) = pieces.
Proof.
  induction pieces as [|p ps IH]; [contradiction|]. intros _ H.
  inversion H as [|? ? Hp Hps]; subst.
  destruct ps as [|q ps].
  - cbn [join]. apply split_no_sep. now apply contains_char_false.
  - rewrite join_cons by discriminate. cbn [app].
    rewrite split_app_sep, split_no_sep by now apply contains_char_false.
    cbn [app]. f_equal. apply IH; [discriminate | assumption].
Qed.

Lemma pieces_split (sep : ascii) (line : str) (pieces : list str) :
  pieces_of sep line pieces <-> pieces = split sep line.
Proof.
  split.
  - intros [Hne [Hf ->]]. symmetry. now apply split_join.
  - intros ->. split; [apply split_not_nil|]. split; [|symmetry; apply join_split].
    apply Forall_forall. intros p Hp. exact (proj1 (In_split _ _ _ Hp)).
Qed.

Lemma lstrip_blank (l s : str) : blank l -> lstrip (l ++ s) = lstrip s.
Proof.
  induction 1 as [|c l Hc _ IH]; [reflexivity|]. cbn [app lstrip]. now rewrite Hc.
Qed.

Lemma lstrip_all_blank (l : str) : blank l -> lstrip l = [].
Proof. intros H. rewrite <- (app_nil_r l). now rewrite lstrip_blank. Qed.

Lemma blank_rev (l : str) : blank l -> blank (rev l).
Proof. unfold blank. rewrite !Forall_forall. intros H c Hc. apply H. now apply in_rev. Qed.

Lemma trimmed_strip (piece cell : str) : trimmed piece cell -> cell = strip piece.
Proof.
  intros [l [r [-> [Hl [Hr [Hb Hz]]]]]]. unfold strip. rewrite lstrip_blank by assumption.
  destruct cell as [|b rest].
  - cbn [app]. rewrite lstrip_all_blank by assumption. reflexivity.
  - cbn [app lstrip]. rewrite (Hb b rest eq_refl). unfold rstrip.
    change (b :: rest ++ r) with ((b :: rest) ++ r).
    rewrite rev_app_distr, lstrip_blank by now apply blank_rev.
    destruct (exists_last (l := b :: rest)) as [front [z E]]; [discriminate|].
    rewrite E. rewrite rev_unit. cbn [lstrip]. rewrite (Hz front z E).
    now rewrite <- rev_unit, rev_involutive.
Qed.

Lemma forallb_blank (ws : str) : forallb isspace ws = true -> blank ws.
Proof. intros H. apply Forall_forall. now apply forallb_forall. Qed.

Lemma strip_trimmed (piece : str) : trimmed piece (strip piece).
Proof.
  destruct (lstrip_suffix piece) as [l [El Hl]].
  destruct (rstrip_prefix (lstrip piece)) as [r [Er Hr]].
  exists l, r. fold (strip piece) in Er.
  split; [now rewrite <- Er|]. split; [now apply forallb_blank|].
  split; [now apply forallb_blank|]. split.
  - intros c rest E. pose proof (lstrip_head piece) as Hh.
    rewrite Er, E in Hh. exact Hh.
  - intros front c E. pose proof (lstrip_head (rev (lstrip piece))) as Hh.
    unfold strip, rstrip in E. apply (f_equal (@rev ascii)) in E.
    rewrite rev_involutive, rev_unit in E. now rewrite E in Hh.
Qed.

Lemma trims_strip (pieces trims : list str) :
  Forall2 trimmed pieces trims <-> trims = map strip pieces.
Proof.
  split.
  - induction 1 as [|p t ps ts Ht _ IH]; [reflexivity|].
    cbn [map]. now rewrite (trimmed_strip Ht), IH.
  - intros ->. induction pieces as [|p ps IH]; constructor; [apply strip_trimmed | exact IH].
Qed.

Lemma truthy_length (s : str) : truthy s = negb (length s =? 0).
Proof. now destruct s. Qed.

Lemma cells_of_row_cells (line : str) (cells : list str) :
  cells_of line cells <-> cells = row_cells line.
Proof.
  assert (Hf : forall ts, filter (fun t => negb (length t =? 0)) ts = filter truthy ts).
  { intros ts. apply filter_ext. intros t. symmetry. apply truthy_length. }
  unfold row_cells. split.
  - intros [sep [pieces [trims [Hd [Hp [Ht ->]]]]]].
    apply pieces_split in Hp. apply trims_strip in Ht. subst. rewrite Hf.
    destruct Hd as [[Hin ->] | [Hin ->]].
    + apply contains_char_In in Hin. now rewrite Hin.
    + apply contains_char_false in Hin. now rewrite Hin.
  - intros ->. destruct (contains_char "|"%char line) eqn:E.
    + exists "|"%char, (split "|"%char line), (map strip (split "|"%char line)).
      split; [left; split; [now apply contains_char_In | reflexivity]|].
      split; [now apply pieces_split|]. split; [now apply trims_strip|]. now rewrite Hf.
    + exists TAB, (split TAB line), (map strip (split TAB line)).
      split; [right; split; [now apply contains_char_false | reflexivity]|].
      split; [now apply pieces_split|]. split; [now apply trims_strip|]. now rewrite Hf.
Qed.

(** ** C7: the tabular extractor *)

(** A line that holds a separator but fewer than two cells adds no row
    and leaves the run open. *)
Example separator_line_keeps_run :
  _extract_tabular_data (lit "a|b" ++ [LF] ++ lit "|" ++ [LF] ++ lit "c|d")
  = [ {| headers := [lit "a"; lit "b"]; rows := [[lit "c"; lit "d"]] |} ].
Proof. reflexivity. Qed.

(** C7. The cells the code computes for a line are those of the
    specification: the line is cut at its delimiter, ['|'] when it holds
    one and the tab otherwise, every piece is trimmed and the empty ones
    are left out.  For every text the tables [_extract_tabular_data]
    returns are those of the maximal runs of consecutive qualifying lines,
    a line qualifying when it holds a ['|'] or a tab: within a run the
    lines with at least two cells are the rows, a run yields a table only
    when it has at least two rows (the first the headers, the others the
    body), and a non-qualifying line or the end of the text closes the
    run.  On ["a|b|c\n1|2|3\n"] the result is the one table with headers
    [a, b, c] and the row [1, 2, 3].  On a text with blanks around the
    cells, empty pieces, tab-separated lines and an empty line in the
    middle the result is two tables of trimmed cells; a line with both a
    ['|'] and tabs is cut at the ['|'] only; a non-qualifying line between
    two rows leaves no table, and the end of the text closes a run like a
    non-qualifying line does.  A text with at most one row-producing
    line, such as ["a|b|c\n"], yields no table. *)
Theorem tabular_extraction :
  (forall line cells, cells_of line cells <-> cells = row_cells line)
  /\ (forall text, _extract_tabular_data text = tables_of_runs text)
  /\ _extract_tabular_data (lit "a|b|c" ++ [LF] ++ lit "1|2|3" ++ [LF])
     = [ {| headers := [lit "a"; lit "b"; lit "c"];
            rows := [[lit "1"; lit "2"; lit "3"]] |} ]
  /\ _extract_tabular_data
       (lit " Name | Qty |" ++ [LF] ++ lit "| apple |  3 " ++ [LF]
        ++ [TAB] ++ lit "x" ++ [TAB] ++ lit "y" ++ [TAB] ++ [LF]
        ++ [LF]
        ++ lit "foo" ++ [TAB] ++ lit "bar" ++ [LF]
        ++ lit " baz " ++ [TAB] ++ lit " 7 " ++ [TAB] ++ [LF])
     = [ {| headers := [lit "Name"; lit "Qty"];
            rows := [[lit "apple"; lit "3"]; [lit "x"; lit "y"]] |};
         {| headers := [lit "foo"; lit "bar"];
            rows := [[lit "baz"; lit "7"]] |} ]
  /\ _extract_tabular_data
       (lit "a" ++ [TAB] ++ lit "b|c" ++ [TAB] ++ lit "d" ++ [LF] ++ lit "1|2")
     = [ {| headers := [lit "a" ++ [TAB] ++ lit "b"; lit "c" ++ [TAB] ++ lit "d"];
            rows := [[lit "1"; lit "2"]] |} ]
  /\ _extract_tabular_data (lit "a|b" ++ [LF] ++ lit " | x | " ++ [LF] ++ lit "c|d")
     = [ {| headers := [lit "a"; lit "b"]; rows := [[lit "c"; lit "d"]] |} ]
  /\ _extract_tabular_data (lit "a|b" ++ [LF] ++ lit "so" ++ [LF] ++ lit "1|2") = []
  /\ (forall text, row_count text <= 1 -> _extract_tabular_data text = [])
  /\ _extract_tabular_data (lit "a|b|c" ++ [LF]) = [].
Proof.
  split; [exact cells_of_row_cells|].
  split; [exact extract_tabular_runs|].
  do 5 (split; [reflexivity|]).
  split; [|reflexivity].
  intros text H. rewrite extract_tabular_runs. unfold tables_of_runs.
  apply flat_map_nil. intros run Hrun.
  pose proof (run_rows_bound _ _ Hrun) as Hb. unfold row_count in H.
  destruct (rows_of_run run) as [|h [|r rs]]; try reflexivity.
  cbn [length] in Hb. lia.
Qed.

Lemma tabular_extraction_witness :
  row_count (lit "x" ++ [LF] ++ lit "a|b|c" ++ [LF] ++ lit "y") <= 1
  /\ _extract_tabular_data (lit "x" ++ [LF] ++ lit "a|b|c" ++ [LF] ++ lit "y") = []
  /\ cells_of (lit " a |" ++ [TAB] ++ lit "b| |c") [lit "a"; lit "b"; lit "c"].
Proof.
  split; [vm_compute; lia|]. split.
  - apply (proj1 (proj2 (proj2 (proj2 (proj2 (proj2 (proj2 (proj2 tabular_extraction)))))))).
    vm_compute. lia.
  - apply (proj1 tabular_extraction). reflexivity.
Defined.

(* ================================================================== *)
(** ** The dispatching methods *)
(* ================================================================== *)

(** ** C2: too little text *)

(** C2. For every input whose extracted text is empty or shorter than
    100 characters, [analyze_document] returns, without raising, the error
    dashboard: title "Analysis Error", exactly one section, titled
    "Error", and [share_ready] false. *)
Theorem short_text_error_dashboard
        (w : World) (self : DocumentAnalyzer)
        (file_path custom_prompt summary_length text : str) :
  extract_text w file_path = Ok text ->
  text = [] \/ length text < 100 ->
  exists d sec,
    analyze_document w self file_path custom_prompt summary_length
    = Ok (DashboardDict d)
    /\ title d = lit "Analysis Error"
    /\ sections d = [sec]
    /\ sec_title sec = lit "Error"
    /\ share_ready d = false.
Proof.
  intros Hx Hshort. unfold analyze_document. rewrite Hx. cbn [bind].
  assert (E : negb (truthy text) || (length (strip text) <? 100) = true).
  { destruct Hshort as [-> | Hlen]; [reflexivity|].
    apply orb_true_iff. right. apply Nat.ltb_lt.
    pose proof (strip_length text). lia. }
  rewrite E. eexists. eexists. split; [reflexivity|].
  repeat split; reflexivity.
Qed.

Lemma short_text_error_dashboard_witness :
  exists d sec,
    analyze_document (with_file (failing_world default_config timeout) (lit "too short"))
      bare_analyzer (lit "notes.txt") [] (lit "Standard")
    = Ok (DashboardDict d)
    /\ title d = lit "Analysis Error"
    /\ sections d = [sec]
    /\ sec_title sec = lit "Error"
    /\ share_ready d = false.
Proof.
  apply (@short_text_error_dashboard _ _ _ _ _ (lit "too short")).
  - reflexivity.
  - right. vm_compute. lia.
Defined.

(** ** C1: a failing back end *)

Lemma rules_result_ok (text : str) :
  exists d, rules_result text = Ok (DashboardDict d).
Proof.
  destruct (rules_spec text) as [data [_ E]].
  unfold rules_result. rewrite E. eexists. reflexivity.
Qed.

(** C1 fails when the diagnostic cannot be printed.  Each handler prints
    the exception (and the Groq one a second line) before it falls back
    to the rule-based analyzer, and these calls stand unguarded inside
    the handler: when one of them raises, its exception leaves the path
    and no dashboard is returned.  When the lines are printed the path
    returns what the rule-based analyzer returns on the same text, which
    is a dashboard.  The failing input: a standard output encoded in
    ASCII, a back end whose call fails with a text that is not ASCII, the
    sample report.  On the same console a failure with an ASCII text
    falls back as claimed. *)
Theorem backend_failure_print_raises :
  (forall (w : World) (self : DocumentAnalyzer) (text custom_prompt summary_length : str)
          (c : GroqClient) (e e' : exn),
      client self = Bound c ->
      chat_completions_create c (groq_request w text custom_prompt summary_length)
      = Raise e ->
      print w (GroqApiError (exn_msg e)) = Raise e'
      \/ (print w (GroqApiError (exn_msg e)) = Ok tt /\ print w FallingBack = Raise e') ->
      _analyze_with_groq w self text custom_prompt summary_length = Raise e')
  /\ (forall (w : World) (self : DocumentAnalyzer) (text : str)
             (g : GeminiModel) (e e' : exn),
         model self = Some (ModelGemini g) ->
         generate_content g (gemini_prompt text) = Raise e ->
         print w (GeminiApiError (exn_msg e)) = Raise e' ->
         _analyze_with_gemini w self text = Raise e')
  /\ (forall (w : World) (self : DocumentAnalyzer) (text custom_prompt summary_length : str)
             (c : GroqClient) (e : exn),
         client self = Bound c ->
         chat_completions_create c (groq_request w text custom_prompt summary_length)
         = Raise e ->
         print w (GroqApiError (exn_msg e)) = Ok tt ->
         print w FallingBack = Ok tt ->
         _analyze_with_groq w self text custom_prompt summary_length = rules_result text)
  /\ (forall (w : World) (self : DocumentAnalyzer) (text : str)
             (g : GeminiModel) (e : exn),
         model self = Some (ModelGemini g) ->
         generate_content g (gemini_prompt text) = Raise e ->
         print w (GeminiApiError (exn_msg e)) = Ok tt ->
         _analyze_with_gemini w self text = rules_result text)
  /\ (forall text, exists d, rules_result text = Ok (DashboardDict d))
  /\ 100 <= length sample_report
  /\ (forall describe,
         _analyze_with_groq (ascii_console (failing_world default_config bad_request) describe)
           (groq_analyzer (failing_client bad_request)) sample_report [] (lit "Standard")
         = Raise (Exn UnicodeEncodeError (describe (GroqApiError (exn_msg bad_request)))))
  /\ (forall describe,
         _analyze_with_gemini (ascii_console (failing_world default_config bad_request) describe)
           (gemini_analyzer (failing_model bad_request)) sample_report
         = Raise (Exn UnicodeEncodeError (describe (GeminiApiError (exn_msg bad_request)))))
  /\ (forall describe,
         _analyze_with_groq (ascii_console (failing_world default_config timeout) describe)
           (groq_analyzer (failing_client timeout)) sample_report [] (lit "Standard")
         = rules_result sample_report).
Proof.
  split; [|split; [|split; [|split; [|split; [|split; [|split; [|split]]]]]]].
  - intros w self text cp sl c e e' Hc Hcall Hp.
    unfold _analyze_with_groq, get_client. rewrite Hc. cbn [bind]. rewrite Hcall.
    cbn [bind try_except].
    destruct Hp as [Hp | [Hp1 Hp2]]; [now rewrite Hp|].
    rewrite Hp1. cbn [bind]. now rewrite Hp2.
  - intros w self text g e e' Hm Hcall Hp.
    unfold _analyze_with_gemini, model_generate_content. rewrite Hm, Hcall.
    cbn [bind try_except]. now rewrite Hp.
  - intros w self text cp sl c e Hc Hcall Hp1 Hp2.
    unfold _analyze_with_groq, get_client. rewrite Hc. cbn [bind]. rewrite Hcall.
    cbn [bind try_except]. rewrite Hp1. cbn [bind]. now rewrite Hp2.
  - intros w self text g e Hm Hcall Hp.
    unfold _analyze_with_gemini, model_generate_content. rewrite Hm, Hcall.
    cbn [bind try_except]. now rewrite Hp.
  - apply rules_result_ok.
  - apply Nat.leb_le. reflexivity.
  - intros describe. reflexivity.
  - intros describe. reflexivity.
  - intros describe. reflexivity.
Qed.

(** ** C10: the per-call options *)

Lemma groq_prompt_custom (text sl cp1 cp2 : str) :
  groq_prompt text cp1 sl = groq_prompt text cp2 sl -> cp1 = cp2.
Proof.
  unfold groq_prompt. intros H.
  apply (f_equal (fun p => match p with
                           | GroqDashboardPrompt _ _ u _ => u
                           | _ => []
                           end)) in H.
  cbv beta iota in H.
  destruct cp1 as [|a cp1], cp2 as [|b cp2]; cbn [truthy] in H;
    try reflexivity; try discriminate.
  apply app_inv_head in H. apply app_inv_head in H. apply app_inv_head in H.
  now apply app_inv_tail in H.
Qed.

(** C10. With the Gemini provider selected, [analyze_document] returns
    the same result whatever the per-call options [custom_prompt] and
    [summary_length] are: they are not handed to [_analyze_with_gemini].
    The prompt of the Groq path, by contrast, depends on both: two
    different custom prompts, or two different summary lengths, give two
    different prompts, and with a back end that reads them the result of
    [analyze_document] differs. *)
Theorem gemini_ignores_options :
  (forall (w : World) (self : DocumentAnalyzer) (file_path cp1 sl1 cp2 sl2 : str),
      ai_provider self = lit "gemini" ->
      analyze_document w self file_path cp1 sl1
      = analyze_document w self file_path cp2 sl2)
  /\ (forall text sl cp1 cp2,
         cp1 <> cp2 -> groq_prompt text cp1 sl <> groq_prompt text cp2 sl)
  /\ (forall text cp sl1 sl2,
         sl1 <> sl2 -> groq_prompt text cp sl1 <> groq_prompt text cp sl2)
  /\ analyze_document (with_file (failing_world default_config timeout) sample_report)
       (groq_analyzer echo_client) (lit "report.txt") [] (lit "Standard")
     <> analyze_document (with_file (failing_world default_config timeout) sample_report)
          (groq_analyzer echo_client) (lit "report.txt")
          (lit "Focus on revenue") (lit "Standard").
Proof.
  split; [|split; [|split]].
  - intros w self file_path cp1 sl1 cp2 sl2 Hp. unfold analyze_document.
    rewrite Hp. reflexivity.
  - intros text sl cp1 cp2 Hne H. apply Hne. exact (groq_prompt_custom H).
  - intros text cp sl1 sl2 Hne H. apply Hne. unfold groq_prompt in H.
    now injection H.
  - vm_compute. discriminate.
Qed.

Lemma gemini_ignores_options_witness :
  analyze_document (with_file (failing_world default_config timeout) sample_report)
    (gemini_analyzer (failing_model timeout)) (lit "report.txt") [] (lit "Standard")
  = analyze_document (with_file (failing_world default_config timeout) sample_report)
      (gemini_analyzer (failing_model timeout)) (lit "report.txt")
      (lit "Focus on revenue") (lit "Brief")
  /\ groq_prompt sample_report [] (lit "Brief")
     <> groq_prompt sample_report (lit "Focus on revenue") (lit "Brief")
  /\ groq_prompt sample_report [] (lit "Brief")
     <> groq_prompt sample_report [] (lit "Detailed").
Proof.
  split; [|split].
  - apply (proj1 gemini_ignores_options). reflexivity.
  - apply (proj1 (proj2 gemini_ignores_options)). discriminate.
  - apply (proj1 (proj2 (proj2 gemini_ignores_options))). discriminate.
Defined.

(** ** C4: text extraction *)

(** The PDF and DOCX branches return a string whatever happens, and an
    unknown extension gives the empty string. *)
Lemma extract_text_guarded (w : World) (file_path ext : str) (exts : list str) :
  rev (split "."%char (lower file_path)) = ext :: exts ->
  str_eqb ext (lit "txt") = false ->
  exists text, extract_text w file_path = Ok text.
Proof.
  intros He Ht. unfold extract_text. rewrite He, Ht.
  destruct (str_eqb ext (lit "pdf")).
  - destruct (bind (pdf_pages w file_path) _); cbn [try_except]; eexists; reflexivity.
  - destruct (str_eqb ext (lit "docx") || str_eqb ext (lit "doc")).
    + destruct (bind (docx_paragraphs w file_path) _); cbn [try_except];
        eexists; reflexivity.
    + eexists. reflexivity.
Qed.

(** C4 fails on the [txt] branch: [open] is called outside any [try], so
    when the file cannot be opened the exception leaves [extract_text]
    (and [analyze_document] with it). *)
Theorem extract_text_txt_raises (cfg : Config) (e : exn) :
  extract_text (failing_world cfg e) (lit "missing.txt") = Raise e
  /\ forall (self : DocumentAnalyzer) (custom_prompt summary_length : str),
       analyze_document (failing_world cfg e) self (lit "missing.txt")
         custom_prompt summary_length = Raise e.
Proof. split; reflexivity. Qed.

(** ** C9: document chat *)

(** With a client, an exception of the generation call comes back as an
    inline error string. *)
Lemma chat_call_failure (w : World) (self : DocumentAnalyzer) (c : GroqClient)
      (text question : str) (e : exn) :
  client self = Bound c ->
  (forall req, chat_completions_create c req = Raise e) ->
  chat_with_document w self text question
  = Ok (lit "Error generating answer: " ++ exn_msg e).
Proof.
  intros Hc Hcall. unfold chat_with_document, get_client. rewrite Hc.
  cbn [bind object_truthy negb]. rewrite Hcall. reflexivity.
Qed.

(** C9 fails when no client is configured: [__init__] never assigns
    [self.client] in that case, so the test [not self.client] raises
    [AttributeError] before the fixed message can be returned.  This is
    the default configuration (provider [groq], no API key). *)
Theorem chat_without_client_raises (e : exn) (text question : str) :
  exists self,
    __init__ (failing_world default_config e) = Ok self
    /\ client self = Unset
    /\ chat_with_document (failing_world default_config e) self text question
       = Raise (Exn AttributeError
                  (lit "'DocumentAnalyzer' object has no attribute 'client'")).
Proof. exists bare_analyzer. repeat split. Qed.

(* ================================================================== *)
(** ** Metrics and heat map *)
(* ================================================================== *)



(** ** C5: the metrics section *)



(** ** C6: the heat map *)

Lemma chunk_length (rows cols : nat) (xs : list binary64) :
  length (chunk rows cols xs) = rows.
Proof.
  revert xs. induction rows as [|rows IH]; intros xs; simpl; [reflexivity|].
  now rewrite IH.
Qed.


Lemma side_square_le (n : nat) :
  Nat.min 5 (Nat.sqrt n) * Nat.min 5 (Nat.sqrt n) <= n.
Proof.
  pose proof (Nat.sqrt_spec n (Nat.le_0_l n)) as [H _].
  assert (Nat.min 5 (Nat.sqrt n) <= Nat.sqrt n) by lia.
  nia.
Qed.

(** The body of [_generate_heatmap_data] never raises once there are
    nine tokens. *)
Lemma heatmap_spec (text : str) :
  9 <= length (numeric_tokens text) ->
  let side := Nat.min 5 (Nat.sqrt (length (numeric_tokens text))) in
  exists data,
    Forall2 float_of (firstn (side * side) (numeric_tokens text)) data
    /\ length data = side * side
    /\ _generate_heatmap_data text
       = Some {| hm_type := lit "heatmap";
                 hm_z := chunk side side data;
                 hm_x := numbered (lit "Metric ") side;
                 hm_y := numbered (lit "Category ") side;
                 colorscale := lit "Viridis" |}.
Proof.
  intros H9 side.
  destruct (numeric_values text (side * side)) as [data [E F]].
  assert (Hlen : length data = side * side).
  { rewrite <- (Forall2_length F), length_firstn.
    pose proof (side_square_le (length (numeric_tokens text))). subst side. lia. }
  exists data. split; [exact F|]. split; [exact Hlen|].
  unfold _generate_heatmap_data. fold (numeric_tokens text).
  assert (E9 : (length (numeric_tokens text) <? 9) = false) by (apply Nat.ltb_ge; lia).
  rewrite E9. fold side. rewrite E. cbn [bind]. unfold reshape.
  rewrite Hlen, Nat.eqb_refl. reflexivity.
Qed.



(* ================================================================== *)
(** ** The abstract section *)
(* ================================================================== *)

Lemma find_heading_skip (ws : list str) (pre s : str) :
  no_heading_before ws (length pre) (pre ++ s) ->
  find_heading ws (pre ++ s) = find_heading ws s.
Proof.
  unfold no_heading_before. induction pre as [|c pre IH]; intros H; [reflexivity|].
  cbn [app find_heading].
  pose proof (H 0 ltac:(simpl; lia)) as H0. cbn [skipn app] in H0. rewrite H0.
  apply IH. intros i Hi. apply (H (S i)). simpl. lia.
Qed.

Lemma find_heading_some (ws : list str) (s tail : str) :
  find_heading ws s = Some tail ->
  exists pre s', s = pre ++ s' /\ heading_at ws s' = Some tail.
Proof.
  induction s as [|c s IH]; cbn [find_heading].
  - destruct (heading_at ws []) eqn:E; [|discriminate].
    intros H. inversion H; subst. now exists [], [].
  - destruct (heading_at ws (c :: s)) eqn:E.
    + intros H. inversion H; subst. now exists [], (c :: s).
    + intros H. destruct (IH H) as [pre [s' [E1 E2]]].
      exists (c :: pre), s'. simpl. now rewrite E1.
Qed.

(** C8, the example as the claim words it, fails: in a text that holds
    the sample after an earlier heading, the section [abstract] is taken
    from the earlier heading and does not hold the sentence. *)
Lemma abstract_example_counterexample :
  contains fox_sample two_headings_text = true
  /\ ~ abstract_section_contains two_headings_text fox_sentence.
Proof.
  split; [reflexivity|].
  intros [d [sec [E [Hin [Hid Hc]]]]].
  vm_compute in E. inversion E; subst d; clear E.
  cbn [sections] in Hin.
  destruct Hin as [<- | [<- | []]]; vm_compute in Hc; discriminate.
Qed.

(** The paragraph after a heading word, spelled out: the separators, then
    the paragraph, which starts at the first character that is no
    separator and stops at the first paragraph break. *)
Lemma paragraph_after_spec (tail : str) :
  starts_with_sep tail = true ->
  exists seps rest,
    tail = seps ++ paragraph_after tail ++ rest
    /\ seps <> [] /\ forallb colon_or_space seps = true
    /\ starts_with_sep (paragraph_after tail ++ rest) = false
    /\ at_break rest = true
    /\ forall n, n < length (paragraph_after tail) ->
                 at_break (skipn n (paragraph_after tail ++ rest)) = false.
Proof.
  intros Hs. unfold paragraph_after.
  destruct (until_break_prefix (drop_while colon_or_space tail)) as [rest [E Hb]].
  exists (take_while colon_or_space tail), rest.
  split; [now rewrite <- E, take_drop_while|].
  split; [destruct tail as [|c tail]; [discriminate|]; simpl in *; now rewrite Hs|].
  split; [apply take_while_all|].
  rewrite <- E. split; [|split; [exact Hb | intros n Hn; now apply until_break_minimal]].
  pose proof (drop_while_head colon_or_space tail) as Hh.
  destruct (drop_while colon_or_space tail); [reflexivity | exact Hh].
Qed.

(** C8, amended.  For every text in which a heading word ([abstract],
    [summary], [executive summary], in any letter case) is followed by
    [':'] or white space, the rule-based analyzer emits first a section
    [abstract].  Its content is a paragraph element around the first 500
    characters of the captured text: what follows the leftmost such
    heading and the run of separators after it, up to the next blank line
    or the end of the text.  When the sample paragraph holds the leftmost
    heading of the text, that content is the sample sentence. *)
Theorem abstract_section_emitted :
  (forall text pre tok c post w,
      text = pre ++ tok ++ c :: post ->
      In w abstract_words -> same_word w tok -> colon_or_space c = true ->
      exists d pre' tok' w' seps body rest,
        _analyze_with_rules text = Ok d
        /\ text = pre' ++ tok' ++ seps ++ body ++ rest
        /\ In w' abstract_words /\ same_word w' tok'
        /\ length pre' <= length pre
        /\ seps <> [] /\ forallb colon_or_space seps = true
        /\ starts_with_sep (body ++ rest) = false
        /\ at_break rest = true
        /\ (forall n, n < length body -> at_break (skipn n (body ++ rest)) = false)
        /\ hd_error (sections d)
           = Some {| sec_id := lit "abstract";
                     sec_title := lit "Abstract";
                     content_html := lit "<p>" ++ firstn 500 body ++ lit "</p>";
                     chart := None |})
  /\ (forall pre post,
         no_heading_before abstract_words (length pre) (pre ++ fox_sample ++ post) ->
         exists d sec,
           _analyze_with_rules (pre ++ fox_sample ++ post) = Ok d
           /\ hd_error (sections d) = Some sec
           /\ sec_id sec = lit "abstract"
           /\ content_html sec = lit "<p>The quick brown fox jumps. </p>"
           /\ contains fox_sentence (content_html sec) = true).
Proof.
  split.
  - intros text pre tok c post w Ht Hw Hs Hc.
    assert (Hat : heading_at abstract_words (tok ++ c :: post) <> None).
    { apply heading_at_complete with (w := w); auto. }
    destruct (@find_heading_leftmost abstract_words pre _ Hat)
      as [tail [pre' [s' [Hf [Hsplit [Hs' Hlen]]]]]].
    rewrite <- Ht in Hf, Hsplit.
    destruct (heading_at_some _ _ Hs') as [w' [tok' [Hin' [Hw' [Es' Hsep]]]]].
    destruct (paragraph_after_spec tail Hsep)
      as [seps [rest [Etail [Hne [Hall [Hstart [Hbreak Hmin]]]]]]].
    destruct (rules_spec text) as [data [_ E]].
    exists (rule_dashboard text (rule_sections text data)), pre', tok', w',
      seps, (paragraph_after tail), rest.
    split; [exact E|]. split; [now rewrite Hsplit, Es', <- Etail|].
    repeat (split; [assumption|]).
    cbn [rule_dashboard sections]. unfold rule_sections. rewrite Hf. reflexivity.
  - intros pre post Hno.
    destruct (rules_spec (pre ++ fox_sample ++ post)) as [data [_ E]].
    eexists. eexists. split; [exact E|].
    cbn [rule_dashboard sections]. unfold rule_sections.
    rewrite (@find_heading_skip abstract_words pre (fox_sample ++ post) Hno).
    repeat split; reflexivity.
Qed.

Lemma abstract_section_emitted_witness :
  no_heading_before abstract_words (length (lit "Report" ++ [LF]))
    ((lit "Report" ++ [LF]) ++ fox_sample ++ lit "Body 1 2 3")
  /\ exists d sec,
       _analyze_with_rules ((lit "Report" ++ [LF]) ++ fox_sample ++ lit "Body 1 2 3") = Ok d
       /\ hd_error (sections d) = Some sec
       /\ sec_id sec = lit "abstract"
       /\ content_html sec = lit "<p>The quick brown fox jumps. </p>"
       /\ contains fox_sentence (content_html sec) = true.
Proof.
  assert (H : no_heading_before abstract_words (length (lit "Report" ++ [LF]))
                ((lit "Report" ++ [LF]) ++ fox_sample ++ lit "Body 1 2 3")).
  { intros i Hi. cbn [lit list_ascii_of_string length app] in Hi.
    do 7 (destruct i as [|i]; [reflexivity|]). lia. }
  split; [exact H|].
  exact (proj2 abstract_section_emitted (lit "Report" ++ [LF]) (lit "Body 1 2 3") H).
Defined.

(* ================================================================== *)
(** ** The merged HTML *)
(* ================================================================== *)

Lemma startswith_iff (p s : str) : startswith p s = true <-> exists r, s = p ++ r.
Proof.
  revert s. induction p as [|x p IH]; intros s; simpl.
  - split; [intros _; now exists s | reflexivity].
  - destruct s as [|y s]; [split; [discriminate | intros [r H]; discriminate]|].
    rewrite andb_true_iff, char_eqb_eq, IH. split.
    + intros [-> [r ->]]. now exists r.
    + intros [r H]. inversion H; subst. split; [reflexivity | now exists r].
Qed.

(** [contains] is the occurrence of the needle as a factor. *)
Lemma contains_iff (n s : str) :
  contains n s = true <-> exists a b, s = a ++ n ++ b.
Proof.
  induction s as [|c s IH].
  - simpl. rewrite orb_false_r, startswith_iff. split.
    + intros [r H]. now exists [], r.
    + intros [a [b H]]. destruct a; [now exists b | discriminate].
  - cbn [contains]. rewrite orb_true_iff, startswith_iff, IH. split.
    + intros [[r H] | [a [b H]]].
      * now exists [], r.
      * exists (c :: a), b. simpl. now rewrite H.
    + intros [[|x a] [b H]].
      * left. now exists b.
      * right. inversion H; subst. now exists a, b.
Qed.

Lemma contains_factor (n a s b : str) :
  contains n (a ++ s ++ b) = false -> contains n s = false.
Proof.
  intros H. destruct (contains n s) eqn:E; [|reflexivity].
  apply contains_iff in E as [a' [b' ->]].
  assert (contains n (a ++ (a' ++ n ++ b') ++ b) = true); [|congruence].
  apply contains_iff. exists (a ++ a'), (b' ++ b).
  now rewrite <- !app_assoc.
Qed.

(** Where an occurrence in a concatenation lies. *)
Lemma occurrence_app (n p q a b : str) :
  p ++ q = a ++ n ++ b ->
  (exists b', p = a ++ n ++ b')
  \/ (exists a', q = a' ++ n ++ b)
  \/ (exists n1 n2, n = n1 ++ n2 /\ n1 <> [] /\ n2 <> []
                    /\ p = a ++ n1 /\ q = n2 ++ b).
Proof.
  intros H. apply app_eq_app in H as [l [[Hp Hq] | [Ha Hq]]].
  - apply app_eq_app in Hq as [l2 [[Hn Hq] | [Hl Hb]]].
    + destruct l as [|x l].
      * right. left. exists []. simpl in Hn. now rewrite Hq, Hn.
      * destruct l2 as [|y l2].
        -- left. exists []. rewrite Hp, Hn. now rewrite !app_nil_r.
        -- right. right. exists (x :: l), (y :: l2).
           repeat split; auto; discriminate.
    + left. exists l2. now rewrite Hp, Hl.
  - right. left. now exists l.
Qed.

(** A plain needle has no ['<'] or ['>'] past its first character, and
    does not start with ['>']. *)
Lemma plain_needle_inner (n n1 n2 : str) (ch : ascii) :
  plain_needle n = true -> n = n1 ++ ch :: n2 -> n1 <> [] ->
  ch <> "<"%char /\ ch <> ">"%char.
Proof.
  intros Hp -> Hn1. destruct n1 as [|c n1]; [contradiction|].
  cbn [plain_needle app] in Hp. apply andb_true_iff in Hp as [_ Hp].
  rewrite forallb_app in Hp. apply andb_true_iff in Hp as [_ Hp].
  cbn [forallb] in Hp. apply andb_true_iff in Hp as [Hp _].
  apply andb_true_iff in Hp as [H1 H2].
  split; intros ->; discriminate.
Qed.

Lemma plain_needle_head (n n2 : str) (ch : ascii) :
  plain_needle n = true -> n = ch :: n2 -> ch <> ">"%char.
Proof.
  intros Hp -> ->. discriminate.
Qed.

(** A plain needle cannot straddle the ['>'] that ends what precedes a
    text, nor the ['<'] that begins what follows it. *)
Lemma contains_sandwich (n x body y : str) :
  plain_needle n = true ->
  contains n (x ++ [">"%char]) = false ->
  contains n body = false ->
  contains n ("<"%char :: y) = false ->
  contains n ((x ++ [">"%char]) ++ body ++ "<"%char :: y) = false.
Proof.
  intros Hp Hx Hb Hy.
  destruct (contains n ((x ++ [">"%char]) ++ body ++ "<"%char :: y)) eqn:E;
    [|reflexivity].
  exfalso. apply contains_iff in E as [a [b E]].
  apply occurrence_app in E as [[b' E] | [[a' E] | [n1 [n2 [En [H1 [H2 [Ep Eq]]]]]]]].
  - assert (contains n (x ++ [">"%char]) = true); [|congruence].
    apply contains_iff. now exists a, b'.
  - apply occurrence_app in E as [[b' E] | [[a'' E] | [n1 [n2 [En [H1 [H2 [Ep Eq]]]]]]]].
    + assert (contains n body = true); [|congruence].
      apply contains_iff. now exists a', b'.
    + assert (contains n ("<"%char :: y) = true); [|congruence].
      apply contains_iff. now exists a'', b.
    + destruct n2 as [|ch n2]; [contradiction|].
      inversion Eq; subst ch.
      destruct (plain_needle_inner _ _ Hp En H1) as [Hlt _]. now apply Hlt.
  - destruct (exists_last H1) as [n1' [ch En1]]. subst n1.
    rewrite app_assoc in Ep. apply app_inj_tail in Ep as [_ <-].
    rewrite <- app_assoc in En. cbn [app] in En.
    destruct n1' as [|c n1'].
    + cbn [app] in En. now apply (plain_needle_head Hp En).
    + assert (Hne : c :: n1' <> []) by discriminate.
      destruct (plain_needle_inner _ _ Hp En Hne) as [_ Hgt]. now apply Hgt.
Qed.

(** The same, for a paragraph element between two fragments. *)
Lemma contains_paragraph (n before body after : str) :
  plain_needle n = true ->
  contains n (before ++ lit "<p>") = false ->
  contains n body = false ->
  contains n (lit "</p>" ++ after) = false ->
  contains n (before ++ lit "<p>" ++ body ++ lit "</p>" ++ after) = false.
Proof.
  intros Hp H1 H2 H3.
  replace (before ++ lit "<p>" ++ body ++ lit "</p>" ++ after)
    with (((before ++ lit "<p") ++ [">"%char]) ++ body ++ "<"%char :: lit "/p>" ++ after)
    by (rewrite <- !app_assoc; reflexivity).
  apply contains_sandwich; auto.
  now rewrite <- app_assoc.
Qed.

(** The paragraph a heading introduces is a factor of the text. *)
Lemma paragraph_factor (ws : list str) (text tail : str) (k : nat) :
  find_heading ws text = Some tail ->
  exists a b, text = a ++ firstn k (paragraph_after tail) ++ b.
Proof.
  intros H. apply find_heading_some in H as [pre [s' [E1 E2]]].
  apply heading_at_some in E2 as [w [tok [_ [_ [E2 _]]]]].
  unfold paragraph_after.
  destruct (until_break_prefix (drop_while colon_or_space tail)) as [rest [E3 _]].
  exists (pre ++ tok ++ take_while colon_or_space tail),
    (skipn k (until_break (drop_while colon_or_space tail)) ++ rest).
  rewrite E1, E2. rewrite <- !app_assoc. do 2 f_equal.
  rewrite (app_assoc (firstn k _)), firstn_skipn, <- E3.
  symmetry. apply take_drop_while.
Qed.

Lemma assemble_render (secs : list DashSection) :
  assemble_export_html secs = render_sections secs.
Proof.
  unfold assemble_export_html, render_sections.
  generalize (lit "<section>"). induction secs as [|s secs IH]; intros init.
  - reflexivity.
  - cbn [fold_left map concat]. rewrite IH. now rewrite <- !app_assoc.
Qed.

Lemma plain_disallowed (n : str) : In n disallowed_markup -> plain_needle n = true.
Proof.
  intros [<- | [<- | [<- | [<- | []]]]]; reflexivity.
Qed.

Lemma heading_paragraph_free (n : str) (ws : list str) (text tail : str) :
  contains n text = false ->
  find_heading ws text = Some tail ->
  contains n (firstn 500 (paragraph_after tail)) = false.
Proof.
  intros Hn H. destruct (@paragraph_factor ws text tail 500 H) as [a [b E]].
  rewrite E in Hn. now apply contains_factor in Hn.
Qed.

Lemma contains_paragraph4 (n a b c d body after : str) :
  plain_needle n = true ->
  contains n (a ++ b ++ c ++ d ++ lit "<p>") = false ->
  contains n body = false ->
  contains n (lit "</p>" ++ after) = false ->
  contains n (a ++ b ++ c ++ d ++ lit "<p>" ++ body ++ lit "</p>" ++ after) = false.
Proof.
  intros Hp H1 H2 H3.
  replace (a ++ b ++ c ++ d ++ lit "<p>" ++ body ++ lit "</p>" ++ after)
    with ((a ++ b ++ c ++ d) ++ lit "<p>" ++ body ++ lit "</p>" ++ after)
    by (now rewrite <- !app_assoc).
  apply contains_paragraph; auto. now rewrite <- !app_assoc.
Qed.

Lemma contains_paragraph8 (n a b c d e f g h body after : str) :
  plain_needle n = true ->
  contains n (a ++ b ++ c ++ d ++ e ++ f ++ g ++ h ++ lit "<p>") = false ->
  contains n body = false ->
  contains n (lit "</p>" ++ after) = false ->
  contains n (a ++ b ++ c ++ d ++ e ++ f ++ g ++ h
              ++ lit "<p>" ++ body ++ lit "</p>" ++ after) = false.
Proof.
  intros Hp H1 H2 H3.
  replace (a ++ b ++ c ++ d ++ e ++ f ++ g ++ h
           ++ lit "<p>" ++ body ++ lit "</p>" ++ after)
    with ((a ++ b ++ c ++ d ++ e ++ f ++ g ++ h)
          ++ lit "<p>" ++ body ++ lit "</p>" ++ after)
    by (now rewrite <- !app_assoc).
  apply contains_paragraph; auto. now rewrite <- !app_assoc.
Qed.

(** The fixed fragments hold none of the needles; a captured paragraph
    holds one only if the text does. *)
Lemma render_free (n text : str) (data : list binary64) :
  In n disallowed_markup ->
  contains n text = false ->
  contains n (render_sections (rule_sections text data)) = false.
Proof.
  intros Hin Hn. pose proof (plain_disallowed Hin) as Hp.
  unfold rule_sections.
  destruct (find_heading abstract_words text) as [t1|] eqn:E1;
    destruct (3 <=? length (numeric_tokens text));
    destruct (find_heading conclusion_words text) as [t2|] eqn:E2;
    try pose proof (@heading_paragraph_free n abstract_words text t1 Hn E1) as Hb1;
    try pose proof (@heading_paragraph_free n conclusion_words text t2 Hn E2) as Hb2;
    unfold render_sections, heading_section, metrics_section;
    cbn [map concat sec_title content_html app];
    rewrite <- ?app_assoc;
    repeat lazymatch goal with
      | |- contains _ (_ ++ _ ++ _ ++ _ ++ lit "<p>" ++ firstn 500 _ ++ _) = false =>
          apply contains_paragraph4; [exact Hp | | assumption | ]
      | |- contains _ (_ ++ _ ++ _ ++ _ ++ _ ++ _ ++ _ ++ _
                       ++ lit "<p>" ++ firstn 500 _ ++ _) = false =>
          apply contains_paragraph8; [exact Hp | | assumption | ]
      end;
    destruct Hin as [<- | [<- | [<- | [<- | []]]]]; reflexivity.
Qed.

(** C3, as the claim words it, fails: the captured text is embedded as
    it stands, so a script element of the document reaches the merged
    HTML. *)
Lemma export_html_counterexample : ~ export_html_embeddable script_text.
Proof.
  intros [d [E [_ Hfree]]].
  vm_compute in E. inversion E; subst d; clear E.
  vm_compute in Hfree. discriminate.
Qed.

(** C3, amended.  For every text the rule-based analyzer returns a
    dashboard whose merged HTML is a function of its sections: the
    concatenation of [<h2>title</h2>content_html] over the sections,
    wrapped in one [<section>] element.  The analyzer adds no markup
    beyond the [section], [h2] and [p] wrappers and embeds the captured
    text as it stands: the merged HTML is free of script elements,
    external references and styling classes whenever the text is. *)
Theorem export_html_from_sections (text : str) :
  exists d,
    _analyze_with_rules text = Ok d
    /\ export_html d = render_sections (sections d)
    /\ (free_of_disallowed_markup text = true ->
        free_of_disallowed_markup (export_html d) = true).
Proof.
  destruct (rules_spec text) as [data [_ E]].
  exists (rule_dashboard text (rule_sections text data)).
  split; [exact E|]. cbn [rule_dashboard export_html sections].
  split; [apply assemble_render|].
  rewrite assemble_render. unfold free_of_disallowed_markup.
  rewrite !forallb_forall. intros H n Hin.
  specialize (H n Hin). apply negb_true_iff in H. apply negb_true_iff.
  now apply render_free.
Qed.

Lemma export_html_from_sections_witness :
  free_of_disallowed_markup sample_report = true
  /\ exists d,
       _analyze_with_rules sample_report = Ok d
       /\ export_html d = render_sections (sections d)
       /\ free_of_disallowed_markup (export_html d) = true.
Proof.
  split; [reflexivity|].
  destruct (export_html_from_sections sample_report) as [d [E [R F]]].
  exists d. split; [exact E|]. split; [exact R|]. apply F. reflexivity.
Defined.

(* ================================================================== *)
(** ** Paths and extensions *)
(* ================================================================== *)

(** The string operations of [app.py], checked against the interpreter. *)
Example rsplit1_samples :
  rsplit1 "."%char (lit "a.b.c") = [lit "a.b"; lit "c"]
  /\ rsplit1 "."%char (lit "abc") = [lit "abc"]
  /\ rsplit1 "."%char (lit ".x") = [[]; lit "x"]
  /\ rsplit1 "."%char (lit "x.") = [lit "x"; []].
Proof. repeat split. Qed.

Example split_blank_samples :
  split_blank (lit "a" ++ [LF; LF; LF] ++ lit "b") = [lit "a"; LF :: lit "b"]
  /\ split_blank [LF; LF] = [[]; []]
  /\ split_blank [] = [[]]
  /\ split_blank (lit "a" ++ [LF; LF]) = [lit "a"; []]
  /\ split_blank [LF; LF; LF; LF] = [[]; []; []].
Proof. repeat split. Qed.

Example str_replace_samples :
  str_replace [] (lit "-") (lit "abc") = lit "-a-b-c-"
  /\ str_replace (lit "aa") (lit "b") (lit "aaa") = lit "ba"
  /\ str_replace (lit "</body>") (lit "W</body>") (lit "x</body>y</body>")
     = lit "xW</body>yW</body>".
Proof. repeat split. Qed.

Lemma lower_char_dot (c : ascii) : char_eqb (lower_char c) "."%char = char_eqb c "."%char.
Proof.
  destruct c as [b0 b1 b2 b3 b4 b5 b6 b7].
  destruct b0, b1, b2, b3, b4, b5, b6, b7; reflexivity.
Qed.

Lemma lower_app (a b : str) : lower (a ++ b) = lower a ++ lower b.
Proof. apply map_app. Qed.

Lemma lower_no_dot (s : str) :
  contains_char "."%char s = false -> contains_char "."%char (lower s) = false.
Proof.
  induction s as [|c s IH]; [reflexivity|].
  cbn [contains_char existsb lower map]. unfold char_eqb at 1 3.
  rewrite !(Ascii.eqb_sym "."%char). fold (char_eqb c "."%char).
  fold (char_eqb (lower_char c) "."%char). rewrite lower_char_dot.
  intros H. apply orb_false_iff in H. destruct H as [H1 H2].
  rewrite H1. apply IH, H2.
Qed.

(** A string that holds the separator, cut at its last occurrence. *)
Lemma last_sep (sep : ascii) (s : str) :
  contains_char sep s = true ->
  let not_sep := fun c => negb (char_eqb c sep) in
  s = rev (tl (drop_while not_sep (rev s))) ++ sep :: rev (take_while not_sep (rev s))
  /\ contains_char sep (rev (take_while not_sep (rev s))) = false.
Proof.
  intros Hc not_sep.
  pose proof (take_drop_while not_sep (rev s)) as Htd.
  pose proof (take_while_all not_sep (rev s)) as Hall.
  pose proof (drop_while_head not_sep (rev s)) as Hhd.
  assert (Hno : ~ In sep (take_while not_sep (rev s))).
  { intros Hin. rewrite forallb_forall in Hall. specialize (Hall _ Hin).
    unfold not_sep in Hall. cbv beta in Hall.
    rewrite char_eqb_refl in Hall. discriminate. }
  destruct (drop_while not_sep (rev s)) as [|c dw] eqn:Ed.
  - exfalso. apply Hno. rewrite app_nil_r in Htd. rewrite Htd.
    apply in_rev. rewrite rev_involutive. now apply contains_char_In.
  - unfold not_sep in Hhd. cbv beta in Hhd. apply negb_false_iff, char_eqb_eq in Hhd. subst c.
    split.
    + cbn [tl]. remember (take_while not_sep (rev s)) as tw.
      apply (f_equal (@rev ascii)) in Htd. rewrite rev_involutive in Htd.
      rewrite <- Htd, rev_app_distr. cbn [rev]. now rewrite <- app_assoc.
    + apply contains_char_false. intros Hin. apply Hno. now apply in_rev.
Qed.

(** The extension of a path: what follows its last dot, in lower case. *)
Lemma extension_app (stem ext : str) :
  contains_char "."%char ext = false ->
  rev (split "."%char (lower (stem ++ "."%char :: ext)))
  = lower ext :: rev (split "."%char (lower stem)).
Proof.
  intros H. rewrite lower_app. cbn [lower map].
  change (lower_char "."%char) with "."%char.
  fold (lower ext). rewrite split_app_sep.
  rewrite (split_no_sep _ _ (lower_no_dot _ H)).
  now rewrite rev_unit.
Qed.

Lemma extension_cons (file_path : str) :
  exists exts, rev (split "."%char (lower file_path)) = extension file_path :: exts.
Proof.
  unfold extension. destruct (rev (split "."%char (lower file_path))) as [|e es] eqn:E.
  - exfalso. apply (f_equal (@rev str)) in E. rewrite rev_involutive in E.
    now apply split_not_nil in E.
  - now exists es.
Qed.

(** [extract_text] dispatches on [extension]. *)
Lemma extract_text_by_extension (w : World) (file_path : str) :
  extract_text w file_path
  = let ext := extension file_path in
    if str_eqb ext (lit "txt") then read_text w file_path
    else if str_eqb ext (lit "pdf") then
      try_except
        (pages <- pdf_pages w file_path ;;
         fold_left
           (fun acc page =>
              text <- acc ;;
              page_text <- page ;;
              Ok (text ++ page_text ++ [LF]))
           pages (Ok []))
        (fun e => Ok (lit "Error extracting PDF: " ++ exn_msg e))
    else if str_eqb ext (lit "docx") || str_eqb ext (lit "doc") then
      try_except
        (paras <- docx_paragraphs w file_path ;;
         Ok (join [LF] paras))
        (fun e => Ok (lit "Error extracting DOCX: " ++ exn_msg e))
    else Ok [].
Proof.
  destruct (extension_cons file_path) as [exts E].
  unfold extract_text. now rewrite E.
Qed.

Lemma extension_of_app (stem ext : str) :
  contains_char "."%char ext = false ->
  extension (stem ++ "."%char :: ext) = lower ext.
Proof. intros H. unfold extension. now rewrite extension_app. Qed.

(** X1. The upload filter and the extractor agree on the extension.  A file
    name is accepted exactly when it holds a dot and the extension the
    extractor dispatches on is one of the allowed ones; the index into the
    result of [rsplit] never fails.  A rejected name with a dot is one
    the extractor would read as the empty string. *)
Theorem allowed_file_extension (filename : str) :
  allowed_file filename
  = Ok (contains_char "."%char filename
        && existsb (str_eqb (extension filename)) ALLOWED_EXTENSIONS)
  /\ forall w : World,
       contains_char "."%char filename = true ->
       allowed_file filename = Ok false ->
       extract_text w filename = Ok [].
Proof.
  assert (H : allowed_file filename
              = Ok (contains_char "."%char filename
                    && existsb (str_eqb (extension filename)) ALLOWED_EXTENSIONS)).
  { unfold allowed_file. destruct (contains_char "."%char filename) eqn:Hc; [|reflexivity].
    destruct (last_sep _ _ Hc) as [E Hno]. unfold rsplit1. rewrite Hc. cbn [nth_error].
    remember (rev (take_while (fun c => negb (char_eqb c "."%char)) (rev filename))) as ext.
    remember (rev (tl (drop_while (fun c => negb (char_eqb c "."%char)) (rev filename)))) as stem.
    assert (Hx : extension filename = lower ext) by (rewrite E; now apply extension_of_app).
    now rewrite Hx. }
  split; [exact H|].
  intros w Hc Hf. rewrite H, Hc in Hf. cbn [andb] in Hf.
  apply (f_equal (fun r => match r with Ok b => b | Raise _ => true end)) in Hf.
  cbv beta iota in Hf. rewrite extract_text_by_extension. cbv zeta.
  assert (Hall : forall e, In e ALLOWED_EXTENSIONS -> str_eqb (extension filename) e = false).
  { intros e He. destruct (str_eqb (extension filename) e) eqn:E; [|reflexivity].
    assert (existsb (str_eqb (extension filename)) ALLOWED_EXTENSIONS = true)
      by (apply existsb_exists; now exists e).
    congruence. }
  rewrite !Hall by (cbn; auto). reflexivity.
Qed.

Lemma allowed_file_extension_witness :
  contains_char "."%char (lit "notes.md") = true
  /\ allowed_file (lit "notes.md") = Ok false
  /\ extract_text (failing_world default_config timeout) (lit "notes.md") = Ok [].
Proof.
  split; [reflexivity|]. split; [reflexivity|].
  apply (proj2 (allowed_file_extension (lit "notes.md"))); reflexivity.
Defined.

(** X2. The extractor looks only at what follows the last dot of the path, in
    any letter case: [txt] is read as it stands, [docx] and [doc] give the
    paragraphs joined by newlines or an error string, and every other
    extension gives the empty string. *)
Theorem extract_text_dispatch (w : World) (stem ext : str) :
  contains_char "."%char ext = false ->
  let file_path := stem ++ "."%char :: ext in
  (lower ext = lit "txt" -> extract_text w file_path = read_text w file_path)
  /\ (lower ext = lit "docx" \/ lower ext = lit "doc" ->
      extract_text w file_path
      = match docx_paragraphs w file_path with
        | Ok paras => Ok (join [LF] paras)
        | Raise e => Ok (lit "Error extracting DOCX: " ++ exn_msg e)
        end)
  /\ (~ In (lower ext) ALLOWED_EXTENSIONS -> extract_text w file_path = Ok []).
Proof.
  intros Hd file_path. unfold file_path.
  rewrite extract_text_by_extension, (extension_of_app _ _ Hd). cbv zeta.
  split; [|split].
  - intros E. now rewrite E.
  - intros [E | E]; rewrite E; cbn [str_eqb lit list_ascii_of_string char_eqb Ascii.eqb Bool.eqb andb orb];
      now destruct (docx_paragraphs w (stem ++ "."%char :: ext)).
  - intros Hn.
    assert (Hf : forall e, In e ALLOWED_EXTENSIONS -> str_eqb (lower ext) e = false).
    { intros e He. destruct (str_eqb (lower ext) e) eqn:E; [|reflexivity].
      apply str_eqb_eq in E. now subst e. }
    rewrite !Hf by (cbn; auto). reflexivity.
Qed.

Lemma extract_text_dispatch_witness :
  contains_char "."%char (lit "TXT") = false
  /\ extract_text (with_file (failing_world default_config timeout) sample_report)
       (lit "archive.2024" ++ "."%char :: lit "TXT")
     = read_text (with_file (failing_world default_config timeout) sample_report)
         (lit "archive.2024" ++ "."%char :: lit "TXT").
Proof.
  split; [reflexivity|].
  apply (proj1 (@extract_text_dispatch
                  (with_file (failing_world default_config timeout) sample_report)
                  (lit "archive.2024") (lit "TXT") eq_refl)).
  reflexivity.
Defined.

Lemma fold_pages_raise (pages : list (result str)) (e : exn) :
  fold_left
    (fun acc page =>
       text <- acc ;;
       page_text <- page ;;
       Ok (text ++ page_text ++ [LF]))
    pages (Raise e)
  = Raise e.
Proof. induction pages as [|p pages IH]; [reflexivity | exact IH]. Qed.

Lemma fold_pages_ok (texts : list str) :
  forall (acc : str) (rest : list (result str)),
    fold_left
      (fun acc page =>
         text <- acc ;;
         page_text <- page ;;
         Ok (text ++ page_text ++ [LF]))
      (map (@Ok str) texts ++ rest) (Ok acc)
    = fold_left
        (fun acc page =>
           text <- acc ;;
           page_text <- page ;;
           Ok (text ++ page_text ++ [LF]))
        rest (Ok (acc ++ concat (map (fun t => t ++ [LF]) texts))).
Proof.
  induction texts as [|t texts IH]; intros acc rest.
  - cbn [map app concat]. now rewrite app_nil_r.
  - cbn [map app concat fold_left bind]. rewrite IH.
    now rewrite <- !app_assoc.
Qed.

Lemma extract_text_pdf_unreadable (w : World) (stem ext : str) (e : exn) :
  contains_char "."%char ext = false ->
  lower ext = lit "pdf" ->
  pdf_pages w (stem ++ "."%char :: ext) = Raise e ->
  extract_text w (stem ++ "."%char :: ext) = Ok (lit "Error extracting PDF: " ++ exn_msg e).
Proof.
  intros Hd He Hp.
  rewrite extract_text_by_extension, (extension_of_app _ _ Hd), He. cbv zeta.
  change (str_eqb (lit "pdf") (lit "txt")) with false.
  change (str_eqb (lit "pdf") (lit "pdf")) with true. cbv iota.
  now rewrite Hp.
Qed.

(** X3. A PDF, whatever the letter case of its extension, yields the texts of
    its pages in order, each followed by a newline.  When the extraction
    of one page fails, the text of the pages before it is dropped and the
    result is the error string of that failure; the same when the file
    cannot be opened.  No exception leaves the method. *)
Theorem extract_text_pdf (w : World) (stem ext : str) :
  contains_char "."%char ext = false ->
  lower ext = lit "pdf" ->
  let file_path := stem ++ "."%char :: ext in
  (forall texts,
      pdf_pages w file_path = Ok (map (@Ok str) texts) ->
      extract_text w file_path = Ok (concat (map (fun t => t ++ [LF]) texts)))
  /\ (forall texts e rest,
         pdf_pages w file_path = Ok (map (@Ok str) texts ++ Raise e :: rest) ->
         extract_text w file_path = Ok (lit "Error extracting PDF: " ++ exn_msg e))
  /\ (forall e,
         pdf_pages w file_path = Raise e ->
         extract_text w file_path = Ok (lit "Error extracting PDF: " ++ exn_msg e)).
Proof.
  intros Hd He file_path. unfold file_path.
  rewrite extract_text_by_extension, (extension_of_app _ _ Hd), He. cbv zeta.
  change (str_eqb (lit "pdf") (lit "txt")) with false.
  change (str_eqb (lit "pdf") (lit "pdf")) with true. cbv iota.
  split; [|split].
  - intros texts Hp. rewrite Hp. cbn [bind].
    rewrite <- (app_nil_r (map (@Ok str) texts)), fold_pages_ok. reflexivity.
  - intros texts e rest Hp. rewrite Hp. cbn [bind].
    rewrite fold_pages_ok. cbn [fold_left bind]. now rewrite fold_pages_raise.
  - intros e Hp. now rewrite Hp.
Qed.

Lemma extract_text_pdf_witness :
  contains_char "."%char (lit "Pdf") = false
  /\ lower (lit "Pdf") = lit "pdf"
  /\ pdf_pages (with_file (failing_world default_config timeout) sample_report)
       (lit "scan" ++ "."%char :: lit "Pdf")
     = Raise timeout
  /\ extract_text (with_file (failing_world default_config timeout) sample_report)
       (lit "scan" ++ "."%char :: lit "Pdf")
     = Ok (lit "Error extracting PDF: " ++ exn_msg timeout).
Proof.
  split; [reflexivity|]. split; [reflexivity|]. split; [reflexivity|].
  exact (proj2 (proj2 (@extract_text_pdf
                         (with_file (failing_world default_config timeout) sample_report)
                         (lit "scan") (lit "Pdf") eq_refl eq_refl))
           timeout eq_refl).
Defined.

(* ================================================================== *)
(** ** The dispatching method and the constructor *)
(* ================================================================== *)

Lemma short_iff (text : str) :
  negb (truthy text) || (length (strip text) <? 100) = (length (strip text) <? 100).
Proof. destruct text; reflexivity. Qed.

(** Once the text is extracted, [analyze_document] returns, unless a
    [print] of a handler raises. *)
Lemma analyze_document_after (w : World) (self : DocumentAnalyzer)
      (file_path custom_prompt summary_length text : str) :
  extract_text w file_path = Ok text ->
  (exists a, analyze_document w self file_path custom_prompt summary_length = Ok a)
  \/ (exists e line,
        analyze_document w self file_path custom_prompt summary_length = Raise e
        /\ print w line = Raise e).
Proof.
  intros E. unfold analyze_document. rewrite E. cbn [bind].
  destruct (negb (truthy text) || (length (strip text) <? 100));
    [left; eexists; reflexivity|].
  destruct (rules_result_ok text) as [d Hd].
  destruct (model self) as [mdl|]; [|rewrite Hd; eauto].
  unfold object_truthy.
  destruct (str_eqb (ai_provider self) (lit "groq")).
  { unfold _analyze_with_groq.
    destruct (bind (get_client self) _) as [a|e0]; cbn [try_except]; [eauto|].
    destruct (print w (GroqApiError (exn_msg e0))) as [u|e1] eqn:E1; cbn [bind];
      [|right; now exists e1, (GroqApiError (exn_msg e0))].
    destruct (print w FallingBack) as [u'|e2] eqn:E2; cbn [bind];
      [rewrite Hd; eauto | right; now exists e2, FallingBack]. }
  destruct (str_eqb (ai_provider self) (lit "gemini")); [|rewrite Hd; eauto].
  unfold _analyze_with_gemini.
  destruct (bind (model_generate_content self (gemini_prompt text)) _) as [a|e0];
    cbn [try_except]; [eauto|].
  destruct (print w (GeminiApiError (exn_msg e0))) as [u|e1] eqn:E1; cbn [bind];
    [rewrite Hd; eauto | right; now exists e1, (GeminiApiError (exn_msg e0))].
Qed.

(** X4. The exceptions that leave [analyze_document].  [extract_text]
    raises exactly when the extension is [txt] and opening or reading the
    file raises, and that exception leaves [analyze_document] too.  Any
    other exception that leaves [analyze_document] was raised by a
    [print]: the failures of a back end, of the PDF or DOCX reader and of
    the JSON parser are handled inside, but the handlers of the two AI
    paths print before they fall back.  With a console that takes every
    line, the [txt] case is the only one. *)
Theorem analyze_document_raises (w : World) (self : DocumentAnalyzer)
        (file_path custom_prompt summary_length : str) (e : exn) :
  (extract_text w file_path = Raise e
   <-> extension file_path = lit "txt" /\ read_text w file_path = Raise e)
  /\ (extension file_path = lit "txt" /\ read_text w file_path = Raise e ->
      analyze_document w self file_path custom_prompt summary_length = Raise e)
  /\ (analyze_document w self file_path custom_prompt summary_length = Raise e ->
      (extension file_path = lit "txt" /\ read_text w file_path = Raise e)
      \/ exists line, print w line = Raise e)
  /\ ((forall line, print w line = Ok tt) ->
      (analyze_document w self file_path custom_prompt summary_length = Raise e
       <-> extension file_path = lit "txt" /\ read_text w file_path = Raise e)).
Proof.
  assert (Hx : extract_text w file_path = Raise e
               <-> extension file_path = lit "txt" /\ read_text w file_path = Raise e).
  { destruct (extension_cons file_path) as [exts Ee].
    destruct (str_eqb (extension file_path) (lit "txt")) eqn:Et.
    - rewrite extract_text_by_extension. cbv zeta. rewrite Et.
      apply str_eqb_eq in Et. tauto.
    - destruct (extract_text_guarded w _ Ee Et) as [text Ht]. rewrite Ht.
      split; [discriminate|]. intros [Hext _]. apply str_eqb_eq in Hext. congruence. }
  assert (Hif : extract_text w file_path = Raise e ->
                analyze_document w self file_path custom_prompt summary_length = Raise e).
  { intros E. unfold analyze_document. now rewrite E. }
  assert (Honly : analyze_document w self file_path custom_prompt summary_length = Raise e ->
                  extract_text w file_path = Raise e \/ exists line, print w line = Raise e).
  { intros H. destruct (extract_text w file_path) as [text|e'] eqn:E.
    - right.
      destruct (@analyze_document_after w self file_path custom_prompt summary_length
                  text E) as [[a Ha] | [e1 [line [Ha Hp]]]]; [congruence|].
      exists line. congruence.
    - left. unfold analyze_document in H. rewrite E in H. cbn [bind] in H.
      injection H as ->. reflexivity. }
  split; [exact Hx|]. split; [intros H; apply Hif, Hx, H|].
  split.
  - intros H. destruct (Honly H) as [H1 | H1]; [left; now apply Hx | now right].
  - intros Hp. split; [|intros H; apply Hif, Hx, H].
    intros H. destruct (Honly H) as [H1 | [line H1]]; [now apply Hx|].
    rewrite Hp in H1. discriminate.
Qed.

Lemma analyze_document_raises_witness :
  (forall line, print (failing_world default_config timeout) line = Ok tt)
  /\ extension (lit "missing.txt") = lit "txt"
  /\ read_text (failing_world default_config timeout) (lit "missing.txt") = Raise timeout
  /\ analyze_document (failing_world default_config timeout) bare_analyzer
       (lit "missing.txt") [] (lit "Standard")
     = Raise timeout.
Proof.
  split; [reflexivity|]. split; [reflexivity|]. split; [reflexivity|].
  exact (proj1 (proj2 (analyze_document_raises (failing_world default_config timeout)
                         bare_analyzer (lit "missing.txt") [] (lit "Standard") timeout))
           (conj eq_refl eq_refl)).
Defined.

(** A handler that returned has printed its lines. *)
Lemma print_then (w : World) (line : console_line) (A : Type) (k : result A) (a : A) :
  (_ <- print w line ;; k) = Ok a -> k = Ok a.
Proof. destruct (print w line); cbn [bind]; [trivial | discriminate]. Qed.

(** X5. What [analyze_document] returns, by cases.  The error dashboard is
    returned exactly when the extracted text, stripped of surrounding
    white space, has fewer than 100 characters.  Otherwise a dashboard
    dictionary is the rule-based one on the whole text; the custom-HTML
    dictionary arises only with the provider [groq] and a client whose
    call succeeded, and it carries the whole extracted text; a parsed
    JSON value arises only with the provider [gemini], from a model whose
    call succeeded and whose answer parsed. *)
Theorem analyze_document_result (w : World) (self : DocumentAnalyzer)
        (file_path custom_prompt summary_length text : str) (a : analysis) :
  extract_text w file_path = Ok text ->
  analyze_document w self file_path custom_prompt summary_length = Ok a ->
  match a with
  | DashboardDict d =>
      (length (strip text) < 100
       /\ d = _generate_error_response (lit "Document too short or empty"))
      \/ (100 <= length (strip text) /\ _analyze_with_rules text = Ok d)
  | CustomHtml html t =>
      100 <= length (strip text) /\ t = text
      /\ ai_provider self = lit "groq"
      /\ exists c content,
           client self = Bound c
           /\ chat_completions_create c (groq_request w text custom_prompt summary_length)
              = Ok content
           /\ html = strip_fences (lit "html") (strip content)
  | ParsedJson j =>
      100 <= length (strip text)
      /\ ai_provider self = lit "gemini"
      /\ exists g response,
           model self = Some (ModelGemini g)
           /\ generate_content g (gemini_prompt text) = Ok response
           /\ json_loads w (strip_fences (lit "json") (strip response)) = Ok j
  end.
Proof.
  intros E. unfold analyze_document. rewrite E. cbn [bind]. rewrite short_iff.
  destruct (length (strip text) <? 100) eqn:Hs.
  { apply Nat.ltb_lt in Hs. intros H. injection H as <-. left. now split. }
  apply Nat.ltb_ge in Hs.
  assert (Hr : forall a, rules_result text = Ok a ->
                         match a with
                         | DashboardDict d => _analyze_with_rules text = Ok d
                         | _ => False
                         end).
  { intros a0. unfold rules_result. destruct (_analyze_with_rules text); cbn [bind].
    - intros H. now injection H as <-.
    - discriminate. }
  assert (Hrules : rules_result text = Ok a ->
                   match a with
                   | DashboardDict d =>
                       (length (strip text) < 100
                        /\ d = _generate_error_response (lit "Document too short or empty"))
                       \/ (100 <= length (strip text) /\ _analyze_with_rules text = Ok d)
                   | CustomHtml html t =>
                       100 <= length (strip text) /\ t = text
                       /\ ai_provider self = lit "groq"
                       /\ exists c content,
                            client self = Bound c
                            /\ chat_completions_create c
                                 (groq_request w text custom_prompt summary_length)
                               = Ok content
                            /\ html = strip_fences (lit "html") (strip content)
                   | ParsedJson j =>
                       100 <= length (strip text)
                       /\ ai_provider self = lit "gemini"
                       /\ exists g response,
                            model self = Some (ModelGemini g)
                            /\ generate_content g (gemini_prompt text) = Ok response
                            /\ json_loads w (strip_fences (lit "json") (strip response)) = Ok j
                   end).
  { intros H. specialize (Hr a H). destruct a; [right; now split | contradiction ..]. }
  destruct (model self) as [mdl|] eqn:Em; [|exact Hrules].
  unfold object_truthy.
  destruct (str_eqb (ai_provider self) (lit "groq")) eqn:Eg.
  { apply str_eqb_eq in Eg. unfold _analyze_with_groq, get_client.
    destruct (client self) as [|c] eqn:Ec; cbn [bind try_except];
      [intros H; apply Hrules; now do 2 apply print_then in H|].
    destruct (chat_completions_create c _) as [content|e] eqn:Ecall;
      cbn [bind try_except];
      [|intros H; apply Hrules; now do 2 apply print_then in H].
    intros H. injection H as <-. repeat split; try assumption.
    exists c, content. now repeat split. }
  destruct (str_eqb (ai_provider self) (lit "gemini")) eqn:Ei; [|exact Hrules].
  apply str_eqb_eq in Ei. unfold _analyze_with_gemini, model_generate_content.
  rewrite Em. destruct mdl as [|g]; cbn [bind try_except];
    [intros H; apply Hrules; now apply print_then in H|].
  destruct (generate_content g (gemini_prompt text)) as [response|e] eqn:Ecall;
    cbn [bind try_except]; [|intros H; apply Hrules; now apply print_then in H].
  destruct (json_loads w _) as [j|e] eqn:Ej; cbn [bind try_except];
    [|intros H; apply Hrules; now apply print_then in H].
  intros H. injection H as <-. repeat split; try assumption.
  exists g, response. now repeat split.
Qed.

(** A dashboard dictionary is the error dashboard or the rule-based one. *)
Lemma analyze_document_dict (w : World) (self : DocumentAnalyzer)
      (file_path custom_prompt summary_length text : str) (d : Dashboard) :
  extract_text w file_path = Ok text ->
  analyze_document w self file_path custom_prompt summary_length = Ok (DashboardDict d) ->
  d = _generate_error_response (lit "Document too short or empty")
  \/ _analyze_with_rules text = Ok d.
Proof.
  intros E. unfold analyze_document. rewrite E. cbn [bind].
  destruct (negb (truthy text) || (length (strip text) <? 100)).
  { intros H. injection H as <-. now left. }
  assert (Hr : rules_result text = Ok (DashboardDict d) ->
               d = _generate_error_response (lit "Document too short or empty")
               \/ _analyze_with_rules text = Ok d).
  { unfold rules_result. destruct (_analyze_with_rules text); cbn [bind]; [|discriminate].
    intros H. injection H as <-. now right. }
  destruct (model self) as [mdl|] eqn:Em; [|exact Hr].
  unfold object_truthy.
  destruct (str_eqb (ai_provider self) (lit "groq")).
  { unfold _analyze_with_groq, get_client.
    destruct (client self); cbn [bind try_except];
      [intros H; apply Hr; now do 2 apply print_then in H|].
    destruct (chat_completions_create _ _); cbn [bind try_except]; [discriminate|].
    intros H. apply Hr. now do 2 apply print_then in H. }
  destruct (str_eqb (ai_provider self) (lit "gemini")); [|exact Hr].
  unfold _analyze_with_gemini, model_generate_content. rewrite Em.
  destruct mdl as [|g]; cbn [bind try_except];
    [intros H; apply Hr; now apply print_then in H|].
  destruct (generate_content g _); cbn [bind try_except];
    [|intros H; apply Hr; now apply print_then in H].
  destruct (json_loads w _); cbn [bind try_except]; [discriminate|].
  intros H. apply Hr. now apply print_then in H.
Qed.

Lemma analyze_document_result_witness :
  extract_text (with_file (failing_world default_config timeout) sample_report)
    (lit "report.txt") = Ok sample_report
  /\ analyze_document (with_file (failing_world default_config timeout) sample_report)
       (groq_analyzer echo_client) (lit "report.txt") (lit "Focus on revenue")
       (lit "Standard")
     = Ok (CustomHtml
             (strip_fences (lit "html")
                (strip ([LF] ++ lit "USER CUSTOM INSTRUCTIONS:" ++ [LF]
                        ++ lit "Focus on revenue" ++ [LF]
                        ++ lit "(Prioritize these instructions over default behavior)")))
             sample_report)
  /\ 100 <= length (strip sample_report).
Proof.
  split; [reflexivity|]. split; [reflexivity|].
  exact (proj1 (@analyze_document_result
                  (with_file (failing_world default_config timeout) sample_report)
                  (groq_analyzer echo_client) (lit "report.txt") (lit "Focus on revenue")
                  (lit "Standard") sample_report _ eq_refl eq_refl)).
Defined.

(** X6. The analyzer that [__init__] builds.  Whenever the constructor
    returns, the provider of the analyzer is the configured one.  It holds
    a client exactly when its model is the marker of the Groq path, which
    is the case exactly when the provider is [groq], the Groq key is not
    empty and the client constructor succeeded.  It holds a Gemini model
    exactly when the provider is [gemini], the Gemini key is not empty and
    the model constructor succeeded.  So a failure of either constructor
    leaves the model unset.  The only exceptions that leave [__init__] are
    those of its [print]s: the handlers print, and so does the branch of
    the missing Groq key, outside any [try].  With a console that takes
    every line the constructor returns. *)
Theorem init_coherent (w : World) :
  (forall self,
      __init__ w = Ok self ->
      ai_provider self = AI_PROVIDER (config w)
      /\ (forall c,
             client self = Bound c
             <-> AI_PROVIDER (config w) = lit "groq"
                 /\ GROQ_API_KEY (config w) <> []
                 /\ Groq w (GROQ_API_KEY (config w)) = Ok c)
      /\ (model self = Some ModelGroq <-> exists c, client self = Bound c)
      /\ (forall g,
             model self = Some (ModelGemini g)
             <-> AI_PROVIDER (config w) = lit "gemini"
                 /\ GEMINI_API_KEY (config w) <> []
                 /\ GenerativeModel w (lit "gemini-pro") = Ok g))
  /\ (forall e, __init__ w = Raise e -> exists line, print w line = Raise e)
  /\ ((forall line, print w line = Ok tt) -> exists self, __init__ w = Ok self)
  /\ (AI_PROVIDER (config w) = lit "groq" ->
      GROQ_API_KEY (config w) = [] ->
      forall e, print w GroqKeyMissing = Raise e -> __init__ w = Raise e).
Proof.
  unfold __init__, groq_init_failed, gemini_init_failed. cbn [ai_provider].
  destruct (str_eqb (AI_PROVIDER (config w)) (lit "groq")) eqn:Eg.
  - apply str_eqb_eq in Eg.
    assert (Hni : AI_PROVIDER (config w) <> lit "gemini") by (rewrite Eg; discriminate).
    destruct (GROQ_API_KEY (config w)) as [|k key] eqn:Ek; cbn [truthy];
      [|destruct (Groq w (k :: key)) as [c0|e0] eqn:Ec];
      repeat match goal with
        | |- context [print w ?l] => destruct (print w l) as [[]|?] eqn:?; cbn [bind]
        end;
      repeat split; intros;
      repeat match goal with
        | H : Ok _ = Ok _ |- _ => injection H as <-
        | H : Raise _ = Raise _ |- _ => injection H as <-
        | H : _ /\ _ |- _ => destruct H
        | H : exists _, _ |- _ => destruct H
        | Hp : forall line, print w line = Ok tt, E : print w _ = Raise _ |- _ =>
            rewrite Hp in E
        end;
      cbn [ai_provider client model] in *;
      try congruence; try contradiction; eauto.
  - assert (Hng : AI_PROVIDER (config w) <> lit "groq").
    { intros H. apply str_eqb_eq in H. congruence. }
    destruct (str_eqb (AI_PROVIDER (config w)) (lit "gemini")) eqn:Ei; cbn [andb].
    + apply str_eqb_eq in Ei.
      destruct (GEMINI_API_KEY (config w)) as [|k key] eqn:Ek; cbn [truthy];
        [|destruct (GenerativeModel w (lit "gemini-pro")) as [g0|e0] eqn:Em];
        repeat match goal with
          | |- context [print w ?l] => destruct (print w l) as [[]|?] eqn:?; cbn [bind]
          end;
        repeat split; intros;
        repeat match goal with
          | H : Ok _ = Ok _ |- _ => injection H as <-
          | H : Raise _ = Raise _ |- _ => injection H as <-
          | H : _ /\ _ |- _ => destruct H
          | H : exists _, _ |- _ => destruct H
          | Hp : forall line, print w line = Ok tt, E : print w _ = Raise _ |- _ =>
              rewrite Hp in E
          end;
        cbn [ai_provider client model] in *;
        try congruence; try contradiction; eauto.
    + assert (Hni : AI_PROVIDER (config w) <> lit "gemini").
      { intros H. apply str_eqb_eq in H. congruence. }
      repeat split; intros;
        repeat match goal with
          | H : Ok _ = Ok _ |- _ => injection H as <-
          | H : _ /\ _ |- _ => destruct H
          | H : exists _, _ |- _ => destruct H
          end;
        cbn [ai_provider client model] in *;
        try congruence; try contradiction; eauto.
Qed.

Lemma init_coherent_witness :
  __init__ (failing_world default_config timeout) = Ok bare_analyzer
  /\ ai_provider bare_analyzer = AI_PROVIDER (config (failing_world default_config timeout))
  /\ (model bare_analyzer = Some ModelGroq <-> exists c, client bare_analyzer = Bound c).
Proof.
  split; [reflexivity|].
  destruct (proj1 (init_coherent (failing_world default_config timeout))
              bare_analyzer eq_refl) as [H1 [_ [H3 _]]].
  split; [exact H1 | exact H3].
Defined.

(** X7. Without API keys, whatever the configured provider, the analyzer that
    [__init__] builds answers every document of at least 100 characters
    (surrounding white space apart) with the rule-based dashboard: no
    back end is called and the options play no part. *)
Theorem rule_based_without_keys (w : World) (self : DocumentAnalyzer)
        (file_path custom_prompt summary_length text : str) :
  GROQ_API_KEY (config w) = [] ->
  GEMINI_API_KEY (config w) = [] ->
  __init__ w = Ok self ->
  extract_text w file_path = Ok text ->
  100 <= length (strip text) ->
  analyze_document w self file_path custom_prompt summary_length
  = rules_result text.
Proof.
  intros Hg Hi Hself E Hlen.
  assert (Hm : model self = None).
  { unfold __init__ in Hself. rewrite Hg, Hi in Hself.
    cbn [truthy andb ai_provider] in Hself. rewrite andb_false_r in Hself.
    destruct (str_eqb (AI_PROVIDER (config w)) (lit "groq")).
    - destruct (print w GroqKeyMissing); cbn [bind] in Hself; [|discriminate].
      destruct (print w GroqKeyHint); cbn [bind] in Hself; [|discriminate].
      now injection Hself as <-.
    - now injection Hself as <-. }
  unfold analyze_document. rewrite E. cbn [bind]. rewrite short_iff.
  apply Nat.ltb_ge in Hlen. now rewrite Hlen, Hm.
Qed.

Lemma rule_based_without_keys_witness :
  GROQ_API_KEY (config (with_file (failing_world default_config timeout) sample_report)) = []
  /\ GEMINI_API_KEY (config (with_file (failing_world default_config timeout) sample_report)) = []
  /\ __init__ (with_file (failing_world default_config timeout) sample_report)
     = Ok bare_analyzer
  /\ extract_text (with_file (failing_world default_config timeout) sample_report)
       (lit "report.txt") = Ok sample_report
  /\ 100 <= length (strip sample_report)
  /\ analyze_document (with_file (failing_world default_config timeout) sample_report)
       bare_analyzer (lit "report.txt") (lit "Focus on revenue") (lit "Brief")
     = rules_result sample_report.
Proof.
  assert (H : 100 <= length (strip sample_report)) by (apply Nat.leb_le; reflexivity).
  split; [reflexivity|]. split; [reflexivity|]. split; [reflexivity|].
  split; [reflexivity|]. split; [exact H|].
  exact (@rule_based_without_keys
           (with_file (failing_world default_config timeout) sample_report)
           bare_analyzer
           (lit "report.txt") (lit "Focus on revenue") (lit "Brief") sample_report
           eq_refl eq_refl eq_refl eq_refl H).
Defined.

(** X8. A PDF that cannot be read is not reported as such.  The error string
    of the extractor is taken for the document: when the message of the
    failure has fewer than 78 characters the answer is the dashboard
    [Document too short or empty], and when the string is long enough it
    is analysed as if it were the text of the document. *)
Theorem pdf_failure_taken_for_text (w : World) (self : DocumentAnalyzer)
        (stem ext custom_prompt summary_length : str) (e : exn) :
  contains_char "."%char ext = false ->
  lower ext = lit "pdf" ->
  pdf_pages w (stem ++ "."%char :: ext) = Raise e ->
  (length (exn_msg e) < 78 ->
   analyze_document w self (stem ++ "."%char :: ext) custom_prompt summary_length
   = Ok (DashboardDict (_generate_error_response (lit "Document too short or empty"))))
  /\ (100 <= length (strip (lit "Error extracting PDF: " ++ exn_msg e)) ->
      model self = None ->
      analyze_document w self (stem ++ "."%char :: ext) custom_prompt summary_length
      = rules_result (lit "Error extracting PDF: " ++ exn_msg e)).
Proof.
  intros Hd He Hp.
  pose proof (@extract_text_pdf_unreadable w stem ext e Hd He Hp) as E.
  unfold analyze_document. rewrite E. cbn [bind]. rewrite short_iff. split.
  - intros Hlen.
    assert (Hs : length (strip (lit "Error extracting PDF: " ++ exn_msg e)) < 100).
    { eapply Nat.le_lt_trans; [apply strip_length|].
      rewrite length_app. cbn [lit list_ascii_of_string length]. lia. }
    apply Nat.ltb_lt in Hs. now rewrite Hs.
  - intros Hlen Hm. apply Nat.ltb_ge in Hlen. now rewrite Hlen, Hm.
Qed.

Lemma pdf_failure_taken_for_text_witness :
  contains_char "."%char (lit "pdf") = false
  /\ lower (lit "pdf") = lit "pdf"
  /\ pdf_pages (failing_world default_config timeout) (lit "scan" ++ "."%char :: lit "pdf")
     = Raise timeout
  /\ length (exn_msg timeout) < 78
  /\ __init__ (failing_world default_config timeout) = Ok bare_analyzer
  /\ analyze_document (failing_world default_config timeout) bare_analyzer
       (lit "scan" ++ "."%char :: lit "pdf") [] (lit "Standard")
     = Ok (DashboardDict (_generate_error_response (lit "Document too short or empty"))).
Proof.
  assert (H : length (exn_msg timeout) < 78) by (apply Nat.ltb_lt; reflexivity).
  split; [reflexivity|]. split; [reflexivity|]. split; [reflexivity|].
  split; [exact H|]. split; [reflexivity|].
  exact (proj1 (@pdf_failure_taken_for_text (failing_world default_config timeout)
                  bare_analyzer
                  (lit "scan") (lit "pdf") [] (lit "Standard") timeout
                  eq_refl eq_refl eq_refl) H).
Defined.

(** X9. The dashboard dictionaries of [analyze_document].  Whichever path
    produced it, the error dashboard or the rule-based one, its merged
    HTML is the rendering of its sections, it has at most three sections
    and no two of them share an id.  The flag [share_ready] tells the two
    apart: it is off exactly on the error dashboard. *)
Theorem dashboard_dict_consistent (w : World) (self : DocumentAnalyzer)
        (file_path custom_prompt summary_length : str) (d : Dashboard) :
  analyze_document w self file_path custom_prompt summary_length = Ok (DashboardDict d) ->
  export_html d = render_sections (sections d)
  /\ length (sections d) <= 3
  /\ NoDup (map sec_id (sections d))
  /\ (share_ready d = false
      <-> d = _generate_error_response (lit "Document too short or empty")).
Proof.
  intros H.
  destruct (extract_text w file_path) as [text|e] eqn:E;
    [|unfold analyze_document in H; rewrite E in H; discriminate].
  destruct (@analyze_document_dict w self file_path custom_prompt summary_length
              text d E H) as [-> | Hr].
  - split; [reflexivity|]. split; [cbn; lia|].
    split; [repeat constructor; cbn; tauto|]. split; reflexivity.
  - destruct (rules_spec text) as [data [_ Hs]]. rewrite Hs in Hr. injection Hr as <-.
    cbn [rule_dashboard export_html sections share_ready].
    split; [apply assemble_render|].
    assert (Hsec : length (rule_sections text data) <= 3
                   /\ NoDup (map sec_id (rule_sections text data))).
    { unfold rule_sections.
      destruct (find_heading abstract_words text), (3 <=? length (numeric_tokens text)),
        (find_heading conclusion_words text);
        cbn [app map length heading_section metrics_section sec_id];
        (split; [lia|]); repeat constructor; cbn [In]; intuition discriminate. }
    split; [exact (proj1 Hsec)|]. split; [exact (proj2 Hsec)|].
    split; [discriminate|].
    intros Hd. apply (f_equal share_ready) in Hd. exact Hd.
Qed.

Lemma dashboard_dict_consistent_witness :
  exists d,
    analyze_document (with_file (failing_world default_config timeout) sample_report)
      bare_analyzer
      (lit "report.txt") [] (lit "Standard")
    = Ok (DashboardDict d)
    /\ export_html d = render_sections (sections d)
    /\ NoDup (map sec_id (sections d))
    /\ share_ready d = true.
Proof.
  destruct (analyze_document (with_file (failing_world default_config timeout) sample_report)
              bare_analyzer
              (lit "report.txt") [] (lit "Standard")) as [[d| |]|] eqn:E;
    try (vm_compute in E; discriminate).
  exists d. split; [reflexivity|].
  destruct (dashboard_dict_consistent _ _ _ _ _ E) as [H1 [_ [H3 H4]]].
  split; [exact H1|]. split; [exact H3|].
  destruct (share_ready d) eqn:Es; [reflexivity|].
  pose proof (proj1 H4 eq_refl) as Hd. subst d. vm_compute in E. discriminate.
Defined.

(* ================================================================== *)
(** ** The rule-based dashboard *)
(* ================================================================== *)

Lemma split_hd (sep : ascii) (s : str) :
  exists rest, split sep s = take_while (fun c => negb (char_eqb c sep)) s :: rest.
Proof.
  induction s as [|c s [rest IH]]; cbn [split take_while].
  - now exists [].
  - destruct (char_eqb c sep); cbn [negb]; [now eexists|].
    rewrite IH. now eexists.
Qed.

(** X10. The title of the rule-based dashboard is the first line of the text,
    cut at 100 characters: a prefix of the text without a newline.  The
    default title [Document Analysis] of the source is never used, and
    the dashboard is always marked ready to share. *)
Theorem rules_title (text : str) :
  exists d,
    _analyze_with_rules text = Ok d
    /\ title d = firstn 100 (take_while (fun c => negb (char_eqb c LF)) text)
    /\ (exists rest, text = title d ++ rest)
    /\ length (title d) <= 100
    /\ contains_char LF (title d) = false
    /\ share_ready d = true.
Proof.
  destruct (rules_spec text) as [data [_ E]].
  exists (rule_dashboard text (rule_sections text data)).
  split; [exact E|]. cbn [rule_dashboard title share_ready].
  destruct (split_hd LF text) as [rest Hs]. rewrite Hs.
  set (line := take_while (fun c => negb (char_eqb c LF)) text).
  change (slice_to 100 line) with (firstn 100 line).
  split; [reflexivity|]. split; [|split; [|split; [|reflexivity]]].
  - exists (skipn 100 line ++ drop_while (fun c => negb (char_eqb c LF)) text).
    rewrite app_assoc, firstn_skipn. unfold line. now rewrite take_drop_while.
  - apply firstn_le_length.
  - apply contains_char_false. intros Hin. apply In_firstn in Hin. unfold line in Hin.
    pose proof (take_while_all (fun c => negb (char_eqb c LF)) text) as Hall.
    rewrite forallb_forall in Hall. specialize (Hall _ Hin). cbv beta in Hall.
    rewrite char_eqb_refl in Hall. discriminate.
Qed.

Lemma has_heading_iff (ws : list str) (text : str) :
  has_heading ws text <-> find_heading ws text <> None.
Proof.
  split.
  - intros [pre [tok [c [post [w [Ht [Hw [Hs Hc]]]]]]]].
    assert (Hat : heading_at ws (tok ++ c :: post) <> None).
    { apply heading_at_complete with (w := w); auto. }
    destruct (@find_heading_leftmost ws pre _ Hat) as [tail [_ [_ [Hf _]]]].
    rewrite Ht, Hf. discriminate.
  - destruct (find_heading ws text) as [tail|] eqn:Hf; [|now intros H; elim H].
    intros _. destruct (find_heading_some _ _ Hf) as [pre [s' [Ht Hat]]].
    destruct (heading_at_some _ _ Hat) as [w [tok [Hw [Hs [Es Hsep]]]]].
    destruct tail as [|c post]; [discriminate|].
    exists pre, tok, c, post, w. subst. repeat split; auto.
Qed.

(** X11. Which sections the rule-based dashboard has.  The section [abstract]
    is present exactly when the text holds a heading [abstract],
    [summary] or [executive summary]; the section [metrics] exactly when
    the text holds at least three numeric tokens; the section
    [conclusion] exactly when the text holds a heading [conclusion],
    [summary] or [findings].  They come in this order, so there are at
    most three sections with distinct ids, and the section [metrics] is
    the only one with a chart. *)
Theorem rule_sections_triggers (text : str) :
  exists (d : Dashboard) (a m c : bool),
    _analyze_with_rules text = Ok d
    /\ (a = true <-> has_heading abstract_words text)
    /\ (m = true <-> 3 <= length (numeric_tokens text))
    /\ (c = true <-> has_heading conclusion_words text)
    /\ map sec_id (sections d)
       = (if a then [lit "abstract"] else [])
         ++ (if m then [lit "metrics"] else [])
         ++ (if c then [lit "conclusion"] else [])
    /\ forall sec, In sec (sections d) ->
                   (chart sec <> None <-> sec_id sec = lit "metrics").
Proof.
  destruct (rules_spec text) as [data [_ E]].
  exists (rule_dashboard text (rule_sections text data)),
    (match find_heading abstract_words text with Some _ => true | None => false end),
    (3 <=? length (numeric_tokens text)),
    (match find_heading conclusion_words text with Some _ => true | None => false end).
  split; [exact E|].
  split; [rewrite has_heading_iff; destruct (find_heading abstract_words text); easy|].
  split; [apply Nat.leb_le|].
  split; [rewrite has_heading_iff; destruct (find_heading conclusion_words text); easy|].
  cbn [rule_dashboard sections]. unfold rule_sections.
  destruct (find_heading abstract_words text), (3 <=? length (numeric_tokens text)),
    (find_heading conclusion_words text); cbn [app map In heading_section metrics_section sec_id];
    (split; [reflexivity|]);
    intros sec Hin;
    repeat match goal with
      | H : _ \/ _ |- _ => destruct H as [H | H]
      | H : False |- _ => contradiction
      end;
    subst sec; cbn [chart sec_id]; split; intros H; try discriminate; try reflexivity;
    try (now elim H).
Qed.

(** X12. The conclusion section, which comes last.  For every text in which a
    heading word ([conclusion], [summary], [findings], in any letter
    case) is followed by [':'] or white space, the last section of the
    rule-based dashboard is the section [conclusion]; its content is a
    paragraph element around the first 500 characters of what follows the
    leftmost such heading and the separators after it, up to the next
    blank line or the end of the text. *)
Theorem conclusion_section_emitted (text pre tok post w : str) (c : ascii) :
  text = pre ++ tok ++ c :: post ->
  In w conclusion_words -> same_word w tok -> colon_or_space c = true ->
  exists d pre' tok' w' seps body rest,
    _analyze_with_rules text = Ok d
    /\ text = pre' ++ tok' ++ seps ++ body ++ rest
    /\ In w' conclusion_words /\ same_word w' tok'
    /\ length pre' <= length pre
    /\ seps <> [] /\ forallb colon_or_space seps = true
    /\ starts_with_sep (body ++ rest) = false
    /\ at_break rest = true
    /\ (forall n, n < length body -> at_break (skipn n (body ++ rest)) = false)
    /\ hd_error (rev (sections d))
       = Some {| sec_id := lit "conclusion";
                 sec_title := lit "Conclusion";
                 content_html := lit "<p>" ++ firstn 500 body ++ lit "</p>";
                 chart := None |}.
Proof.
  intros Ht Hw Hs Hc.
  assert (Hat : heading_at conclusion_words (tok ++ c :: post) <> None).
  { apply heading_at_complete with (w := w); auto. }
  destruct (@find_heading_leftmost conclusion_words pre _ Hat)
    as [tail [pre' [s' [Hf [Hsplit [Hs' Hlen]]]]]].
  rewrite <- Ht in Hf, Hsplit.
  destruct (heading_at_some _ _ Hs') as [w' [tok' [Hin' [Hw' [Es' Hsep]]]]].
  destruct (paragraph_after_spec tail Hsep)
    as [seps [rest [Etail [Hne [Hall [Hstart [Hbreak Hmin]]]]]]].
  destruct (rules_spec text) as [data [_ E]].
  exists (rule_dashboard text (rule_sections text data)), pre', tok', w',
    seps, (paragraph_after tail), rest.
  split; [exact E|]. split; [now rewrite Hsplit, Es', <- Etail|].
  repeat (split; [assumption|]).
  cbn [rule_dashboard sections]. unfold rule_sections. rewrite Hf.
  rewrite !app_assoc, rev_unit. reflexivity.
Qed.

Lemma conclusion_section_emitted_witness :
  exists d pre' tok' w' seps body rest,
    _analyze_with_rules (lit "Report. FINDINGS: sales rose." ++ [LF; LF] ++ lit "Appendix")
    = Ok d
    /\ lit "Report. FINDINGS: sales rose." ++ [LF; LF] ++ lit "Appendix"
       = pre' ++ tok' ++ seps ++ body ++ rest
    /\ In w' conclusion_words /\ same_word w' tok'
    /\ length pre' <= length (lit "Report. ")
    /\ seps <> [] /\ forallb colon_or_space seps = true
    /\ starts_with_sep (body ++ rest) = false
    /\ at_break rest = true
    /\ (forall n, n < length body -> at_break (skipn n (body ++ rest)) = false)
    /\ hd_error (rev (sections d))
       = Some {| sec_id := lit "conclusion";
                 sec_title := lit "Conclusion";
                 content_html := lit "<p>" ++ firstn 500 body ++ lit "</p>";
                 chart := None |}.
Proof.
  apply (@conclusion_section_emitted
           (lit "Report. FINDINGS: sales rose." ++ [LF; LF] ++ lit "Appendix")
           (lit "Report. ") (lit "FINDINGS") (lit " sales rose." ++ [LF; LF] ++ lit "Appendix")
           (lit "findings") ":"%char).
  - reflexivity.
  - cbn. auto.
  - reflexivity.
  - reflexivity.
Defined.

Lemma heading_at_none (ws : list str) (s : str) :
  heading_at ws s = None
  <-> forall w, In w ws -> istartswith w s && starts_with_sep (skipn (length w) s) = false.
Proof.
  induction ws as [|w0 ws IH]; cbn [heading_at In].
  - split; [intros _ w [] | reflexivity].
  - destruct (istartswith w0 s && starts_with_sep (skipn (length w0) s)) eqn:E.
    + split; [discriminate|]. intros H. specialize (H w0 (or_introl eq_refl)). congruence.
    + rewrite IH. split.
      * intros H w [<- | Hin]; auto.
      * intros H w Hin. apply H. now right.
Qed.

Lemma find_heading_ext (ws1 ws2 : list str) (s : str) :
  (forall pre s', s = pre ++ s' -> heading_at ws1 s' = heading_at ws2 s') ->
  find_heading ws1 s = find_heading ws2 s.
Proof.
  induction s as [|c s IH]; intros H; cbn [find_heading].
  - now rewrite (H [] [] eq_refl).
  - rewrite (H [] (c :: s) eq_refl). destruct (heading_at ws2 (c :: s)); [reflexivity|].
    apply IH. intros pre s' E. apply (H (c :: pre) s'). now rewrite E.
Qed.

Lemma find_heading_none (ws : list str) (s : str) :
  find_heading ws s = None ->
  forall pre s', s = pre ++ s' -> heading_at ws s' = None.
Proof.
  intros Hf pre s' E. destruct (heading_at ws s') as [tail|] eqn:Hat; [|reflexivity].
  assert (Hne : heading_at ws s' <> None) by (rewrite Hat; discriminate).
  destruct (@find_heading_leftmost ws pre s' Hne) as [tail' [_ [_ [Hf' _]]]].
  rewrite <- E in Hf'. congruence.
Qed.

(** X13. The heading [summary] serves both patterns.  In a text that holds a
    heading [summary] and no heading [abstract], [executive summary],
    [conclusion] or [findings], the dashboard opens with the section
    [abstract] and closes with the section [conclusion], and both carry
    the same content. *)
Theorem summary_heading_twice (text : str) :
  has_heading [lit "summary"] text ->
  ~ has_heading [lit "abstract"; lit "executive summary"; lit "conclusion"; lit "findings"]
      text ->
  exists d a c,
    _analyze_with_rules text = Ok d
    /\ hd_error (sections d) = Some a /\ sec_id a = lit "abstract"
    /\ hd_error (rev (sections d)) = Some c /\ sec_id c = lit "conclusion"
    /\ content_html a = content_html c.
Proof.
  intros Hs Hno.
  rewrite has_heading_iff in Hs, Hno.
  assert (Hnone : find_heading
                    [lit "abstract"; lit "executive summary"; lit "conclusion"; lit "findings"]
                    text = None).
  { destruct (find_heading
                [lit "abstract"; lit "executive summary"; lit "conclusion"; lit "findings"]
                text); [|reflexivity].
    exfalso. apply Hno. discriminate. }
  pose proof (@find_heading_none _ _ Hnone) as Hat.
  assert (Ha : find_heading abstract_words text = find_heading [lit "summary"] text).
  { apply find_heading_ext. intros pre s' E. specialize (Hat pre s' E).
    rewrite heading_at_none in Hat.
    pose proof (Hat (lit "abstract") ltac:(cbn; auto)) as H1.
    pose proof (Hat (lit "executive summary") ltac:(cbn; auto)) as H2.
    unfold abstract_words. cbn [heading_at]. rewrite H1, H2. reflexivity. }
  assert (Hc : find_heading conclusion_words text = find_heading [lit "summary"] text).
  { apply find_heading_ext. intros pre s' E. specialize (Hat pre s' E).
    rewrite heading_at_none in Hat.
    pose proof (Hat (lit "conclusion") ltac:(cbn; auto)) as H1.
    pose proof (Hat (lit "findings") ltac:(cbn; auto)) as H2.
    unfold conclusion_words. cbn [heading_at]. rewrite H1, H2. reflexivity. }
  destruct (find_heading [lit "summary"] text) as [tail|] eqn:Hf; [|now elim Hs].
  destruct (rules_spec text) as [data [_ E]].
  exists (rule_dashboard text (rule_sections text data)),
    (heading_section (lit "abstract") (lit "Abstract") tail),
    (heading_section (lit "conclusion") (lit "Conclusion") tail).
  split; [exact E|].
  cbn [rule_dashboard sections]. unfold rule_sections. rewrite Ha, Hc.
  split; [reflexivity|]. split; [reflexivity|].
  split; [now rewrite !app_assoc, rev_unit|].
  split; reflexivity.
Qed.

Lemma summary_heading_twice_witness :
  has_heading [lit "summary"] (lit "Summary: all is well.")
  /\ ~ has_heading [lit "abstract"; lit "executive summary"; lit "conclusion"; lit "findings"]
         (lit "Summary: all is well.")
  /\ exists d a c,
       _analyze_with_rules (lit "Summary: all is well.") = Ok d
       /\ hd_error (sections d) = Some a /\ sec_id a = lit "abstract"
       /\ hd_error (rev (sections d)) = Some c /\ sec_id c = lit "conclusion"
       /\ content_html a = content_html c.
Proof.
  assert (H1 : has_heading [lit "summary"] (lit "Summary: all is well.")).
  { exists [], (lit "Summary"), ":"%char, (lit " all is well."), (lit "summary").
    repeat split. cbn. auto. }
  assert (H2 : ~ has_heading
                 [lit "abstract"; lit "executive summary"; lit "conclusion"; lit "findings"]
                 (lit "Summary: all is well.")).
  { rewrite has_heading_iff. intros H. apply H. reflexivity. }
  split; [exact H1|]. split; [exact H2|].
  exact (summary_heading_twice H1 H2).
Defined.

(* ================================================================== *)
(** ** Tables, heat map and flow diagram *)
(* ================================================================== *)

Lemma lstrip_idem (s : str) : lstrip (lstrip s) = lstrip s.
Proof.
  pose proof (lstrip_head s) as H. destruct (lstrip s) as [|c t]; [reflexivity|].
  cbn [lstrip]. now rewrite H.
Qed.

Lemma rstrip_idem (s : str) : rstrip (rstrip s) = rstrip s.
Proof. unfold rstrip. now rewrite rev_involutive, lstrip_idem. Qed.

(** Stripping twice changes nothing more. *)
Lemma strip_idem (s : str) : strip (strip s) = strip s.
Proof.
  unfold strip.
  assert (H : lstrip (rstrip (lstrip s)) = rstrip (lstrip s)).
  { pose proof (lstrip_head s) as Hh.
    destruct (rstrip_prefix (lstrip s)) as [ws [E _]].
    destruct (rstrip (lstrip s)) as [|c r]; [reflexivity|].
    rewrite E in Hh. cbn [app] in Hh. cbn [lstrip]. now rewrite Hh. }
  now rewrite H, rstrip_idem.
Qed.

Lemma In_lstrip (c : ascii) (s : str) : In c (lstrip s) -> In c s.
Proof.
  destruct (lstrip_suffix s) as [ws [E _]]. intros H. rewrite E.
  apply in_or_app. now right.
Qed.

Lemma In_strip (c : ascii) (s : str) : In c (strip s) -> In c s.
Proof.
  unfold strip, rstrip. intros H. apply in_rev in H. apply In_lstrip in H.
  apply in_rev in H. now apply In_lstrip.
Qed.

Lemma In_runs (lines : list str) (run : list str) (l : str) :
  In run (runs lines) -> In l run -> In l lines.
Proof.
  revert run. induction lines as [|l0 lines IH]; intros run; cbn [runs].
  - intros [<- | []] [].
  - destruct (qualifying l0).
    + destruct (runs lines) as [|r rs] eqn:Er; [now apply runs_not_nil in Er|].
      intros [<- | Hin] Hl.
      * destruct Hl as [<- | Hl]; [now left|]. right. apply (IH r); [now left | exact Hl].
      * right. apply (IH run); [now right | exact Hl].
    + intros [<- | Hin] Hl; [destruct Hl|]. right. now apply (IH run).
Qed.

Lemma row_cells_cell (line cell : str) :
  In cell (row_cells line) ->
  cell <> [] /\ strip cell = cell /\ forall c, In c cell -> In c line.
Proof.
  assert (H : forall sep, In cell (filter truthy (map strip (split sep line))) ->
                          cell <> [] /\ strip cell = cell
                          /\ forall c, In c cell -> In c line).
  { intros sep Hin. apply filter_In in Hin. destruct Hin as [Hin Ht].
    apply in_map_iff in Hin. destruct Hin as [piece [<- Hp]].
    split; [now destruct (strip piece)|]. split; [apply strip_idem|].
    intros c Hc. apply In_strip in Hc. now apply (proj2 (In_split _ _ _ Hp)). }
  unfold row_cells. destruct (contains_char "|"%char line); apply H.
Qed.

(** X14. Every table the extractor returns is well formed: it has a header
    and at least one body row; every row has at least two cells; every
    cell is non-empty, carries no surrounding white space and lies within
    one line of the text. *)
Theorem tables_well_formed (text : str) (t : Table) :
  In t (_extract_tabular_data text) ->
  rows t <> []
  /\ forall row, row = headers t \/ In row (rows t) ->
       2 <= length row
       /\ forall cell, In cell row ->
            cell <> [] /\ strip cell = cell /\ ~ In LF cell.
Proof.
  rewrite extract_tabular_runs. unfold tables_of_runs. intros Hin.
  apply in_flat_map in Hin. destruct Hin as [run [Hrun Ht]].
  destruct (rows_of_run run) as [|h [|r1 rest]] eqn:Er; cbn [table_of_rows] in Ht;
    try contradiction.
  destruct Ht as [<- | []]. cbn [rows headers]. split; [discriminate|].
  intros row Hrow.
  assert (Hr : In row (rows_of_run run)).
  { rewrite Er. destruct Hrow as [-> | Hrow]; [now left | now right]. }
  unfold rows_of_run in Hr. apply filter_In in Hr. destruct Hr as [Hr Hlen].
  apply Nat.leb_le in Hlen. split; [exact Hlen|].
  apply in_map_iff in Hr. destruct Hr as [line [<- Hline]].
  intros cell Hcell. destruct (row_cells_cell _ _ Hcell) as [H1 [H2 H3]].
  split; [exact H1|]. split; [exact H2|].
  intros HLF. apply H3 in HLF.
  pose proof (In_runs _ _ _ Hrun Hline) as Hl.
  now apply (proj1 (In_split _ _ _ Hl)).
Qed.

Lemma tables_well_formed_witness :
  In {| headers := [lit "a"; lit "b"]; rows := [[lit "1"; lit "2"]] |}
     (_extract_tabular_data (lit " a | b " ++ [LF] ++ lit "1 |2" ++ [LF] ++ lit "end"))
  /\ [[lit "1"; lit "2"]] <> []
  /\ forall row, row = [lit "a"; lit "b"] \/ In row [[lit "1"; lit "2"]] ->
       2 <= length row
       /\ forall cell, In cell row ->
            cell <> [] /\ strip cell = cell /\ ~ In LF cell.
Proof.
  assert (H : In {| headers := [lit "a"; lit "b"]; rows := [[lit "1"; lit "2"]] |}
                 (_extract_tabular_data
                    (lit " a | b " ++ [LF] ++ lit "1 |2" ++ [LF] ++ lit "end")))
    by (left; reflexivity).
  split; [exact H|].
  exact (@tables_well_formed
           (lit " a | b " ++ [LF] ++ lit "1 |2" ++ [LF] ++ lit "end")
           {| headers := [lit "a"; lit "b"]; rows := [[lit "1"; lit "2"]] |} H).
Defined.

Lemma numbered_seq (prefix : str) (n : nat) :
  numbered prefix n = map (fun i => prefix ++ str_of_nat i) (seq 1 n).
Proof.
  unfold numbered. rewrite <- seq_shift, map_map.
  apply map_ext. intros i. now rewrite Nat.add_1_r.
Qed.

Lemma chunk_rows (rows cols : nat) :
  forall xs : list binary64,
    length xs = rows * cols ->
    Forall (fun row => length row = cols) (chunk rows cols xs).
Proof.
  induction rows as [|rows IH]; intros xs Hlen; cbn [chunk]; constructor.
  - rewrite length_firstn. cbn [Nat.mul] in Hlen. lia.
  - apply IH. rewrite length_skipn. cbn [Nat.mul] in Hlen. lia.
Qed.

(** X15. A heat map, when there is one, is a square of side 3, 4 or 5 (the
    integer square root of the number of numeric tokens, at most 5), so
    it shows at most 25 values; its columns are labelled [Metric 1 ..]
    and its rows [Category 1 ..], one label per column and per row. *)
Theorem heatmap_shape (text : str) (hm : Heatmap) :
  _generate_heatmap_data text = Some hm ->
  exists side,
    side = Nat.min 5 (Nat.sqrt (length (numeric_tokens text)))
    /\ 3 <= side <= 5
    /\ side * side <= length (numeric_tokens text)
    /\ length (hm_z hm) = side
    /\ Forall (fun row => length row = side) (hm_z hm)
    /\ hm_x hm = map (fun i => lit "Metric " ++ str_of_nat i) (seq 1 side)
    /\ hm_y hm = map (fun i => lit "Category " ++ str_of_nat i) (seq 1 side)
    /\ hm_type hm = lit "heatmap"
    /\ colorscale hm = lit "Viridis".
Proof.
  destruct (length (numeric_tokens text) <? 9) eqn:E9.
  { unfold _generate_heatmap_data. fold (numeric_tokens text). rewrite E9. discriminate. }
  apply Nat.ltb_ge in E9.
  destruct (heatmap_spec text E9) as [data [_ [Hlen E]]]. rewrite E.
  intros H. injection H as <-. cbn [hm_z hm_x hm_y hm_type colorscale].
  exists (Nat.min 5 (Nat.sqrt (length (numeric_tokens text)))).
  split; [reflexivity|]. split.
  { pose proof (Nat.sqrt_le_mono _ _ E9) as Hs.
    change (Nat.sqrt 9) with 3 in Hs. lia. }
  split; [apply side_square_le|].
  split; [apply chunk_length|].
  split; [now apply chunk_rows|].
  rewrite !numbered_seq. now repeat split.
Qed.

Lemma heatmap_shape_witness :
  exists hm side,
    _generate_heatmap_data (lit "1 2 3 4 5 6 7 8 9 10 11 12") = Some hm
    /\ side = Nat.min 5 (Nat.sqrt (length (numeric_tokens (lit "1 2 3 4 5 6 7 8 9 10 11 12"))))
    /\ 3 <= side <= 5
    /\ length (hm_z hm) = side
    /\ hm_y hm = map (fun i => lit "Category " ++ str_of_nat i) (seq 1 side).
Proof.
  destruct (_generate_heatmap_data (lit "1 2 3 4 5 6 7 8 9 10 11 12")) as [hm|] eqn:E;
    [|vm_compute in E; discriminate].
  destruct (heatmap_shape _ E) as [side [H1 [H2 [_ [H4 [_ [_ [H7 _]]]]]]]].
  exists hm, side. split; [reflexivity|]. split; [exact H1|]. split; [exact H2|].
  split; [exact H4 | exact H7].
Defined.

Lemma flow_keywords_lower (kw : str) : In kw flow_keywords -> lower kw = kw.
Proof.
  intros H. cbn in H.
  repeat (destruct H as [<- | H]; [reflexivity|]). contradiction.
Qed.

Lemma contains_lower (kw text : str) :
  lower kw = kw ->
  (contains kw (lower text) = true <-> holds_word kw text).
Proof.
  intros Hk. rewrite contains_iff. unfold holds_word, same_word. split.
  - intros [a [b E]]. unfold lower in E.
    apply map_eq_app in E. destruct E as [pre [rest [Et [Ha E]]]].
    apply map_eq_app in E. destruct E as [tok [post [Er [Htok Hb]]]].
    exists pre, tok, post. split; [now rewrite Et, Er|].
    rewrite Hk. exact Htok.
  - intros [pre [tok [post [Et Hs]]]].
    exists (lower pre), (lower post). subst text.
    now rewrite !lower_app, Hs, Hk.
Qed.

(** X16. The flow diagram is made exactly when the text holds one of the words
    [from], [to], [flow], [transfer], [allocation], [budget] in any letter
    case, anywhere, also inside a longer word.  Its content never depends
    on the text: two texts that get a diagram get the same one. *)
Theorem sankey_trigger (text : str) :
  (_generate_sankey_data text <> None
   <-> exists kw, In kw flow_keywords /\ holds_word kw text)
  /\ forall text',
       _generate_sankey_data text <> None ->
       _generate_sankey_data text' <> None ->
       _generate_sankey_data text = _generate_sankey_data text'.
Proof.
  split.
  - unfold _generate_sankey_data.
    destruct (existsb (fun keyword => contains keyword (lower text)) flow_keywords) eqn:E;
      cbn [negb].
    + split; [intros _ | discriminate].
      apply existsb_exists in E. destruct E as [kw [Hin Hc]].
      exists kw. split; [exact Hin|]. now apply contains_lower; [apply flow_keywords_lower|].
    + split; [intros H; now elim H|].
      intros [kw [Hin Hw]]. exfalso.
      assert (existsb (fun keyword => contains keyword (lower text)) flow_keywords = true).
      { apply existsb_exists. exists kw. split; [exact Hin|].
        now apply contains_lower; [apply flow_keywords_lower|]. }
      congruence.
  - intros text'. unfold _generate_sankey_data.
    destruct (existsb _ flow_keywords); cbn [negb]; [|intros H; now elim H].
    destruct (existsb _ flow_keywords); cbn [negb]; [reflexivity | intros _ H; now elim H].
Qed.

Lemma sankey_trigger_witness :
  _generate_sankey_data (lit "Photo gallery") <> None
  /\ _generate_sankey_data (lit "BUDGET 2024") <> None
  /\ _generate_sankey_data (lit "Photo gallery") = _generate_sankey_data (lit "BUDGET 2024").
Proof.
  assert (H1 : _generate_sankey_data (lit "Photo gallery") <> None) by (vm_compute; discriminate).
  assert (H2 : _generate_sankey_data (lit "BUDGET 2024") <> None) by (vm_compute; discriminate).
  split; [exact H1|]. split; [exact H2|].
  exact (proj2 (sankey_trigger (lit "Photo gallery")) (lit "BUDGET 2024") H1 H2).
Defined.

(* ================================================================== *)
(** ** The chat *)
(* ================================================================== *)

Lemma slice_to_app (n : N) (head tail : str) :
  length head = N.to_nat n -> slice_to n (head ++ tail) = head.
Proof.
  intros H. unfold slice_to. rewrite <- H.
  rewrite firstn_app, Nat.sub_diag, firstn_all. cbn [firstn]. apply app_nil_r.
Qed.

(** X17. The chat raises exactly when the analyzer has no client (then with
    an [AttributeError]); with a client it always returns a string, a
    failure of the call being turned into an answer.  The question is
    answered from the first 20000 characters of the document only: what
    follows them plays no part. *)
Theorem chat_with_document_answers (w : World) (self : DocumentAnalyzer)
        (question : str) :
  (forall text,
      (exists e, chat_with_document w self text question = Raise e)
      <-> client self = Unset)
  /\ (forall text e,
         chat_with_document w self text question = Raise e ->
         exn_cls e = AttributeError)
  /\ forall head tail tail',
       length head = N.to_nat 20000 ->
       chat_with_document w self (head ++ tail) question
       = chat_with_document w self (head ++ tail') question.
Proof.
  unfold chat_with_document, get_client, object_truthy.
  destruct (client self) as [|c]; cbn [bind negb try_except].
  - split; [intros text; split; [reflexivity | intros _; eexists; reflexivity]|].
    split; [intros text e H; now injection H as <- | reflexivity].
  - split; [|split].
    + intros text. split; [|discriminate]. intros [e H].
      destruct (chat_completions_create c _); cbn [bind try_except] in H; discriminate.
    + intros text e H.
      destruct (chat_completions_create c _); cbn [bind try_except] in H; discriminate.
    + intros head tail tail' H.
      now rewrite (slice_to_app _ _ tail H), (slice_to_app _ _ tail' H).
Qed.

Lemma chat_with_document_answers_witness :
  length (repeat "a"%char (N.to_nat 20000)) = N.to_nat 20000
  /\ chat_with_document (failing_world default_config timeout) (groq_analyzer echo_client)
       (repeat "a"%char (N.to_nat 20000) ++ lit "first") (lit "What follows?")
     = chat_with_document (failing_world default_config timeout) (groq_analyzer echo_client)
         (repeat "a"%char (N.to_nat 20000) ++ lit "second") (lit "What follows?").
Proof.
  assert (H : length (repeat "a"%char (N.to_nat 20000)) = N.to_nat 20000)
    by apply repeat_length.
  split; [exact H|].
  exact (proj2 (proj2 (chat_with_document_answers (failing_world default_config timeout)
                         (groq_analyzer echo_client) (lit "What follows?")))
           (repeat "a"%char (N.to_nat 20000)) (lit "first") (lit "second") H).
Defined.

(* ================================================================== *)
(** ** Markdown fences *)
(* ================================================================== *)

Lemma scan_no_match (fl : flags) (r : regex) (P : str -> Prop) :
  (forall c s, P (c :: s) -> P s) ->
  (forall bef aft, P aft -> match_at false fl r (Cursor bef aft) = None) ->
  forall (aft : str) (skip : nat) (bef : str), P aft -> scan fl r skip bef aft = [].
Proof.
  intros Htl Hno. induction aft as [|c aft IH]; intros skip bef HP.
  - destruct skip; cbn [scan]; [|reflexivity]. now rewrite (Hno bef [] HP).
  - destruct skip; cbn [scan].
    + rewrite (Hno bef (c :: aft) HP). apply IH. now apply Htl in HP.
    + apply IH. now apply Htl in HP.
Qed.

Lemma scan_bos (fl : flags) (r : regex) :
  forall (aft : str) (skip : nat) (bef : str),
    bef <> [] -> scan fl (Cat Bos r) skip bef aft = [].
Proof.
  assert (Hno : forall bef aft, bef <> [] ->
                                match_at false fl (Cat Bos r) (Cursor bef aft) = None).
  { intros bef aft Hb. unfold match_at. rewrite m_Cat. cbn [m before].
    destruct bef; [contradiction | reflexivity]. }
  induction aft as [|c aft IH]; intros skip bef Hb.
  - destruct skip; cbn [scan]; [|reflexivity]. now rewrite (Hno bef [] Hb).
  - destruct skip; cbn [scan].
    + rewrite (Hno bef (c :: aft) Hb). now apply IH.
    + now apply IH.
Qed.

Lemma scan_skip (fl : flags) (r : regex) (a : str) :
  forall bef aft,
    scan fl r (length a) bef (a ++ aft) = scan fl r 0 (rev_append a bef) aft.
Proof.
  induction a as [|c a IH]; intros bef aft; [reflexivity|].
  cbn [length app scan rev_append]. apply IH.
Qed.

Lemma lit_prefix_tick (w s : str) :
  lit_prefix no_flags ("`"%char :: w) s = true -> In "`"%char s.
Proof.
  destruct s as [|c s]; [discriminate|]. cbn [lit_prefix atom_ok no_flags IGNORECASE].
  intros H. apply andb_true_iff in H. destruct H as [H _].
  apply char_eqb_eq in H. subst. now left.
Qed.

Lemma lit_prefix_app (w rest : str) : lit_prefix no_flags w (w ++ rest) = true.
Proof.
  induction w as [|c w IH]; [reflexivity|].
  cbn [app lit_prefix atom_ok no_flags IGNORECASE]. now rewrite char_eqb_refl, IH.
Qed.

Lemma firstn_length_app {A : Type} (a b : list A) : firstn (length a) (a ++ b) = a.
Proof. induction a as [|x a IH]; [reflexivity|]. cbn [length app firstn]. now rewrite IH. Qed.

Lemma skipn_length_app {A : Type} (a b : list A) : skipn (length a) (a ++ b) = b.
Proof. induction a as [|x a IH]; [reflexivity|]. exact IH. Qed.

(** An opening fence matches only at a backtick, and only at the start. *)
Lemma fence_open_at (tag bef aft : str) :
  lit_prefix no_flags (lit "```" ++ tag) aft = false ->
  match_at false no_flags (fence_open_re tag) (Cursor bef aft) = None.
Proof.
  intros H. unfold match_at, fence_open_re. rewrite m_Cat. cbn [m before].
  destruct bef; [|reflexivity]. now rewrite ?m_Cat, m_Lit, H.
Qed.

Lemma sub_no_open_fence (tag s : str) :
  lit_prefix no_flags (lit "```" ++ tag) s = false ->
  sub no_flags (fence_open_re tag) [] s = s.
Proof.
  intros H. unfold sub, finditer.
  assert (E : scan no_flags (fence_open_re tag) 0 [] s = []).
  { destruct s as [|c s]; cbn [scan]; rewrite (fence_open_at tag [] _ H); [reflexivity|].
    apply scan_bos. discriminate. }
  now rewrite E.
Qed.

(** A closing fence needs a backtick. *)
Lemma fence_close_at (bef aft : str) (mt : Match) :
  match_at false no_flags fence_close_re (Cursor bef aft) = Some mt ->
  exists pre post,
    aft = pre ++ "`"%char :: post /\ forallb isspace pre = true.
Proof.
  unfold match_at, fence_close_re. rewrite m_Cat, m_Star. intros H.
  apply star_run_inv in H. destruct H as [pre [post [E [Hsp H]]]].
  rewrite m_Cat, m_Lit in H.
  destruct (lit_prefix no_flags (lit "```") post) eqn:Hl; [|discriminate].
  destruct post as [|c post]; [discriminate|].
  cbn [lit list_ascii_of_string lit_prefix atom_ok no_flags IGNORECASE] in Hl.
  apply andb_true_iff in Hl. destruct Hl as [Hc _]. apply char_eqb_eq in Hc. subst c.
  now exists pre, post.
Qed.

Lemma sub_no_tick (tag s : str) :
  ~ In "`"%char s ->
  sub no_flags (fence_open_re tag) [] s = s /\ sub no_flags fence_close_re [] s = s.
Proof.
  intros Hn. split.
  - apply sub_no_open_fence.
    destruct (lit_prefix no_flags (lit "```" ++ tag) s) eqn:E; [|reflexivity].
    exfalso. apply Hn. exact (lit_prefix_tick _ _ E).
  - unfold sub, finditer.
    rewrite (@scan_no_match no_flags fence_close_re (fun s => ~ In "`"%char s)); auto.
    + intros c s0 H Hin. apply H. now right.
    + intros bef aft H.
      destruct (match_at false no_flags fence_close_re (Cursor bef aft)) eqn:E;
        [|reflexivity].
      exfalso. destruct (fence_close_at _ _ E) as [pre [post [-> _]]].
      apply H, in_or_app. right. now left.
Qed.

(** X18. An answer without a backtick passes the removal of fences unchanged.
    So a Groq answer without one is returned trimmed, with the whole
    document text beside it, and a Gemini answer without one is parsed as
    it stands, trimmed; when it does not parse, the handler prints the
    error and the rule-based dashboard takes over. *)
Theorem fence_free_answer :
  (forall tag s, ~ In "`"%char s -> strip_fences tag s = s)
  /\ (forall (w : World) (self : DocumentAnalyzer) (c : GroqClient)
             (text custom_prompt summary_length content : str),
         client self = Bound c ->
         chat_completions_create c (groq_request w text custom_prompt summary_length)
         = Ok content ->
         ~ In "`"%char content ->
         _analyze_with_groq w self text custom_prompt summary_length
         = Ok (CustomHtml (strip content) text))
  /\ (forall (w : World) (self : DocumentAnalyzer) (g : GeminiModel)
             (text response : str),
         model self = Some (ModelGemini g) ->
         generate_content g (gemini_prompt text) = Ok response ->
         ~ In "`"%char response ->
         _analyze_with_gemini w self text
         = match json_loads w (strip response) with
           | Ok j => Ok (ParsedJson j)
           | Raise e => _ <- print w (GeminiApiError (exn_msg e)) ;; rules_result text
           end).
Proof.
  assert (H : forall tag s, ~ In "`"%char s -> strip_fences tag s = s).
  { intros tag s Hn. unfold strip_fences.
    rewrite (proj1 (sub_no_tick tag s Hn)), (proj1 (sub_no_tick [] s Hn)).
    exact (proj2 (sub_no_tick tag s Hn)). }
  split; [exact H|]. split.
  - intros w self c text cp sl content Hc Hcall Hn.
    unfold _analyze_with_groq, get_client. rewrite Hc. cbn [bind]. rewrite Hcall.
    cbn [bind try_except]. rewrite H; [reflexivity|].
    intros Hin. apply Hn. now apply In_strip.
  - intros w self g text response Hm Hcall Hn.
    unfold _analyze_with_gemini, model_generate_content. rewrite Hm, Hcall.
    cbn [bind]. rewrite H by (intros Hin; apply Hn; now apply In_strip).
    now destruct (json_loads w (strip response)).
Qed.

Lemma fence_free_answer_witness :
  client (groq_analyzer echo_client) = Bound echo_client
  /\ chat_completions_create echo_client
       (groq_request (failing_world default_config timeout) sample_report
          (lit "Focus on revenue") (lit "Brief"))
     = Ok ([LF] ++ lit "USER CUSTOM INSTRUCTIONS:" ++ [LF] ++ lit "Focus on revenue" ++ [LF]
           ++ lit "(Prioritize these instructions over default behavior)")
  /\ ~ In "`"%char
         ([LF] ++ lit "USER CUSTOM INSTRUCTIONS:" ++ [LF] ++ lit "Focus on revenue" ++ [LF]
          ++ lit "(Prioritize these instructions over default behavior)")
  /\ _analyze_with_groq (failing_world default_config timeout) (groq_analyzer echo_client)
       sample_report (lit "Focus on revenue") (lit "Brief")
     = Ok (CustomHtml
             (strip ([LF] ++ lit "USER CUSTOM INSTRUCTIONS:" ++ [LF]
                     ++ lit "Focus on revenue" ++ [LF]
                     ++ lit "(Prioritize these instructions over default behavior)"))
             sample_report).
Proof.
  assert (H : ~ In "`"%char
                ([LF] ++ lit "USER CUSTOM INSTRUCTIONS:" ++ [LF] ++ lit "Focus on revenue"
                 ++ [LF] ++ lit "(Prioritize these instructions over default behavior)")).
  { vm_compute. intros H. repeat (destruct H as [H | H]; [discriminate|]). exact H. }
  split; [reflexivity|]. split; [reflexivity|]. split; [exact H|].
  exact (proj1 (proj2 fence_free_answer) (failing_world default_config timeout)
           (groq_analyzer echo_client) echo_client sample_report
           (lit "Focus on revenue") (lit "Brief") _ eq_refl eq_refl H).
Defined.

Lemma first_occurrence {A : Type} (x : A) (a a' r r' : list A) :
  ~ In x a -> ~ In x a' -> a ++ x :: r = a' ++ x :: r' -> a = a'.
Proof.
  revert a'. induction a as [|y a IH]; intros a' Ha Ha' E.
  - destruct a' as [|y' a']; [reflexivity|].
    cbn [app] in E. injection E as E _. subst y'. exfalso. apply Ha'. now left.
  - destruct a' as [|y' a'].
    + cbn [app] in E. injection E as E _. subst y. exfalso. apply Ha. now left.
    + cbn [app] in E. injection E as E1 E2. subst y'. f_equal.
      apply IH; [intros H; apply Ha; now right | intros H; apply Ha'; now right | exact E2].
Qed.

Lemma scan_step_none (fl : flags) (r : regex) (bef aft : str) (c : ascii) :
  match_at false fl r (Cursor bef (c :: aft)) = None ->
  scan fl r 0 bef (c :: aft) = scan fl r 0 (c :: bef) aft.
Proof. intros H. cbn [scan]. now rewrite H. Qed.

Lemma scan_step_some (fl : flags) (r : regex) (bef aft : str) (c : ascii) (mt : Match) :
  match_at false fl r (Cursor bef (c :: aft)) = Some mt ->
  m_end mt <> m_start mt ->
  scan fl r 0 bef (c :: aft) = mt :: scan fl r (m_end mt - m_start mt - 1) (c :: bef) aft.
Proof.
  intros H Hne. cbn [scan]. rewrite H.
  apply Nat.eqb_neq in Hne. now rewrite Hne.
Qed.

Lemma scan_end_none (fl : flags) (r : regex) (bef : str) :
  match_at false fl r (Cursor bef []) = None -> scan fl r 0 bef [] = [].
Proof. intros H. cbn [scan]. now rewrite H. Qed.

(** The opening fence at the start of a string is removed together with
    the white space after it. *)
Lemma sub_open_fence (tag rest : str) (b : ascii) :
  isspace b = false ->
  sub no_flags (fence_open_re tag) [] ((lit "```" ++ tag) ++ LF :: b :: rest) = b :: rest.
Proof.
  intros Hb. set (w := lit "```" ++ tag).
  assert (Hm : exists mt,
             match_at false no_flags (fence_open_re tag) (Cursor [] (w ++ LF :: b :: rest))
             = Some mt
             /\ m_start mt = 0 /\ m_end mt = S (length w)).
  { unfold match_at, fence_open_re. fold w. rewrite m_Cat. cbn [m before].
    rewrite ?m_Cat, m_Lit, lit_prefix_app, firstn_length_app, skipn_length_app.
    cbv beta match. cbn [before after].
    rewrite greedy_run; cbn [take_while drop_while];
      change (isspace LF) with true; cbv iota; rewrite Hb.
    - eexists. split; [reflexivity|]. cbn [m_start m_end position before length].
      split; [reflexivity|]. cbn [rev_append length]. now rewrite rev_append_length, Nat.add_0_r.
    - discriminate. }
  destruct Hm as [mt [Hm [Hs He]]].
  unfold sub, finditer.
  assert (Hscan : scan no_flags (fence_open_re tag) 0 [] (w ++ LF :: b :: rest) = [mt]).
  { destruct w as [|c w'] eqn:Ew; [discriminate|].
    cbn [app] in Hm |- *. rewrite (@scan_step_some _ _ _ _ _ _ Hm) by (rewrite He, Hs; discriminate).
    rewrite He, Hs.
    f_equal. cbn [length Nat.sub].
    replace (w' ++ LF :: b :: rest) with ((w' ++ [LF]) ++ b :: rest)
      by (now rewrite <- app_assoc).
    replace (S (length w')) with (length (w' ++ [LF]))
      by (rewrite length_app; cbn [length]; lia).
    rewrite scan_skip. apply scan_bos.
    intros H. apply (f_equal (@length ascii)) in H.
    rewrite rev_append_length in H. cbn [length] in H. lia. }
  fold w. rewrite Hscan. cbn [splice]. rewrite Hs, He. cbn [Nat.sub firstn app].
  replace (w ++ LF :: b :: rest) with ((w ++ [LF]) ++ b :: rest) by (now rewrite <- app_assoc).
  replace (S (length w)) with (length (w ++ [LF])) by (rewrite length_app; cbn [length]; lia).
  apply skipn_length_app.
Qed.

(** Inside a body without backticks that ends in a visible character, no
    closing fence starts. *)
Lemma fence_close_inside (bef body : str) (z : ascii) :
  ~ In "`"%char (body ++ [z]) -> isspace z = false ->
  match_at false no_flags fence_close_re (Cursor bef ((body ++ [z]) ++ LF :: lit "```"))
  = None.
Proof.
  intros Hn Hz.
  destruct (match_at false no_flags fence_close_re
              (Cursor bef ((body ++ [z]) ++ LF :: lit "```"))) as [mt|] eqn:E;
    [|reflexivity].
  exfalso. destruct (fence_close_at _ _ E) as [pre [post [Eaft Hsp]]].
  assert (Hpre : ~ In "`"%char pre).
  { intros Hin. rewrite forallb_forall in Hsp. specialize (Hsp _ Hin). discriminate. }
  assert (Hb : ~ In "`"%char ((body ++ [z]) ++ [LF])).
  { intros Hin. apply in_app_or in Hin. destruct Hin as [Hin | [Hin | []]];
      [now apply Hn | discriminate]. }
  replace ((body ++ [z]) ++ LF :: lit "```")
    with (((body ++ [z]) ++ [LF]) ++ "`"%char :: lit "``") in Eaft
    by (now rewrite <- app_assoc).
  pose proof (@first_occurrence _ _ _ _ _ _ Hb Hpre Eaft) as Ep. subst pre.
  rewrite !forallb_app in Hsp. cbn [forallb] in Hsp. rewrite Hz in Hsp.
  rewrite !andb_false_r in Hsp. cbn [andb] in Hsp. discriminate.
Qed.

Lemma scan_close_fence (z : ascii) (body : str) :
  forall bef,
    ~ In "`"%char (body ++ [z]) -> isspace z = false ->
    exists mt,
      scan no_flags fence_close_re 0 bef ((body ++ [z]) ++ LF :: lit "```") = [mt]
      /\ m_start mt = length bef + length (body ++ [z])
      /\ m_end mt = m_start mt + 4.
Proof.
  induction body as [|c body IH]; intros bef Hn Hz.
  - pose proof (fence_close_inside bef [] z Hn Hz) as Hnone.
    cbn [app] in *.
    rewrite (@scan_step_none _ _ _ _ _ Hnone).
    assert (Hm : exists mt,
               match_at false no_flags fence_close_re (Cursor (z :: bef) (LF :: lit "```"))
               = Some mt
               /\ m_start mt = S (length bef) /\ m_end mt = S (length bef) + 4).
    { eexists. split; [cbn; reflexivity|]. cbn [m_start m_end]. split; [reflexivity | lia]. }
    destruct Hm as [mt [Hm [H1 H2]]].
    rewrite (@scan_step_some _ _ _ _ _ _ Hm) by lia.
    replace (scan no_flags fence_close_re (m_end mt - m_start mt - 1) (LF :: z :: bef)
               (lit "```"))
      with (scan no_flags fence_close_re (length (lit "```")) (LF :: z :: bef)
              (lit "```" ++ []))
      by (rewrite app_nil_r; f_equal; rewrite H2, H1;
          cbn [lit list_ascii_of_string length]; lia).
    rewrite scan_skip, scan_end_none.
    + exists mt. split; [reflexivity|]. rewrite H2, H1. cbn [length]. lia.
    + destruct (match_at false no_flags fence_close_re _) as [mt'|] eqn:E; [|reflexivity].
      destruct (fence_close_at _ _ E) as [pre [post [Ea _]]]. now destruct pre.
  - assert (Hn' : ~ In "`"%char (body ++ [z])) by (intros H; apply Hn; now right).
    pose proof (fence_close_inside bef (c :: body) z Hn Hz) as Hnone.
    cbn [app] in *. rewrite (@scan_step_none _ _ _ _ _ Hnone).
    destruct (IH (c :: bef) Hn' Hz) as [mt [Hs [H1 H2]]].
    exists mt. split; [exact Hs|]. split; [|exact H2].
    rewrite H1. cbn [length]. lia.
Qed.

(** The closing fence after such a body is removed together with the
    newline before it. *)
Lemma sub_close_fence (body : str) (z : ascii) :
  ~ In "`"%char (body ++ [z]) -> isspace z = false ->
  sub no_flags fence_close_re [] ((body ++ [z]) ++ LF :: lit "```") = body ++ [z].
Proof.
  intros Hn Hz. unfold sub, finditer.
  destruct (scan_close_fence z body [] Hn Hz) as [mt [Hs [H1 H2]]].
  rewrite Hs. cbn [splice]. rewrite H2, H1. cbn [length Nat.add]. rewrite !Nat.sub_0_r.
  rewrite firstn_length_app.
  replace (length (body ++ [z]) + 4) with (length ((body ++ [z]) ++ LF :: lit "```"))
    by (rewrite (length_app (body ++ [z])); reflexivity).
  now rewrite skipn_all, !app_nil_r.
Qed.

(** A non-empty string that [strip] leaves alone starts and ends with a
    visible character. *)
Lemma stripped_ends (s : str) :
  s <> [] -> strip s = s ->
  (exists b rest, s = b :: rest /\ isspace b = false)
  /\ (exists body z, s = body ++ [z] /\ isspace z = false).
Proof.
  intros Hne Hs. split.
  - destruct s as [|b rest]; [contradiction|]. exists b, rest. split; [reflexivity|].
    pose proof (lstrip_head (b :: rest)) as Hh.
    destruct (rstrip_prefix (lstrip (b :: rest))) as [ws [E _]].
    fold (strip (b :: rest)) in E. rewrite Hs in E. rewrite E in Hh. exact Hh.
  - pose proof (lstrip_head (rev (lstrip s))) as Hh.
    assert (E : rev s = lstrip (rev (lstrip s))).
    { rewrite <- Hs at 1. unfold strip, rstrip. now rewrite rev_involutive. }
    rewrite <- E in Hh. destruct (rev s) as [|z r] eqn:Er.
    + apply (f_equal (@rev ascii)) in Er. rewrite rev_involutive in Er. contradiction.
    + exists (rev r), z. split; [|exact Hh].
      apply (f_equal (@rev ascii)) in Er. now rewrite rev_involutive in Er.
Qed.

Lemma strip_visible (b z : ascii) (mid : str) :
  isspace b = false -> isspace z = false ->
  strip (b :: mid ++ [z]) = b :: mid ++ [z].
Proof.
  intros Hb Hz. unfold strip. cbn [lstrip]. rewrite Hb. unfold rstrip.
  change (b :: mid ++ [z]) with ((b :: mid) ++ [z]).
  rewrite rev_unit. cbn [lstrip]. rewrite Hz.
  now rewrite <- rev_unit, rev_involutive.
Qed.

Lemma strip_fenced (tag body : str) : strip (fenced tag body) = fenced tag body.
Proof.
  unfold fenced.
  replace (lit "```" ++ tag ++ [LF] ++ body ++ [LF] ++ lit "```")
    with ("`"%char :: (lit "``" ++ tag ++ [LF] ++ body ++ [LF] ++ lit "``") ++ ["`"%char])
    by (cbn [lit list_ascii_of_string app];
        repeat (first [progress cbn [app] | rewrite <- app_assoc]); reflexivity).
  now apply strip_visible.
Qed.

(** X19. A fenced answer is unwrapped.  When the answer is a body between an
    opening fence (with the tag of the path, or without a tag) and a
    closing fence, each on a line of its own, the removal of fences gives
    back the body, provided the body holds no backtick and neither starts
    nor ends with white space.  So a Groq answer fenced as [html] yields
    exactly the page inside the fence. *)
Theorem fenced_answer_unwrapped (body : str) :
  body <> [] -> strip body = body -> ~ In "`"%char body ->
  (forall tag, strip_fences tag (strip (fenced tag body)) = body)
  /\ strip_fences (lit "html") (strip (fenced [] body)) = body
  /\ strip_fences (lit "json") (strip (fenced [] body)) = body
  /\ forall (w : World) (self : DocumentAnalyzer) (c : GroqClient)
            (text custom_prompt summary_length : str),
       client self = Bound c ->
       chat_completions_create c (groq_request w text custom_prompt summary_length)
       = Ok (fenced (lit "html") body) ->
       _analyze_with_groq w self text custom_prompt summary_length
       = Ok (CustomHtml body text).
Proof.
  intros Hne Hs Hn.
  destruct (stripped_ends Hne Hs) as [[b [rest [Eb Hb]]] [body0 [z [Ez Hz]]]].
  assert (Hbt : char_eqb b "`"%char = false).
  { destruct (char_eqb b "`"%char) eqn:E; [|reflexivity].
    apply char_eqb_eq in E. subst b. exfalso. apply Hn. rewrite Eb. now left. }
  assert (Hclose : sub no_flags fence_close_re [] (body ++ LF :: lit "```") = body).
  { rewrite Ez. apply sub_close_fence; [now rewrite <- Ez | exact Hz]. }
  assert (Hnone : sub no_flags (fence_open_re []) [] (body ++ LF :: lit "```")
                  = body ++ LF :: lit "```").
  { apply sub_no_open_fence. rewrite Eb.
    cbn [lit list_ascii_of_string app lit_prefix atom_ok no_flags IGNORECASE].
    now rewrite Hbt. }
  assert (Hopen : forall tag,
             sub no_flags (fence_open_re tag) [] (fenced tag body) = body ++ LF :: lit "```").
  { intros tag. unfold fenced.
    replace (lit "```" ++ tag ++ [LF] ++ body ++ [LF] ++ lit "```")
      with ((lit "```" ++ tag) ++ LF :: b :: rest ++ LF :: lit "```")
      by (rewrite Eb, <- !app_assoc; reflexivity).
    rewrite (sub_open_fence tag _ b Hb). now rewrite Eb. }
  assert (Htag : forall tag, strip_fences tag (strip (fenced tag body)) = body).
  { intros tag. rewrite strip_fenced. unfold strip_fences.
    now rewrite Hopen, Hnone, Hclose. }
  assert (Hbare : forall t tag,
             char_eqb LF t = false ->
             strip_fences (t :: tag) (strip (fenced [] body)) = body).
  { intros t tag Hl. rewrite strip_fenced. unfold strip_fences.
    rewrite (sub_no_open_fence (t :: tag) (fenced [] body)).
    - now rewrite Hopen, Hclose.
    - unfold fenced.
      cbn [lit list_ascii_of_string app lit_prefix atom_ok no_flags IGNORECASE].
      rewrite !char_eqb_refl, Hl. reflexivity. }
  split; [exact Htag|]. split; [now apply Hbare|]. split; [now apply Hbare|].
  intros w self c text cp sl Hc Hcall.
  unfold _analyze_with_groq, get_client. rewrite Hc. cbn [bind]. rewrite Hcall.
  cbn [bind try_except]. now rewrite Htag.
Qed.

Lemma fenced_answer_unwrapped_witness :
  lit "<p>x</p>" <> []
  /\ strip (lit "<p>x</p>") = lit "<p>x</p>"
  /\ ~ In "`"%char (lit "<p>x</p>")
  /\ strip_fences (lit "html") (strip (fenced (lit "html") (lit "<p>x</p>"))) = lit "<p>x</p>"
  /\ strip_fences (lit "html") (strip (fenced [] (lit "<p>x</p>"))) = lit "<p>x</p>".
Proof.
  assert (H1 : lit "<p>x</p>" <> []) by discriminate.
  assert (H2 : strip (lit "<p>x</p>") = lit "<p>x</p>") by reflexivity.
  assert (H3 : ~ In "`"%char (lit "<p>x</p>")).
  { vm_compute. intros H. repeat (destruct H as [H | H]; [discriminate|]). exact H. }
  split; [exact H1|]. split; [exact H2|]. split; [exact H3|].
  destruct (fenced_answer_unwrapped H1 H2 H3) as [Ha [Hb _]].
  split; [apply Ha | exact Hb].
Defined.

(* ================================================================== *)
(** ** The web application *)
(* ================================================================== *)

Lemma replace_from_skip (old new a : str) :
  forall s, replace_from old new (length a) (a ++ s) = replace_from old new 0 s.
Proof.
  induction a as [|c a IH]; intros s; cbn [length app].
  - now destruct s.
  - cbn [replace_from]. apply IH.
Qed.

Lemma startswith_app (p s t : str) :
  startswith p s = true -> startswith p (s ++ t) = true.
Proof.
  revert s. induction p as [|x p IH]; intros s; [reflexivity|].
  destruct s as [|y s]; cbn [startswith app]; [discriminate|].
  intros H. apply andb_true_iff in H. destruct H as [H1 H2].
  now rewrite H1, (IH _ H2).
Qed.

(** No occurrence starts inside [pre], not even one that runs beyond it. *)
Lemma no_start_contains (old pre t : str) :
  old <> [] ->
  (forall i, i < length pre -> startswith old (skipn i (pre ++ t)) = false) ->
  contains old pre = false.
Proof.
  intros Hne. induction pre as [|c pre IH]; intros H.
  - destruct old as [|o old]; [contradiction | reflexivity].
  - cbn [contains]. apply orb_false_iff. split.
    + destruct (startswith old (c :: pre)) eqn:E; [|reflexivity].
      apply (startswith_app _ _ t) in E.
      specialize (H 0 ltac:(cbn [length]; lia)). cbn [skipn] in H. congruence.
    + apply IH. intros i Hi.
      specialize (H (S i) ltac:(cbn [length]; lia)). exact H.
Qed.

Lemma replace_from_none (old new : str) (s : str) :
  contains old s = false -> replace_from old new 0 s = s.
Proof.
  induction s as [|c s IH]; [reflexivity|].
  cbn [contains replace_from]. intros H. apply orb_false_iff in H.
  destruct H as [H1 H2]. rewrite H1. now rewrite (IH H2).
Qed.

(** The occurrence at the first position where one starts is replaced,
    what precedes it is kept, and what follows it is treated alike. *)
Lemma replace_first (old new : str) :
  old <> [] ->
  forall s,
    contains old s = true ->
    exists pre post,
      s = pre ++ old ++ post
      /\ (forall i, i < length pre -> startswith old (skipn i s) = false)
      /\ replace_from old new 0 s = pre ++ new ++ replace_from old new 0 post.
Proof.
  intros Hne. induction s as [|c s IH]; intros Hc.
  - destruct old; [contradiction | discriminate].
  - cbn [replace_from]. destruct (startswith old (c :: s)) eqn:Es.
    + apply startswith_iff in Es. destruct Es as [post Es].
      exists [], post. split; [exact Es|].
      split; [intros i Hi; cbn [length] in Hi; lia|]. cbn [app]. f_equal.
      destruct old as [|o old]; [contradiction|].
      cbn [app] in Es. injection Es as _ Es. subst s.
      cbn [length Nat.sub]. rewrite Nat.sub_0_r. apply replace_from_skip.
    + cbn [contains] in Hc. rewrite Es in Hc. cbn [orb] in Hc.
      destruct (IH Hc) as [pre [post [E1 [Hfirst E2]]]].
      exists (c :: pre), post. split; [now rewrite E1|]. split.
      * intros [|i] Hi; cbn [skipn]; [exact Es|].
        apply Hfirst. cbn [length] in Hi. lia.
      * cbn [app]. now rewrite E2.
Qed.

(** X20. The chat widget always reaches the page.  On a page with a
    closing body tag it stands directly before the first one, that is the
    one at the first position of the page where such a tag starts: the
    text before that position is kept as it is and holds no closing body
    tag.  What follows the tag is treated alike, so every closing body tag
    gets the widget, and a page with a single one is changed nowhere
    else.  A page without a closing body tag gets the widget at the very
    end. *)
Theorem chat_widget_injected (chat_widget_code html_content : str) :
  contains chat_widget_code (inject_chat_widget chat_widget_code html_content) = true
  /\ (contains (lit "</body>") html_content = false ->
      inject_chat_widget chat_widget_code html_content = html_content ++ chat_widget_code)
  /\ (contains (lit "</body>") html_content = true ->
      exists pre post,
        html_content = pre ++ lit "</body>" ++ post
        /\ (forall i, i < length pre ->
                      startswith (lit "</body>") (skipn i html_content) = false)
        /\ contains (lit "</body>") pre = false
        /\ inject_chat_widget chat_widget_code html_content
           = pre ++ chat_widget_code ++ lit "</body>"
             ++ str_replace (lit "</body>") (chat_widget_code ++ lit "</body>") post
        /\ (contains (lit "</body>") post = false ->
            inject_chat_widget chat_widget_code html_content
            = pre ++ chat_widget_code ++ lit "</body>" ++ post)).
Proof.
  unfold inject_chat_widget.
  destruct (contains (lit "</body>") html_content) eqn:Hc.
  - destruct (@replace_first (lit "</body>") (chat_widget_code ++ lit "</body>")
                ltac:(discriminate) html_content Hc) as [pre [post [E1 [Hfirst E2]]]].
    assert (E : str_replace (lit "</body>") (chat_widget_code ++ lit "</body>") html_content
                = pre ++ chat_widget_code ++ lit "</body>"
                  ++ str_replace (lit "</body>") (chat_widget_code ++ lit "</body>") post).
    { change (str_replace (lit "</body>") (chat_widget_code ++ lit "</body>") html_content)
        with (replace_from (lit "</body>") (chat_widget_code ++ lit "</body>") 0 html_content).
      rewrite E2. now rewrite <- !app_assoc. }
    split; [|split; [discriminate | intros _]].
    + rewrite E. apply contains_iff. now eexists pre, _.
    + exists pre, post. split; [exact E1|]. split; [exact Hfirst|].
      split; [|split; [exact E|]].
      * apply (@no_start_contains (lit "</body>") pre (lit "</body>" ++ post));
          [discriminate|].
        rewrite <- E1. exact Hfirst.
      * intros Hp. rewrite E. do 3 f_equal.
        exact (@replace_from_none (lit "</body>") (chat_widget_code ++ lit "</body>")
                 post Hp).
  - split; [|split; [reflexivity | discriminate]].
    apply contains_iff. exists html_content, []. now rewrite app_nil_r.
Qed.

Lemma chat_widget_injected_witness :
  contains (lit "</body>") (lit "<body><p></bo</p></body></html>") = true
  /\ exists pre post,
       lit "<body><p></bo</p></body></html>" = pre ++ lit "</body>" ++ post
       /\ (forall i, i < length pre ->
                     startswith (lit "</body>")
                       (skipn i (lit "<body><p></bo</p></body></html>")) = false)
       /\ contains (lit "</body>") pre = false
       /\ inject_chat_widget (lit "<script>chat()</script>")
            (lit "<body><p></bo</p></body></html>")
          = pre ++ lit "<script>chat()</script>" ++ lit "</body>"
            ++ str_replace (lit "</body>") (lit "<script>chat()</script>" ++ lit "</body>")
                 post.
Proof.
  split; [reflexivity|].
  destruct (proj2 (proj2 (chat_widget_injected (lit "<script>chat()</script>")
                            (lit "<body><p></bo</p></body></html>"))) eq_refl)
    as [pre [post [H1 [H2 [H3 [H4 _]]]]]].
  exists pre, post. split; [exact H1|]. split; [exact H2|]. split; [exact H3 | exact H4].
Defined.

Lemma bullet_text_length (para : str) :
  para <> [] -> bullet_text para <> [] /\ length (bullet_text para) <= 203.
Proof.
  intros Hne. unfold bullet_text, slice_to.
  destruct (200 <? length para) eqn:E.
  - split; [now destruct (firstn (N.to_nat 200) para)|].
    rewrite length_app, length_firstn. cbn [lit list_ascii_of_string length].
    change (N.to_nat 200) with 200. lia.
  - apply Nat.ltb_ge in E. split; [exact Hne | lia].
Qed.

(** X21. The slides of the PowerPoint export.  There are three.  The first
    carries the title: for a non-empty text the very title of the
    rule-based dashboard (the first line, cut at 100 characters), for an
    empty text [Research Dashboard].  The second lists at most three
    paragraphs, and the third at most two, since only five paragraphs are
    kept: between them they show, in order, the first five paragraphs of
    the text that are not blank.  Every entry is non-empty and at most 203
    characters long. *)
Theorem export_pptx_slides_shape (text : str) :
  exists first summary findings,
    export_pptx_slides text = Ok [first; summary; findings]
    /\ slide_paragraphs first = []
    /\ (text <> [] ->
        forall d, _analyze_with_rules text = Ok d -> slide_title first = title d)
    /\ (text = [] -> slide_title first = lit "Research Dashboard")
    /\ length (slide_paragraphs summary) <= 3
    /\ length (slide_paragraphs findings) <= 2
    /\ slide_paragraphs summary ++ slide_paragraphs findings
       = map bullet_text
           (firstn 5 (map strip (filter (fun p => truthy (strip p)) (split_blank text))))
    /\ forall p, In p (slide_paragraphs summary ++ slide_paragraphs findings) ->
                 p <> [] /\ length p <= 203.
Proof.
  unfold export_pptx_slides.
  set (paragraphs := firstn 5 (map strip (filter (fun p => truthy (strip p))
                                            (split_blank text)))).
  assert (Hlen : length paragraphs <= 5) by apply firstn_le_length.
  assert (Hall : slice 3 6 paragraphs = skipn 3 paragraphs).
  { unfold slice. apply firstn_all2. rewrite length_skipn. cbn [Nat.sub]. lia. }
  assert (Hcat : map bullet_text (firstn 3 paragraphs)
                 ++ map bullet_text (slice 3 6 paragraphs)
                 = map bullet_text paragraphs).
  { now rewrite Hall, <- map_app, firstn_skipn. }
  destruct (split LF text) as [|l0 ls] eqn:Es; [now apply split_not_nil in Es|].
  destruct text as [|c t]; cbn [truthy bind];
    (eexists; eexists; eexists; split; [reflexivity|]);
    cbn [slide_paragraphs slide_title];
    (split; [reflexivity|]).
  - split; [intros H; now elim H|]. split; [reflexivity|].
    split; [rewrite length_map; apply firstn_le_length|].
    split; [rewrite length_map, Hall, length_skipn; lia|].
    split; [exact Hcat|].
    rewrite Hcat. intros p Hin. apply in_map_iff in Hin.
    destruct Hin as [para [<- Hin]]. apply bullet_text_length.
    unfold paragraphs in Hin. apply In_firstn in Hin.
    apply in_map_iff in Hin. destruct Hin as [q [<- Hq]].
    apply filter_In in Hq. now destruct (strip q).
  - split.
    { intros _ d Hd. destruct (rules_spec (c :: t)) as [data [_ E]].
      rewrite E in Hd. injection Hd as <-. cbn [rule_dashboard title]. now rewrite Es. }
    split; [discriminate|].
    split; [rewrite length_map; apply firstn_le_length|].
    split; [rewrite length_map, Hall, length_skipn; lia|].
    split; [exact Hcat|].
    rewrite Hcat. intros p Hin. apply in_map_iff in Hin.
    destruct Hin as [para [<- Hin]]. apply bullet_text_length.
    unfold paragraphs in Hin. apply In_firstn in Hin.
    apply in_map_iff in Hin. destruct Hin as [q [<- Hq]].
    apply filter_In in Hq. now destruct (strip q).
Qed.

Lemma export_pptx_slides_shape_witness :
  exists first summary findings,
    export_pptx_slides sample_report = Ok [first; summary; findings]
    /\ sample_report <> []
    /\ _analyze_with_rules sample_report
       = Ok (rule_dashboard sample_report
               (rule_sections sample_report
                  (map (fun tok => nearest (decimal tok))
                     [lit "1"; lit "2"; lit "3"; lit "4"; lit "5"; lit "6"])))
    /\ slide_title first
       = title (rule_dashboard sample_report
                  (rule_sections sample_report
                  (map (fun tok => nearest (decimal tok))
                     [lit "1"; lit "2"; lit "3"; lit "4"; lit "5"; lit "6"]))).
Proof.
  destruct (export_pptx_slides_shape sample_report)
    as [first [summary [findings [E [_ [Ht _]]]]]].
  assert (Hne : sample_report <> []) by discriminate.
  assert (Hr : _analyze_with_rules sample_report
               = Ok (rule_dashboard sample_report
                       (rule_sections sample_report
                  (map (fun tok => nearest (decimal tok))
                     [lit "1"; lit "2"; lit "3"; lit "4"; lit "5"; lit "6"]))))
    by (vm_compute; reflexivity).
  exists first, summary, findings.
  split; [exact E|]. split; [exact Hne|]. split; [exact Hr|].
  exact (Ht Hne _ Hr).
Defined.
